(** * acmewatch: the diff replay engine of [reformat]

    A shallow embedding of [reformat], [parseSpan] and [findLines]
    (src/main.go and its configurable variant), of the formatters and of
    the two [main] functions that call them, with the library calls they
    make ([strings.Split], [strings.Index], [strconv.Atoi], [bytes.Equal],
    [filepath.Ext], the acme window) modelled by their documented
    behaviour; what the file system, the commands and [filepath.Match]
    answer is a parameter. *)

From Stdlib Require Import Ascii String.
From Stdlib Require Import List ZArith Lia Bool Sorted.
Import ListNotations.
Local Open Scope Z_scope.

(** ** Go data *)

(** A Go [string] or the contents of a [[]byte]: a sequence of bytes. *)
Definition bytes := list ascii.

(** A string literal as bytes. *)
Definition str (s : string) : bytes := list_ascii_of_string s.

(** The byte ['\n']. *)
Definition nl : ascii := ascii_of_nat 10.

(** Go's [int] on the 64-bit targets: a two's complement 64-bit integer.
    Arithmetic wraps around silently. *)
Definition int_min : Z := - 2 ^ 63.
Definition int_max : Z := 2 ^ 63 - 1.
Definition is_int (z : Z) : Prop := int_min <= z <= int_max.
Definition wrap (z : Z) : Z := (z + 2 ^ 63) mod 2 ^ 64 - 2 ^ 63.

(** [x--] on an [int]. *)
Definition decr (x : Z) : Z := wrap (x - 1).

(** A [[]byte] value: Go tells the nil slice from an allocated one, also
    when the latter has length 0. *)
Inductive slice : Type :=
| nil_slice
| mk_slice (contents : bytes).

Definition slice_bytes (s : slice) : bytes :=
  match s with
  | nil_slice => []
  | mk_slice b => b
  end.

(** [s == nil]. *)
Definition is_nil (s : slice) : bool :=
  match s with
  | nil_slice => true
  | mk_slice _ => false
  end.

Definition ascii_eqb (a b : ascii) : bool := Ascii.eqb a b.

Fixpoint bytes_eqb (a b : bytes) : bool :=
  match a, b with
  | [], [] => true
  | x :: a', y :: b' => ascii_eqb x y && bytes_eqb a' b'
  | _, _ => false
  end.

(** [bytes.Equal(a, b)]: same length and same bytes; a nil argument is an
    empty one. *)
Definition bytes_Equal (a : bytes) (b : slice) : bool :=
  bytes_eqb a (slice_bytes b).

(** [text[i]]: [None] is the run-time panic of an index out of range. *)
Definition index (text : bytes) (i : nat) : option ascii := nth_error text i.

(** [text[lo:hi]]: [None] is the run-time panic of slice bounds out of
    range ([lo <= hi <= len(text)] is what Go checks for a slice that has no
    spare capacity). *)
Definition subslice (text : bytes) (lo hi : nat) : option bytes :=
  if ((lo <=? hi) && (hi <=? length text))%nat
  then Some (firstn (hi - lo) (skipn lo text))
  else None.

(** ** findLines *)

(** The first loop of [findLines]:
    [for ; i < len(text) && start > 0; i++ { if text[i] == '\n' { start--; end-- } }].
    [fuel] bounds the number of iterations; [None] is a panic or the fuel
    running out. The result is the final [(i, start, end)]. *)
Fixpoint seekStart (fuel : nat) (text : bytes) (i : nat) (start end_ : Z)
  : option (nat * Z * Z) :=
  if ((i <? length text)%nat && (0 <? start))
  then
    match fuel with
    | O => None
    | S fuel' =>
        match index text i with
        | None => None
        | Some c =>
            if ascii_eqb c nl
            then seekStart fuel' text (S i) (decr start) (decr end_)
            else seekStart fuel' text (S i) start end_
        end
    end
  else Some (i, start, end_).

(** The second loop:
    [for ; i < len(text) && end > 0; i++ { if text[i] == '\n' { end-- } }]. *)
Fixpoint seekEnd (fuel : nat) (text : bytes) (i : nat) (end_ : Z)
  : option (nat * Z) :=
  if ((i <? length text)%nat && (0 <? end_))
  then
    match fuel with
    | O => None
    | S fuel' =>
        match index text i with
        | None => None
        | Some c =>
            if ascii_eqb c nl
            then seekEnd fuel' text (S i) (decr end_)
            else seekEnd fuel' text (S i) end_
        end
    end
  else Some (i, end_).

(** The two byte offsets [(startByte, endByte)] that [findLines] computes.
    Each loop advances [i] at every iteration, so [len(text)] iterations
    are all it can make. *)
Definition findLines_offsets (text : bytes) (start end_ : Z)
  : option (nat * nat) :=
  match seekStart (length text) text 0 (decr start) end_ with
  | None => None
  | Some (startByte, _, end1) =>
      match seekEnd (length text) text startByte end1 with
      | None => None
      | Some (endByte, _) => Some (startByte, endByte)
      end
  end.

(** [findLines(text, start, end)]: [text[startByte:endByte]]. *)
Definition findLines (text : bytes) (start end_ : Z) : option bytes :=
  match findLines_offsets text start end_ with
  | None => None
  | Some (startByte, endByte) => subslice text startByte endByte
  end.

(** ** Library calls of the diff parser *)

(** [strings.Split(s, sep)] for a separator of one byte: the pieces of [s]
    between the occurrences of [sep]; one more piece than occurrences, so
    the empty string gives one empty piece. *)
Fixpoint strings_Split (s : bytes) (sep : ascii) : list bytes :=
  match s with
  | [] => [[]]
  | c :: s' =>
      if ascii_eqb c sep
      then [] :: strings_Split s' sep
      else
        match strings_Split s' sep with
        | [] => [[c]]
        | piece :: pieces => (c :: piece) :: pieces
        end
  end.

(** [strings.Index(s, sep)] for a separator of one byte: the index of its
    first occurrence, [-1] when there is none. *)
Fixpoint strings_Index_from (s : bytes) (sep : ascii) (i : Z) : Z :=
  match s with
  | [] => -1
  | c :: s' => if ascii_eqb c sep then i else strings_Index_from s' sep (i + 1)
  end.

Definition strings_Index (s : bytes) (sep : ascii) : Z :=
  strings_Index_from s sep 0.

(** The value of a decimal digit. *)
Definition digit_value (c : ascii) : option Z :=
  let n := nat_of_ascii c in
  if ((48 <=? n) && (n <=? 57))%nat then Some (Z.of_nat (n - 48)) else None.

Fixpoint parse_digits (s : bytes) (acc : Z) : option Z :=
  match s with
  | [] => Some acc
  | c :: s' =>
      match digit_value c with
      | None => None
      | Some d => parse_digits s' (acc * 10 + d)
      end
  end.

(** [strconv.Atoi(s)]: an optional sign and one or more decimal digits,
    whose value fits an [int]; [None] is any error ([ErrSyntax] or
    [ErrRange]), whose returned number [parseSpan] never reads. *)
Definition Atoi (s : bytes) : option Z :=
  match s with
  | [] => None
  | c :: rest =>
      let neg := ascii_eqb c "-"%char in
      let digits := if neg || ascii_eqb c "+"%char then rest else s in
      match digits with
      | [] => None
      | _ :: _ =>
          match parse_digits digits 0 with
          | None => None
          | Some n =>
              let v := if neg then - n else n in
              if (int_min <=? v) && (v <=? int_max) then Some v else None
          end
      end
  end.

(** ** What reformat reports *)

(** A Go [error], by its message. *)
Definition error := string.

(** The lines [reformat] and [parseSpan] send to the log (and, in the
    variant that calls the formatter itself, to standard error). *)
Inductive log_entry : Type :=
| CannotParseDiffLine (line : bytes)   (* log.Printf("cannot parse diff line: %q", line) *)
| CannotParseSpan (text : bytes)       (* log.Printf("cannot parse span %q", text) *)
| LogPrint (e : error)                 (* log.Print(err) *)
| Stderr (e : error).                  (* fmt.Fprintln(os.Stderr, err) *)

(** ** parseSpan *)

Definition parseSpan (text : bytes) : (Z * Z) * list log_entry :=
  let i := strings_Index text ","%char in
  if i <? 0
  then
    match Atoi text with
    | None => ((0, 0), [CannotParseSpan text])
    | Some n => ((n, n), [])
    end
  else
    match Atoi (firstn (Z.to_nat i) text), Atoi (skipn (Z.to_nat (i + 1)) text) with
    | Some start, Some end_ => ((start, end_), [])
    | _, _ => ((0, 0), [CannotParseSpan text])
    end.

(** ** The acme window *)

(** The two address forms [reformat] sends with [w.Addr]. *)
Inductive address : Type :=
| AddrAfterLine (n : Z)      (* w.Addr("%d+#0", n) *)
| AddrLines (n m : Z).       (* w.Addr("%d,%d", n, m) *)

(** What [reformat] uses of [*acme.Win]: [Addr] and [Write] change the
    window and may fail; [CloseFiles] releases it. *)
Class Window (W : Type) : Type := {
  win_Addr : W -> address -> W * option error;
  win_Write : W -> string -> bytes -> W * option error;
  win_CloseFiles : W -> W
}.

(** The window being edited and everything logged so far. *)
Record state (W : Type) : Type := mkState {
  win : W;
  logged : list log_entry
}.
Arguments mkState {W} _ _.
Arguments win {W} _.
Arguments logged {W} _.

Definition log_to {W : Type} (st : state W) (entries : list log_entry) : state W :=
  mkState (win st) (logged st ++ entries).

(** How one iteration of the replay loop ends: with the next iteration
    ([continue], or the end of the body) or with the loop's [break]. *)
Inductive control : Type := Next | Break.

(** ** reformat: the replay loop *)

(** [for j < len(line) && line[j] != 'a' && line[j] != 'c' && line[j] != 'd' { j++ }]:
    the final [j], counted from [j] over the bytes not yet read. *)
Definition is_op (c : ascii) : bool :=
  ascii_eqb c "a"%char || ascii_eqb c "c"%char || ascii_eqb c "d"%char.

Fixpoint scan_op (rest : bytes) (j : nat) : nat :=
  match rest with
  | [] => j
  | c :: rest' => if is_op c then j else scan_op rest' (S j)
  end.

(** [line[0] == '<' || line[0] == '-' || line[0] == '>']. *)
Definition is_detail (c : ascii) : bool :=
  ascii_eqb c "<"%char || ascii_eqb c "-"%char || ascii_eqb c ">"%char.

(** The [switch line[j]] of the loop body. In each case an error of
    [w.Addr] is logged and leaves the switch; the result of [w.Write] is
    dropped. [None] is a panic inside [findLines]. *)
Definition apply_hunk {W : Type} `{Window W} (op : ascii) (new : bytes)
    (oldStart oldEnd newStart newEnd : Z) (st : state W) : option (state W) :=
  if ascii_eqb op "a"%char then
    match win_Addr (win st) (AddrAfterLine oldStart) with
    | (w1, Some err) => Some (mkState w1 (logged st ++ [LogPrint err]))
    | (w1, None) =>
        match findLines new newStart newEnd with
        | None => None
        | Some data => Some (mkState (fst (win_Write w1 "data" data)) (logged st))
        end
    end
  else if ascii_eqb op "c"%char then
    match win_Addr (win st) (AddrLines oldStart oldEnd) with
    | (w1, Some err) => Some (mkState w1 (logged st ++ [LogPrint err]))
    | (w1, None) =>
        match findLines new newStart newEnd with
        | None => None
        | Some data => Some (mkState (fst (win_Write w1 "data" data)) (logged st))
        end
    end
  else if ascii_eqb op "d"%char then
    match win_Addr (win st) (AddrLines oldStart oldEnd) with
    | (w1, Some err) => Some (mkState w1 (logged st ++ [LogPrint err]))
    | (w1, None) => Some (mkState (fst (win_Write w1 "data" [])) (logged st))
    end
  else Some st.

(** The body of [for i := len(diffLines) - 1; i >= 0; i--] for one line. *)
Definition replay_line {W : Type} `{Window W} (new : bytes) (line : bytes)
    (st : state W) : option (control * state W) :=
  match line with
  | [] => Some (Next, st)
  | c0 :: _ =>
      if is_detail c0 then Some (Next, st)
      else
        let j := scan_op line 0 in
        if (length line <=? j)%nat
        then Some (Break, log_to st [CannotParseDiffLine line])
        else
          let '((oldStart, oldEnd), log1) := parseSpan (firstn j line) in
          let '((newStart, newEnd), log2) := parseSpan (skipn (S j) line) in
          let st1 := log_to st (log1 ++ log2) in
          if (oldStart =? 0) || (newStart =? 0)
          then Some (Next, st1)
          else
            match apply_hunk (nth j line "000"%char) new
                    oldStart oldEnd newStart newEnd st1 with
            | None => None
            | Some st2 => Some (Next, st2)
            end
  end.

(** The loop itself, entered with [n = i + 1]: it reads [diffLines[i]] for
    [i = n - 1] down to [0]. *)
Fixpoint replay {W : Type} `{Window W} (new : bytes) (diffLines : list bytes)
    (n : nat) (st : state W) : option (state W) :=
  match n with
  | O => Some st
  | S i =>
      match replay_line new (nth i diffLines []) st with
      | None => None
      | Some (Break, st') => Some st'
      | Some (Next, st') => replay new diffLines i st'
      end
  end.

(** ** reformat *)

(** What the outside world answers during one call of [reformat]. *)
Record Sys (W : Type) : Type := mkSys {
  sys_Open : W + error;            (* acme.Open(id, nil) *)
  sys_ReadFile : bytes + error;    (* ioutil.ReadFile(name) *)
  sys_TempFile : option error;     (* ioutil.TempFile("", "acmego") *)
  sys_tmp_Write : option error;    (* f.Write(new) *)
  sys_diff : bytes                 (* exec.Command("9", "diff", name, tmp).CombinedOutput() *)
}.
Arguments mkSys {W} _ _ _ _ _.
Arguments sys_Open {W} _.
Arguments sys_ReadFile {W} _.
Arguments sys_TempFile {W} _.
Arguments sys_tmp_Write {W} _.
Arguments sys_diff {W} _.

(** [reformat] from [if new == nil || bytes.Equal(old, new)] to its end:
    the window as the call leaves it (before the deferred [CloseFiles]) and
    the log. *)
Definition reformat_edits {W : Type} `{Window W} (sys : Sys W) (old : bytes)
    (new : slice) (st : state W) : option (state W) :=
  if is_nil new || bytes_Equal old new then Some st
  else
    match sys_TempFile sys with
    | Some err => Some (log_to st [LogPrint err])
    | None =>
        match sys_tmp_Write sys with
        | Some err => Some (log_to st [LogPrint err])
        | None =>
            let w1 := fst (win_Write (win st) "ctl" (str "mark")) in
            let w2 := fst (win_Write w1 "ctl" (str "nomark")) in
            let diffLines := strings_Split (sys_diff sys) nl in
            replay (slice_bytes new) diffLines (length diffLines)
              (mkState w2 (logged st))
        end
    end.

(** The deferred [w.CloseFiles()]. *)
Definition close_window {W : Type} `{Window W} (r : option (state W))
  : option (option W * list log_entry) :=
  match r with
  | None => None
  | Some st => Some (Some (win_CloseFiles (win st)), logged st)
  end.

(** [reformat(id, name, new)] of the configurable variant: the closed
    window (none when it could not be opened) and the log; [None] is a
    panic. *)
Definition reformat {W : Type} `{Window W} (sys : Sys W) (new : slice)
  : option (option W * list log_entry) :=
  match sys_Open sys with
  | inr err => Some (None, [LogPrint err])
  | inl w =>
      match sys_ReadFile sys with
      | inr _ => close_window (Some (mkState w []))
      | inl old => close_window (reformat_edits sys old new (mkState w []))
      end
  end.

(** [reformat(id, name, fn)] of src/main.go, given what [fn(name)]
    returns. *)
Definition reformat_fmtFn {W : Type} `{Window W} (sys : Sys W)
    (fn_result : slice + error) : option (option W * list log_entry) :=
  match sys_Open sys with
  | inr err => Some (None, [LogPrint err])
  | inl w =>
      match sys_ReadFile sys with
      | inr _ => close_window (Some (mkState w []))
      | inl old =>
          match fn_result with
          | inr err => close_window (Some (mkState w [Stderr err]))
          | inl new => close_window (reformat_edits sys old new (mkState w []))
          end
      end
  end.

(** ** A window that records what it is asked *)

Inductive command : Type :=
| CmdAddr (a : address)
| CmdWrite (file : string) (data : bytes)
| CmdCloseFiles.

(** The commands received so far, oldest first; none fails. *)
Definition recorder := list command.

#[export] Instance recorder_Window : Window recorder := {
  win_Addr w a := (w ++ [CmdAddr a], None);
  win_Write w file data := (w ++ [CmdWrite file data], None);
  win_CloseFiles w := w ++ [CmdCloseFiles]
}.

(** A write to the window's body. *)
Definition is_data_write (c : command) : bool :=
  match c with
  | CmdWrite file _ => String.eqb file "data"
  | _ => false
  end.

(** ** The loops of findLines over the bytes still to read *)

(** [seekStart] seen from the bytes at and after [i]: how many bytes the
    loop consumes, and the countdowns it leaves. *)
Fixpoint seekStart_list (rest : bytes) (start end_ : Z) : nat * Z * Z :=
  match rest with
  | [] => (O, start, end_)
  | c :: rest' =>
      if 0 <? start then
        let '(k, s, e) :=
          if ascii_eqb c nl
          then seekStart_list rest' (decr start) (decr end_)
          else seekStart_list rest' start end_ in
        (S k, s, e)
      else (O, start, end_)
  end.

Fixpoint seekEnd_list (rest : bytes) (end_ : Z) : nat * Z :=
  match rest with
  | [] => (O, end_)
  | c :: rest' =>
      if 0 <? end_ then
        let '(k, e) :=
          if ascii_eqb c nl
          then seekEnd_list rest' (decr end_)
          else seekEnd_list rest' end_ in
        (S k, e)
      else (O, end_)
  end.

(** The bytes [findLines] returns, read off the two loops. *)
Definition findLines_list (text : bytes) (start end_ : Z) : bytes :=
  let '(k1, _, end1) := seekStart_list text (decr start) end_ in
  let '(k2, _) := seekEnd_list (skipn k1 text) end1 in
  firstn k2 (skipn k1 text).

(** ** Lines of text *)

(** Lines, each followed by its terminator. *)
Definition unlines (ls : list bytes) : bytes :=
  concat (map (fun l => l ++ [nl]) ls).

(** A line holds no terminator. *)
Definition is_line (l : bytes) : Prop := ~ In nl l.

Definition llen (ls : list bytes) : Z := Z.of_nat (length ls).

(** The number of line terminators of a text. *)
Fixpoint count_nl (text : bytes) : nat :=
  match text with
  | [] => O
  | c :: text' => if ascii_eqb c nl then S (count_nl text') else count_nl text'
  end.

(** What is left of a text after its first [k] line terminators (nothing
    when it has fewer). *)
Fixpoint after_lines (k : nat) (text : bytes) : bytes :=
  match k with
  | O => text
  | S k' =>
      match text with
      | [] => []
      | c :: text' =>
          if ascii_eqb c nl then after_lines k' text' else after_lines k text'
      end
  end.

(** The extraction window as the specification words it: the lines
    [start..end] (1-based, inclusive) with the terminators between them,
    without the terminator of the last one. *)
Definition window_without_last_terminator (ls : list bytes) (start end_ : nat)
  : bytes :=
  let picked := firstn (end_ - (start - 1)) (skipn (start - 1) ls) in
  removelast (unlines picked).

(** ** Hunks and the diff script format *)

Inductive kind : Type := Add | Change | Delete.

(** One diff instruction: its kind and its two inclusive line ranges. *)
Record hunk : Type := mkHunk {
  h_kind : kind;
  oldRange : Z * Z;
  newRange : Z * Z
}.

Definition old_start (h : hunk) : Z := fst (oldRange h).

Definition kind_op (k : kind) : ascii :=
  match k with
  | Add => "a"%char
  | Change => "c"%char
  | Delete => "d"%char
  end.

Definition op_kind (c : ascii) : option kind :=
  if ascii_eqb c "a"%char then Some Add
  else if ascii_eqb c "c"%char then Some Change
  else if ascii_eqb c "d"%char then Some Delete
  else None.

Definition is_digit (c : ascii) : bool :=
  match digit_value c with
  | Some _ => true
  | None => false
  end.

Definition digit_char (d : Z) : ascii := ascii_of_nat (48 + Z.to_nat d).

(** The decimal digits of [n >= 0], most significant first, in front of
    [acc]; [fuel + 1] digits at most. *)
Fixpoint digits_of (fuel : nat) (n : Z) (acc : bytes) : bytes :=
  let acc' := digit_char (n mod 10) :: acc in
  match fuel with
  | O => acc'
  | S fuel' => if n <? 10 then acc' else digits_of fuel' (n / 10) acc'
  end.

(** A number as a diff tool prints it. *)
Definition itoa (n : Z) : bytes :=
  if n <? 0
  then "-"%char :: digits_of (Z.to_nat (Z.log2 (- n))) (- n) []
  else digits_of (Z.to_nat (Z.log2 n)) n [].

(** Modelled from the spec: the header lines of the diff producer, an
    external tool ([9 diff]). A span is [N] for the range [[N,N]] and [N,M]
    otherwise. *)
Definition render_span (r : Z * Z) : bytes :=
  if fst r =? snd r then itoa (fst r)
  else itoa (fst r) ++ [","%char] ++ itoa (snd r).

(** Modelled from the spec: a header line is [<oldSpan><op><newSpan>]. *)
Definition header (h : hunk) : bytes :=
  render_span (oldRange h) ++ [kind_op (h_kind h)] ++ render_span (newRange h).

(** The bytes of a printed span: no operator and no terminator. *)
Definition span_byte (c : ascii) : Prop :=
  is_op c = false /\ ascii_eqb c nl = false.

Definition nonzero_starts (h : hunk) : Prop :=
  fst (oldRange h) <> 0 /\ fst (newRange h) <> 0.

(** A hunk whose header prints and reads back: numbers of [int] range, an
    old start that is a line number, a new start that is not 0. *)
Definition hunk_ok (h : hunk) : Prop :=
  1 <= fst (oldRange h) /\ fst (newRange h) <> 0 /\
  is_int (fst (oldRange h)) /\ is_int (snd (oldRange h)) /\
  is_int (fst (newRange h)) /\ is_int (snd (newRange h)).

(** ** The table of the specification *)

(** The address a hunk selects and the text written over it. *)
Definition select (h : hunk) : address :=
  match h_kind h with
  | Add => AddrAfterLine (fst (oldRange h))
  | Change | Delete => AddrLines (fst (oldRange h)) (snd (oldRange h))
  end.

Definition payload (new : bytes) (h : hunk) : bytes :=
  match h_kind h with
  | Add | Change => findLines_list new (fst (newRange h)) (snd (newRange h))
  | Delete => []
  end.

(** The commands the specification's table gives for one hunk, [payload]
    being the text of [newRange] in the new content. *)
Definition hunk_commands (h : hunk) (payload : bytes) : list command :=
  match h_kind h with
  | Add => [CmdAddr (AddrAfterLine (fst (oldRange h))); CmdWrite "data" payload]
  | Change =>
      [CmdAddr (AddrLines (fst (oldRange h)) (snd (oldRange h)));
       CmdWrite "data" payload]
  | Delete =>
      [CmdAddr (AddrLines (fst (oldRange h)) (snd (oldRange h)));
       CmdWrite "data" []]
  end.


(** One hunk against a window: an address the window rejects is logged
    and nothing is written; otherwise the payload is written and what the
    write answers is dropped. *)
Definition apply_spec {W : Type} `{Window W} (new : bytes) (h : hunk)
    (st : state W) : state W :=
  match win_Addr (win st) (select h) with
  | (w1, Some err) => mkState w1 (logged st ++ [LogPrint err])
  | (w1, None) =>
      mkState (fst (win_Write w1 "data" (payload new h))) (logged st)
  end.

(** ** The loop as a function of the lines *)

(** A line that is neither empty nor a detail line and holds no operator:
    the one the loop stops at. *)
Definition unparsable (line : bytes) : bool :=
  match line with
  | [] => false
  | c0 :: _ => negb (is_detail c0) && (length line <=? scan_op line 0)%nat
  end.

(** A line read as a header: it has an operator. *)
Definition is_header (line : bytes) : bool :=
  match line with
  | [] => false
  | c0 :: _ => negb (is_detail c0) && (scan_op line 0 <? length line)%nat
  end.

(** What [parseSpan] makes of the two sides of the operator. *)
Definition old_span (line : bytes) : (Z * Z) * list log_entry :=
  parseSpan (firstn (scan_op line 0) line).

Definition new_span (line : bytes) : (Z * Z) * list log_entry :=
  parseSpan (skipn (S (scan_op line 0)) line).

(** The hunk a line makes the loop apply, if any. *)
Definition line_hunk (line : bytes) : option hunk :=
  if is_header line then
    if (fst (fst (old_span line)) =? 0) || (fst (fst (new_span line)) =? 0)
    then None
    else
      option_map (fun k => mkHunk k (fst (old_span line)) (fst (new_span line)))
        (op_kind (nth (scan_op line 0) line "000"%char))
  else None.

(** What reading a line sends to the log, window errors apart. *)
Definition line_reports (line : bytes) : list log_entry :=
  if unparsable line then [CannotParseDiffLine line]
  else if is_header line then snd (old_span line) ++ snd (new_span line)
  else [].

Definition line_commands (new : bytes) (line : bytes) : list command :=
  match line_hunk line with
  | Some h => hunk_commands h (payload new h)
  | None => []
  end.

(** An empty line or a line that starts with [<], [-] or [>]. *)
Definition is_detail_line (l : bytes) : Prop :=
  match l with
  | [] => True
  | c :: _ => is_detail c = true
  end.

(** The loop over the lines in the order it reads them. *)
Fixpoint replay_rev {W : Type} `{Window W} (new : bytes) (rlines : list bytes)
    (st : state W) : option (control * state W) :=
  match rlines with
  | [] => Some (Next, st)
  | line :: rest =>
      match replay_line new line st with
      | None => None
      | Some (Break, st') => Some (Break, st')
      | Some (Next, st') => replay_rev new rest st'
      end
  end.

(** The lines the loop reads, given in its reading order: all up to and
    including the first one it cannot parse. *)
Fixpoint read_until_break (rlines : list bytes) : list bytes :=
  match rlines with
  | [] => []
  | line :: rest =>
      if unparsable line then [line] else line :: read_until_break rest
  end.

(** The hunks of a script, in the order of its text. *)
Definition text_hunks (lines : list bytes) : list hunk :=
  flat_map (fun line => match line_hunk line with
                        | Some h => [h]
                        | None => []
                        end) lines.

(** The line numbers of the addresses a window was sent, oldest first. *)
Definition addr_start (a : address) : Z :=
  match a with
  | AddrAfterLine n => n
  | AddrLines n _ => n
  end.

Definition addr_starts (cmds : list command) : list Z :=
  flat_map (fun c => match c with
                     | CmdAddr a => [addr_start a]
                     | _ => []
                     end) cmds.

(** ** Edit scripts: what a line diff says about two texts *)

(** A stretch of lines common to both texts, lines only the new text has,
    lines only the old text has, or old lines replaced by new ones. *)
Inductive edit : Type :=
| Keep (ls : list bytes)
| Insert (news : list bytes)
| Remove (olds : list bytes)
| Replace (olds news : list bytes).

Definition edit_old (e : edit) : list bytes :=
  match e with
  | Keep ls => ls
  | Insert _ => []
  | Remove olds => olds
  | Replace olds _ => olds
  end.

Definition edit_new (e : edit) : list bytes :=
  match e with
  | Keep ls => ls
  | Insert news => news
  | Remove _ => []
  | Replace _ news => news
  end.

Definition old_lines (es : list edit) : list bytes := flat_map edit_old es.
Definition new_lines (es : list edit) : list bytes := flat_map edit_new es.

(** Modelled from the spec: the hunk the diff producer emits for an edit
    that comes after [o] old and [n] new lines. An addition names the old
    line it follows, a deletion the new line it would follow. *)
Definition edit_hunk (o n : Z) (e : edit) : option hunk :=
  match e with
  | Keep _ => None
  | Insert news => Some (mkHunk Add (o, o) (n + 1, n + llen news))
  | Remove olds => Some (mkHunk Delete (o + 1, o + llen olds) (n, n))
  | Replace olds news =>
      Some (mkHunk Change (o + 1, o + llen olds) (n + 1, n + llen news))
  end.

Definition detail (mark : string) (l : bytes) : bytes := str mark ++ l.

(** Modelled from the spec: the lines the diff producer prints for an
    edit: the header, then the old lines after [< ] and the new ones after
    [> ], [---] between the two. *)
Definition edit_lines (o n : Z) (e : edit) : list bytes :=
  match edit_hunk o n e with
  | None => []
  | Some h =>
      header h ::
      match e with
      | Replace olds news =>
          map (detail "< ") olds ++ [str "---"] ++ map (detail "> ") news
      | _ => map (detail "< ") (edit_old e) ++ map (detail "> ") (edit_new e)
      end
  end.

Fixpoint script_lines (o n : Z) (es : list edit) : list bytes :=
  match es with
  | [] => []
  | e :: es' =>
      edit_lines o n e
        ++ script_lines (o + llen (edit_old e)) (n + llen (edit_new e)) es'
  end.

Fixpoint script_hunks (o n : Z) (es : list edit) : list hunk :=
  match es with
  | [] => []
  | e :: es' =>
      match edit_hunk o n e with
      | None => []
      | Some h => [h]
      end ++ script_hunks (o + llen (edit_old e)) (n + llen (edit_new e)) es'
  end.

(** The text of the script, every line terminated. *)
Definition diff_text (es : list edit) : bytes := unlines (script_lines 0 0 es).

(** Every line is a line, and every edit but [Keep] has lines to show. *)
Definition edit_ok (e : edit) : Prop :=
  Forall is_line (edit_old e) /\ Forall is_line (edit_new e) /\
  match e with
  | Keep _ => True
  | Insert news => news <> []
  | Remove olds => olds <> []
  | Replace olds news => olds <> [] /\ news <> []
  end.

(** No hunk of the script has a span that starts at line 0: nothing is
    inserted before the first old line, nothing removed before the first
    new one. *)
Definition no_zero_start (es : list edit) : Prop :=
  Forall nonzero_starts (script_hunks 0 0 es).

(** ** A reference window: text splicing as acme does it *)

(** Modelled from the spec: the Buffer Handle, an external collaborator
    (the acme editor), as a text with an address, a range of byte
    offsets. *)
Record buffer : Type := mkBuffer {
  body : bytes;
  addr : nat * nat
}.

(** The offset just after the [n]-th line terminator: the end of line [n]
    and the start of line [n + 1]; line 0 ends where the text starts. *)
Fixpoint line_end (text : bytes) (n : nat) : option nat :=
  match n with
  | O => Some O
  | S n' =>
      match text with
      | [] => None
      | c :: text' =>
          option_map S
            (if ascii_eqb c nl then line_end text' n' else line_end text' n)
      end
  end.

(** Modelled from the spec: the range an address selects. [n,m] is the
    inclusive range of lines [n] to [m] with their terminators, [n+#0] the
    insertion point after line [n], at offset 0 of the next line. *)
Definition resolve (text : bytes) (a : address) : (nat * nat) + error :=
  match a with
  | AddrAfterLine n =>
      if n <? 0 then inr "bad address"%string
      else
        match line_end text (Z.to_nat n) with
        | Some q => inl (q, q)
        | None => inr "address out of range"%string
        end
  | AddrLines n m =>
      if (n <? 0) || (m <? 0) then inr "bad address"%string
      else
        match line_end text (Z.to_nat n - 1), line_end text (Z.to_nat m) with
        | Some q0, Some q1 =>
            if (q0 <=? q1)%nat then inl (q0, q1)
            else inr "addresses out of order"%string
        | _, _ => inr "address out of range"%string
        end
  end.

(** Modelled from the spec: text written to [data] replaces the selected
    range (nothing written deletes it) and leaves the address empty at its
    end; [ctl] messages do not touch the body. *)
#[export] Instance buffer_Window : Window buffer := {
  win_Addr b a :=
    match resolve (body b) a with
    | inl r => (mkBuffer (body b) r, None)
    | inr e => (b, Some e)
    end;
  win_Write b file data :=
    if String.eqb file "data" then
      let q := (fst (addr b) + length data)%nat in
      (mkBuffer (firstn (fst (addr b)) (body b) ++ data ++ skipn (snd (addr b)) (body b))
                (q, q), None)
    else if String.eqb file "ctl" then (b, None)
    else (b, Some "no such file"%string);
  win_CloseFiles b := b
}.

(** A window whose every write fails. *)
Record failing : Type := mkFailing { received : list command }.

#[export] Instance failing_Window : Window failing := {
  win_Addr w a := (mkFailing (received w ++ [CmdAddr a]), None);
  win_Write w file data :=
    (mkFailing (received w ++ [CmdWrite file data]), Some "write failed"%string);
  win_CloseFiles w := w
}.

(** ** Example runs *)

(** A run in which everything but the diff replay goes well. *)
Definition sys_ok {W : Type} (w : W) (old diff : bytes) : Sys W :=
  mkSys (inl w) (inl old) None None diff.

(** A script of two hunks: line 2 changed, line 5 deleted. *)
Definition two_hunks_old : bytes :=
  unlines [str "a"; str "b"; str "c"; str "d"; str "e"].
Definition two_hunks_new : slice :=
  mk_slice (unlines [str "a"; str "x"; str "c"; str "d"]).
Definition two_hunks_diff : bytes :=
  unlines [str "2c2"; str "< b"; str "---"; str "> x"; str "5d4"; str "< e"].


(** ** The replay with every index and slice expression checked *)

(** [for j < len(line) && line[j] != 'a' && line[j] != 'c' && line[j] != 'd' { j++ }]
    with [line[j]] an indexing that can panic; [fuel] bounds the
    iterations, and [None] is a panic or the fuel running out. *)
Fixpoint scan_op_checked (fuel : nat) (line : bytes) (j : nat) : option nat :=
  if (j <? length line)%nat
  then
    match index line j with
    | None => None
    | Some c =>
        if is_op c then Some j
        else
          match fuel with
          | O => None
          | S fuel' => scan_op_checked fuel' line (S j)
          end
    end
  else Some j.

(** [parseSpan] with [text[:i]] and [text[i+1:]] slice expressions that
    can panic. *)
Definition parseSpan_checked (text : bytes)
  : option ((Z * Z) * list log_entry) :=
  let i := strings_Index text ","%char in
  if i <? 0
  then
    Some match Atoi text with
         | None => ((0, 0), [CannotParseSpan text])
         | Some n => ((n, n), [])
         end
  else
    match subslice text 0 (Z.to_nat i),
          subslice text (Z.to_nat (i + 1)) (length text) with
    | Some before, Some after =>
        Some match Atoi before, Atoi after with
             | Some start, Some end_ => ((start, end_), [])
             | _, _ => ((0, 0), [CannotParseSpan text])
             end
    | _, _ => None
    end.

(** The body of the loop with [line[0]], [line[:j]], [line[j+1:]] and
    [line[j]] checked. *)
Definition replay_line_checked {W : Type} `{Window W} (new : bytes)
    (line : bytes) (st : state W) : option (control * state W) :=
  if (length line =? 0)%nat then Some (Next, st)
  else
    match index line 0 with
    | None => None
    | Some c0 =>
        if is_detail c0 then Some (Next, st)
        else
          match scan_op_checked (length line) line 0 with
          | None => None
          | Some j =>
              if (length line <=? j)%nat
              then Some (Break, log_to st [CannotParseDiffLine line])
              else
                match subslice line 0 j, subslice line (S j) (length line) with
                | Some oldSpan, Some newSpan =>
                    match parseSpan_checked oldSpan, parseSpan_checked newSpan with
                    | Some ((oldStart, oldEnd), log1),
                      Some ((newStart, newEnd), log2) =>
                        let st1 := log_to st (log1 ++ log2) in
                        if (oldStart =? 0) || (newStart =? 0)
                        then Some (Next, st1)
                        else
                          match index line j with
                          | None => None
                          | Some op =>
                              match apply_hunk op new oldStart oldEnd
                                      newStart newEnd st1 with
                              | None => None
                              | Some st2 => Some (Next, st2)
                              end
                          end
                    | _, _ => None
                    end
                | _, _ => None
                end
          end
    end.

(** The loop with [diffLines[i]] checked. *)
Fixpoint replay_checked {W : Type} `{Window W} (new : bytes)
    (diffLines : list bytes) (n : nat) (st : state W) : option (state W) :=
  match n with
  | O => Some st
  | S i =>
      match nth_error diffLines i with
      | None => None
      | Some line =>
          match replay_line_checked new line st with
          | None => None
          | Some (Break, st') => Some st'
          | Some (Next, st') => replay_checked new diffLines i st'
          end
      end
  end.

Definition reformat_edits_checked {W : Type} `{Window W} (sys : Sys W)
    (old : bytes) (new : slice) (st : state W) : option (state W) :=
  if is_nil new || bytes_Equal old new then Some st
  else
    match sys_TempFile sys with
    | Some err => Some (log_to st [LogPrint err])
    | None =>
        match sys_tmp_Write sys with
        | Some err => Some (log_to st [LogPrint err])
        | None =>
            let w1 := fst (win_Write (win st) "ctl" (str "mark")) in
            let w2 := fst (win_Write w1 "ctl" (str "nomark")) in
            let diffLines := strings_Split (sys_diff sys) nl in
            replay_checked (slice_bytes new) diffLines (length diffLines)
              (mkState w2 (logged st))
        end
    end.

Definition reformat_checked {W : Type} `{Window W} (sys : Sys W) (new : slice)
  : option (option W * list log_entry) :=
  match sys_Open sys with
  | inr err => Some (None, [LogPrint err])
  | inl w =>
      match sys_ReadFile sys with
      | inr _ => close_window (Some (mkState w []))
      | inl old => close_window (reformat_edits_checked sys old new (mkState w []))
      end
  end.

Definition reformat_fmtFn_checked {W : Type} `{Window W} (sys : Sys W)
    (fn_result : slice + error) : option (option W * list log_entry) :=
  match sys_Open sys with
  | inr err => Some (None, [LogPrint err])
  | inl w =>
      match sys_ReadFile sys with
      | inr _ => close_window (Some (mkState w []))
      | inl old =>
          match fn_result with
          | inr err => close_window (Some (mkState w [Stderr err]))
          | inl new =>
              close_window (reformat_edits_checked sys old new (mkState w []))
          end
      end
  end.

(** ** Whole lines of any text *)

(** A text up to and including its [k]-th line terminator (all of it when
    it has fewer): what [after_lines] leaves out. *)
Fixpoint upto_lines (k : nat) (text : bytes) : bytes :=
  match k with
  | O => []
  | S k' =>
      match text with
      | [] => []
      | c :: text' =>
          c :: (if ascii_eqb c nl then upto_lines k' text' else upto_lines k text')
      end
  end.

(** A text that ends with a line terminator. *)
Definition ends_line (t : bytes) : Prop := exists t', t = t' ++ [nl].

(** [window] is a run of whole lines of [text]: a part of it that starts
    at its first byte or after a line terminator, and ends with a line
    terminator or where the text ends (the empty part at the end of a
    text that is not terminated is one too). *)
Definition whole_lines_of (text window : bytes) : Prop :=
  exists before after : bytes,
    text = before ++ window ++ after /\
    (before = [] \/ ends_line before \/ (window = [] /\ after = [])) /\
    (window = [] \/ ends_line window \/ after = []).

(** A line the replay loop passes by before it looks for an operator: an
    empty one, or one that starts with [<], [-] or [>]. *)
Definition passed_by (line : bytes) : bool :=
  match line with
  | [] => true
  | c :: _ => is_detail c
  end.

(** The lines of a script the loop looks into. *)
Definition headers_of (diff : bytes) : list bytes :=
  filter (fun line => negb (passed_by line)) (strings_Split diff nl).

(** The same answers of the outside world, with another output of the diff
    tool. *)
Definition with_diff {W : Type} (sys : Sys W) (diff : bytes) : Sys W :=
  mkSys (sys_Open sys) (sys_ReadFile sys) (sys_TempFile sys)
    (sys_tmp_Write sys) diff.

(** ** Library calls of main *)

(** [strings.HasPrefix(s, prefix)]. *)
Fixpoint strings_HasPrefix (s prefix : bytes) : bool :=
  match prefix, s with
  | [], _ => true
  | p :: prefix', c :: s' => ascii_eqb c p && strings_HasPrefix s' prefix'
  | _ :: _, [] => false
  end.

(** [strings.Contains(s, substr)]: [substr] starts somewhere in [s]. *)
Fixpoint strings_Contains (s substr : bytes) : bool :=
  strings_HasPrefix s substr ||
  match s with
  | [] => false
  | _ :: s' => strings_Contains s' substr
  end.

(** [filepath.Ext(path)], with [/] the separator:
    [for i := len(path) - 1; i >= 0 && path[i] != '/'; i-- { if path[i] == '.' { return path[i:] } }; return ""],
    entered with [n = i + 1]. *)
Fixpoint Ext_loop (path : bytes) (n : nat) : bytes :=
  match n with
  | O => []
  | S i =>
      match index path i with
      | None => []
      | Some c =>
          if ascii_eqb c "/"%char then []
          else if ascii_eqb c "."%char then skipn i path
          else Ext_loop path i
      end
  end.

Definition filepath_Ext (path : bytes) : bytes := Ext_loop path (length path).

(** [name] ends with [suffix]. *)
Definition has_suffix (name suffix : bytes) : Prop :=
  exists stem : bytes, name = stem ++ suffix.

(** An error built by [fmt.Errorf] from the bytes of its message. *)
Definition errorf (message : bytes) : error := string_of_list_ascii message.

(** ** Running a formatter *)

(** A command as [exec.Command] and the fields set on it describe it: the
    program, its arguments, the working directory when one is set, and the
    file opened for its standard input when there is one. *)
Record invocation : Type := mkInvocation {
  inv_name : bytes;
  inv_args : list bytes;
  inv_Dir : option bytes;
  inv_Stdin : option bytes
}.

(** What the outside world answers to [os.Open(name)] and to
    [cmd.CombinedOutput()]. *)
Record Exec : Type := mkExec {
  os_Open : bytes -> option error;
  CombinedOutput : invocation -> slice * option error
}.

(** ** The formatters of src/main.go *)

(** The error of a formatter whose command failed:
    [fmt.Errorf("<tool> %s: %v\n%s", name, err, new)] when the output
    contains [fatal error], [fmt.Errorf("%s", new)] otherwise. *)
Definition fatal_or_output (tool : string) (name : bytes) (err : error)
    (new : slice) : error :=
  if strings_Contains (slice_bytes new) (str "fatal error")
  then errorf (str tool ++ str " " ++ name ++ str ": " ++ str err ++ [nl]
                 ++ slice_bytes new)
  else errorf (slice_bytes new).

(** A formatter that reads the file on its standard input. *)
Definition fmt_stdin (x : Exec) (tool : string) (command : bytes)
    (args : list bytes) (name : bytes) : slice + error :=
  match os_Open x name with
  | Some err => inr err
  | None =>
      match CombinedOutput x (mkInvocation command args None (Some name)) with
      | (new, Some err) => inr (fatal_or_output tool name err new)
      | (new, None) => inl new
      end
  end.

Definition fmtSQL (x : Exec) (name : bytes) : slice + error :=
  fmt_stdin x "sqlfmt" (str "sqlfmt") [str "--print-width"; str "80"] name.

Definition fmtCrlfmt (x : Exec) (name : bytes) : slice + error :=
  fmt_stdin x "crlfmt" (str "crlfmt") [str "-tab"; str "2"] name.

Definition fmtRust (x : Exec) (name : bytes) : slice + error :=
  fmt_stdin x "rustfmt" (str "rustfmt")
    [str "--config"; str "hard_tabs=true"; str "--edition"; str "2018"] name.

(** The error of [fmtOpt] names [rustfmt], as the source has it. *)
Definition fmtOpt (x : Exec) (name : bytes) : slice + error :=
  fmt_stdin x "rustfmt" (str "optfmt") [] name.

Definition fmtGoImports (x : Exec) (name : bytes) : slice + error :=
  match CombinedOutput x (mkInvocation (str "goimports") [name] None None) with
  | (new, Some err) => inr (fatal_or_output "goimports" name err new)
  | (new, None) => inl new
  end.

Definition fmtJS (x : Exec) (name : bytes) : slice + error :=
  match CombinedOutput x
          (mkInvocation (str "prettier")
             [str "--use-tabs"; str "--single-quote"; str "--no-color";
              str "--trailing-comma"; str "es5"; name] None None) with
  | (new, Some err) =>
      inr (errorf (name ++ str ": " ++ str err ++ [nl] ++ slice_bytes new))
  | (new, None) => inl new
  end.

(** ** main of src/main.go *)

(** An event of the acme log. *)
Record event : Type := mkEvent {
  ID : Z;
  Op : bytes;
  Name : bytes
}.

(** The functions a [fmtFn] variable of [main] can hold. *)
Inductive fmtFn : Type := SQL | Crlfmt | Rust | Opt | GoImports | JS.

Definition call (fn : fmtFn) (x : Exec) (name : bytes) : slice + error :=
  match fn with
  | SQL => fmtSQL x name
  | Crlfmt => fmtCrlfmt x name
  | Rust => fmtRust x name
  | Opt => fmtOpt x name
  | GoImports => fmtGoImports x name
  | JS => fmtJS x name
  end.

(** The file name endings of the [case] that selects [fmtJS]. *)
Definition js_suffixes : list bytes :=
  [str ".js"; str ".css"; str ".html"; str ".json"; str ".less"; str ".ts";
   str ".tsx"].

(** [switch filepath.Ext(event.Name)]: [None] is the [fn] left nil. *)
Definition main_fmtFn (name : bytes) : option fmtFn :=
  let ext := filepath_Ext name in
  if bytes_eqb ext (str ".go") then Some Crlfmt
  else if existsb (bytes_eqb ext) js_suffixes then Some JS
  else if bytes_eqb ext (str ".sql") then Some SQL
  else if bytes_eqb ext (str ".opt") then Some Opt
  else None.

(** A byte of an extension after its dot: neither a dot nor a separator. *)
Definition ext_byte (c : ascii) : Prop :=
  ascii_eqb c "/"%char = false /\ ascii_eqb c "."%char = false.

(** The file name endings [main] has a formatter for. *)
Definition known_suffixes : list bytes :=
  str ".go" :: js_suffixes ++ [str ".sql"; str ".opt"].

(** The body of the loop of [main] for one event: the result of the call
    of [reformat], when there is one. *)
Definition main_event {W : Type} `{Window W} (x : Exec) (sys : Sys W)
    (ev : event) : option (option (option W * list log_entry)) :=
  if negb (bytes_eqb (Name ev) []) && bytes_eqb (Op ev) (str "put")
  then
    match main_fmtFn (Name ev) with
    | Some fn => Some (reformat_fmtFn sys (call fn x (Name ev)))
    | None => None
    end
  else None.

(** ** main of the configurable variant *)

(** An entry of the configuration: the patterns of the files it is for, the
    command and its arguments. *)
Record formatter : Type := mkFormatter {
  Match : list bytes;
  Cmd : bytes;
  Args : list bytes
}.

Record Config : Type := mkConfig {
  Formatter : list formatter
}.

(** A [time.Time], as an instant counted from the zero [Time]. *)
Definition time := Z.

(** What [main] keeps from one event to the next. *)
Record watch : Type := mkWatch {
  lastMod : time;
  config : Config
}.

(** [filepath.Match], [filepath.Base] and [filepath.Dir]. *)
Record Filepath : Type := mkFilepath {
  filepath_Match : bytes -> bytes -> bool + error;
  filepath_Base : bytes -> bytes;
  filepath_Dir : bytes -> bytes
}.

(** What the outside world answers during one call of [readEvent]. The
    decoder writes into the configuration it is given, and may have
    written part of it when it fails. *)
Record Host (W : Type) : Type := mkHost {
  os_Stat : time + error;                         (* os.Stat(configPath), info.ModTime() *)
  os_Open_config : option error;                  (* os.Open(configPath) *)
  toml_Decode : Config -> Config * option error;  (* toml.NewDecoder(f).Decode(&config) *)
  host_exec : Exec;
  host_sys : Sys W
}.
Arguments mkHost {W} _ _ _ _ _.
Arguments os_Stat {W} _.
Arguments os_Open_config {W} _.
Arguments toml_Decode {W} _.
Arguments host_exec {W} _.
Arguments host_sys {W} _.

(** What [main] prints on standard output. *)
Inductive print : Type :=
| PrintRead (at_ : time)                 (* fmt.Printf("read %s at %s\n", configPath, lastMod) *)
| PrintError (name : bytes) (err : error).  (* fmt.Printf("%s: %s\n", event.Name, err) *)

(** [if strings.HasPrefix(m, ".") && !strings.Contains(m, "*") { fm.Match[i] = "*" + m }]. *)
Definition normalize_match (m : bytes) : bytes :=
  if strings_HasPrefix m (str ".") && negb (strings_Contains m (str "*"))
  then str "*" ++ m
  else m.

(** The two loops over the configuration just decoded: the patterns are
    rewritten in place. *)
Definition normalize (c : Config) : Config :=
  mkConfig
    (map (fun fm => mkFormatter (map normalize_match (Match fm)) (Cmd fm) (Args fm))
       (Formatter c)).

(** The first part of [readEvent]: the configuration is read again when
    the file changed after [lastMod]. *)
Definition load_config {W : Type} (h : Host W) (st : watch)
  : watch * list print * option error :=
  match os_Stat h with
  | inr err => (st, [], Some err)
  | inl mod_ =>
      if lastMod st <? mod_
      then
        match os_Open_config h with
        | Some err => (st, [], Some err)
        | None =>
            match toml_Decode h (config st) with
            | (c, Some err) => (mkWatch (lastMod st) c, [], Some err)
            | (c, None) => (mkWatch mod_ (normalize c), [PrintRead mod_], None)
            end
        end
      else (st, [], None)
  end.

(** [s[i] = v]: [None] is the run-time panic of an index out of range. *)
Definition set_index {A : Type} (s : list A) (i : nat) (v : A) : option (list A) :=
  if (i <? length s)%nat then Some (firstn i s ++ v :: skipn (S i) s) else None.

(** [for i, arg := range args { if arg == "$name" { ... } }]: the loop runs
    over the slice [args] named when it started, here the elements [rest]
    from index [i] on, while [args] is replaced by a copy of itself with
    [name] at [i]. *)
Fixpoint substitute_from (i : nat) (rest : list bytes) (name : bytes)
    (args : list bytes) (stdin : bool) : option (list bytes * bool) :=
  match rest with
  | [] => Some (args, stdin)
  | arg :: rest' =>
      if bytes_eqb arg (str "$name")
      then
        match set_index args i name with
        | None => None
        | Some newArgs => substitute_from (S i) rest' name newArgs false
        end
      else substitute_from (S i) rest' name args stdin
  end.

Definition substitute (args : list bytes) (name : bytes)
  : option (list bytes * bool) :=
  substitute_from 0 args name args true.

(** How a call of [readEvent] ends. *)
Inductive outcome (W : Type) : Type :=
| NotRun (err : option error)            (* returned before any command was run *)
| RunFailed (inv : invocation) (err : error)
| Reformatted (inv : invocation) (out : slice)
    (r : option (option W * list log_entry))   (* reformat(id, name, out); return nil *)
| Panicked.
Arguments NotRun {W} _.
Arguments RunFailed {W} _ _.
Arguments Reformatted {W} _ _ _.
Arguments Panicked {W}.

(** The error [readEvent] returns. *)
Definition outcome_error {W : Type} (o : outcome W) : option error :=
  match o with
  | NotRun err => err
  | RunFailed _ err => Some err
  | Reformatted _ _ _ => None
  | Panicked => None
  end.

(** The body of the inner loop once a pattern matched. *)
Definition run_formatter {W : Type} `{Window W} (fp : Filepath) (h : Host W)
    (fm : formatter) (name : bytes) : outcome W :=
  match substitute (Args fm) name with
  | None => Panicked
  | Some (args, stdin) =>
      let inv := mkInvocation (Cmd fm) args (Some (filepath_Dir fp name))
                   (if stdin then Some name else None) in
      match (if stdin then os_Open (host_exec h) name else None) with
      | Some err => NotRun (Some err)
      | None =>
          match CombinedOutput (host_exec h) inv with
          | (out, Some err) =>
              RunFailed inv (errorf (str err ++ str ": " ++ slice_bytes out))
          | (out, None) => Reformatted inv out (reformat (host_sys h) out)
          end
      end
  end.

(** The name a pattern is matched against. *)
Definition matchName (fp : Filepath) (m name : bytes) : bytes :=
  if strings_HasPrefix m (str "*.") then filepath_Base fp name else name.

(** [for _, m := range fm.Match]: [None] when no pattern matched. *)
Fixpoint match_patterns {W : Type} `{Window W} (fp : Filepath) (h : Host W)
    (fm : formatter) (name : bytes) (ms : list bytes) : option (outcome W) :=
  match ms with
  | [] => None
  | m :: ms' =>
      match filepath_Match fp m (matchName fp m name) with
      | inr err => Some (NotRun (Some err))
      | inl false => match_patterns fp h fm name ms'
      | inl true => Some (run_formatter fp h fm name)
      end
  end.

(** [for _, fm := range config.Formatter], and the [return nil] after it. *)
Fixpoint match_formatters {W : Type} `{Window W} (fp : Filepath) (h : Host W)
    (name : bytes) (fms : list formatter) : outcome W :=
  match fms with
  | [] => NotRun None
  | fm :: fms' =>
      match match_patterns fp h fm name (Match fm) with
      | Some o => o
      | None => match_formatters fp h name fms'
      end
  end.

Definition readEvent {W : Type} `{Window W} (fp : Filepath) (h : Host W)
    (st : watch) (name : bytes) : watch * list print * outcome W :=
  match load_config h st with
  | (st1, printed, Some err) => (st1, printed, NotRun (Some err))
  | (st1, printed, None) =>
      (st1, printed, match_formatters fp h name (Formatter (config st1)))
  end.

(** What [l.Read()] returns: an event, with what the outside world
    answers while it is handled, or an error. *)
Inductive log_read (W : Type) : Type :=
| LogEvent (ev : event) (h : Host W)
| LogError (err : error).
Arguments LogEvent {W} _ _.
Arguments LogError {W} _.

(** The loop of [main] over what the log delivers: the state it ends
    with, what it printed, how the calls of [readEvent] ended, and the
    error of [log.Fatal] when [l.Read] failed. *)
Fixpoint watch_loop {W : Type} `{Window W} (fp : Filepath)
    (reads : list (log_read W)) (st : watch)
  : watch * list print * list (outcome W) * option error :=
  match reads with
  | [] => (st, [], [], None)
  | LogError err :: _ => (st, [], [], Some err)
  | LogEvent ev h :: rest =>
      if bytes_eqb (Name ev) [] || negb (bytes_eqb (Op ev) (str "put"))
      then watch_loop fp rest st
      else
        let '(st1, printed, o) := readEvent fp h st (Name ev) in
        let report :=
          match outcome_error o with
          | Some err => [PrintError (Name ev) err]
          | None => []
          end in
        let '(st2, printed2, outcomes, fatal) := watch_loop fp rest st1 in
        (st2, printed ++ report ++ printed2, o :: outcomes, fatal)
  end.

(** All the patterns of a configuration with their entries, in the order
    the two loops try them. *)
Definition tests (fms : list formatter) : list (formatter * bytes) :=
  flat_map (fun fm => map (pair fm) (Match fm)) fms.

(** What [$name] arguments become. *)
Definition with_name (name : bytes) (arg : bytes) : bytes :=
  if bytes_eqb arg (str "$name") then name else arg.

(** An argument that stands for the file name. *)
Definition is_name_arg (arg : bytes) : bool := bytes_eqb arg (str "$name").

(** The search of the two loops, over the patterns in the order of
    [tests]. *)
Fixpoint first_test {W : Type} `{Window W} (fp : Filepath) (h : Host W)
    (name : bytes) (ts : list (formatter * bytes)) : outcome W :=
  match ts with
  | [] => NotRun None
  | (fm, m) :: ts' =>
      match filepath_Match fp m (matchName fp m name) with
      | inr err => NotRun (Some err)
      | inl false => first_test fp h name ts'
      | inl true => run_formatter fp h fm name
      end
  end.

(** A pattern that does not match the file. *)
Definition no_match (fp : Filepath) (name : bytes) (t : formatter * bytes) : Prop :=
  filepath_Match fp (snd t) (matchName fp (snd t) name) = inl false.

(** ** Example runs of the variant *)

(** Answers of [filepath] for one file, [/src/a.go]: the pattern [[] is
    malformed, [*.go] matches its base name. *)
Definition example_Filepath : Filepath :=
  mkFilepath
    (fun m n =>
       if bytes_eqb m (str "[") then inr "syntax error in pattern"%string
       else inl (bytes_eqb m (str "*.go") && bytes_eqb n (str "a.go")))
    (fun _ => str "a.go")
    (fun _ => str "/src").

(** Two entries: one for Rust and Go files, one with a malformed
    pattern. *)
Definition example_Config : Config :=
  mkConfig [mkFormatter [str "*.rs"; str "*.go"] (str "gofmt") [str "-s"; str "$name"];
            mkFormatter [str "["] (str "never") []].

(** A configuration file modified at time 5, and a command that prints
    new content. *)
Definition example_Host : Host recorder :=
  mkHost (inl 5) None (fun _ => (example_Config, None))
    (mkExec (fun _ => None) (fun _ => (two_hunks_new, None)))
    (sys_ok [] two_hunks_old two_hunks_diff).

(** * Properties *)

(** ** Integers *)

Lemma wrap_small (z : Z) : is_int z -> wrap z = z.
Proof.
  unfold is_int, int_min, int_max, wrap. intros Hz.
  rewrite Z.mod_small; lia.
Qed.

Lemma wrap_is_int (z : Z) : is_int (wrap z).
Proof.
  unfold is_int, int_min, int_max, wrap.
  pose proof (Z.mod_pos_bound (z + 2 ^ 63) (2 ^ 64) ltac:(lia)). lia.
Qed.

Lemma decr_pos (z : Z) : 0 < z -> z <= int_max -> decr z = z - 1.
Proof.
  intros H1 H2. unfold decr. apply wrap_small.
  unfold is_int, int_min, int_max in *. lia.
Qed.

Lemma decr_small (z : Z) : int_min < z -> z <= int_max -> decr z = z - 1.
Proof.
  intros H1 H2. unfold decr. apply wrap_small.
  unfold is_int, int_min, int_max in *. lia.
Qed.

Lemma ascii_eqb_eq (a b : ascii) : ascii_eqb a b = true <-> a = b.
Proof. unfold ascii_eqb. apply Ascii.eqb_eq. Qed.

Lemma ascii_eqb_neq (a b : ascii) : ascii_eqb a b = false <-> a <> b.
Proof. unfold ascii_eqb. apply Ascii.eqb_neq. Qed.

Lemma ascii_eqb_refl (a : ascii) : ascii_eqb a a = true.
Proof. apply ascii_eqb_eq. reflexivity. Qed.

(** ** findLines: the loops run to their end inside the text *)

Lemma skipn_index (text : bytes) (i : nat) (c : ascii) :
  index text i = Some c -> skipn i text = c :: skipn (S i) text.
Proof.
  unfold index. revert i. induction text as [|x text IH]; intros [|i] Hc;
    simpl in *; try discriminate.
  - congruence.
  - apply IH. exact Hc.
Qed.

Lemma index_in_range (text : bytes) (i : nat) :
  (i < length text)%nat -> exists c, index text i = Some c.
Proof.
  intros Hi. unfold index. destruct (nth_error text i) as [c|] eqn:E.
  - exists c. reflexivity.
  - apply nth_error_None in E. lia.
Qed.

Lemma seekStart_eq (fuel : nat) : forall (text : bytes) (i : nat) (start end_ : Z),
  (i <= length text)%nat -> (length text - i <= fuel)%nat ->
  seekStart fuel text i start end_ =
  let '(k, s, e) := seekStart_list (skipn i text) start end_ in
  Some ((i + k)%nat, s, e).
Proof.
  induction fuel as [|fuel IH]; intros text i start end_ Hi Hfuel.
  - assert (i = length text) by lia. subst i.
    rewrite skipn_all. simpl. rewrite Nat.ltb_irrefl. simpl.
    rewrite Nat.add_0_r. reflexivity.
  - cbn [seekStart]. destruct (Nat.ltb_spec i (length text)) as [Hlt|Hge].
    + destruct (index_in_range text i Hlt) as [c Hc].
      rewrite (skipn_index _ _ _ Hc), Hc. cbn [seekStart_list andb].
      destruct (0 <? start); [|rewrite Nat.add_0_r; reflexivity].
      destruct (ascii_eqb c nl); rewrite IH by lia;
        match goal with
        | |- context [seekStart_list ?r ?s ?e] =>
            destruct (seekStart_list r s e) as [[k s'] e']
        end; rewrite Nat.add_succ_r; reflexivity.
    + assert (i = length text) by lia. subst i.
      rewrite skipn_all. cbn. rewrite Nat.add_0_r. reflexivity.
Qed.

Lemma seekEnd_eq (fuel : nat) : forall (text : bytes) (i : nat) (end_ : Z),
  (i <= length text)%nat -> (length text - i <= fuel)%nat ->
  seekEnd fuel text i end_ =
  let '(k, e) := seekEnd_list (skipn i text) end_ in Some ((i + k)%nat, e).
Proof.
  induction fuel as [|fuel IH]; intros text i end_ Hi Hfuel.
  - assert (i = length text) by lia. subst i.
    rewrite skipn_all. simpl. rewrite Nat.ltb_irrefl. simpl.
    rewrite Nat.add_0_r. reflexivity.
  - cbn [seekEnd]. destruct (Nat.ltb_spec i (length text)) as [Hlt|Hge].
    + destruct (index_in_range text i Hlt) as [c Hc].
      rewrite (skipn_index _ _ _ Hc), Hc. cbn [seekEnd_list andb].
      destruct (0 <? end_); [|rewrite Nat.add_0_r; reflexivity].
      destruct (ascii_eqb c nl); rewrite IH by lia;
        match goal with
        | |- context [seekEnd_list ?r ?e] =>
            destruct (seekEnd_list r e) as [k e']
        end; rewrite Nat.add_succ_r; reflexivity.
    + assert (i = length text) by lia. subst i.
      rewrite skipn_all. cbn. rewrite Nat.add_0_r. reflexivity.
Qed.

Lemma seekStart_list_bound (rest : bytes) : forall (start end_ : Z),
  (fst (fst (seekStart_list rest start end_)) <= length rest)%nat.
Proof.
  induction rest as [|c rest IH]; intros start end_; simpl; [lia|].
  destruct (0 <? start); simpl; [|lia].
  destruct (ascii_eqb c nl);
    match goal with
    | |- context [seekStart_list ?r ?s ?e] =>
        specialize (IH s e); destruct (seekStart_list r s e) as [[k s'] e']
    end; simpl in *; lia.
Qed.

Lemma seekEnd_list_bound (rest : bytes) : forall (end_ : Z),
  (fst (seekEnd_list rest end_) <= length rest)%nat.
Proof.
  induction rest as [|c rest IH]; intros end_; simpl; [lia|].
  destruct (0 <? end_); simpl; [|lia].
  destruct (ascii_eqb c nl);
    match goal with
    | |- context [seekEnd_list ?r ?e] =>
        specialize (IH e); destruct (seekEnd_list r e) as [k e']
    end; simpl in *; lia.
Qed.

(** The offsets [findLines] computes, and the bytes it returns, in terms
    of the loops over the rest of the text. *)
Lemma findLines_offsets_list (text : bytes) (start end_ : Z) :
  exists k1 s1 end1 k2 e2,
    seekStart_list text (decr start) end_ = (k1, s1, end1) /\
    seekEnd_list (skipn k1 text) end1 = (k2, e2) /\
    (k1 + k2 <= length text)%nat /\
    findLines_offsets text start end_ = Some (k1, (k1 + k2)%nat).
Proof.
  unfold findLines_offsets.
  rewrite seekStart_eq by lia. simpl skipn.
  pose proof (seekStart_list_bound text (decr start) end_) as Hk1.
  destruct (seekStart_list text (decr start) end_) as [[k1 s1] end1].
  simpl in Hk1. simpl.
  rewrite seekEnd_eq by lia.
  pose proof (seekEnd_list_bound (skipn k1 text) end1) as Hk2.
  destruct (seekEnd_list (skipn k1 text) end1) as [k2 e2] eqn:E2.
  simpl in Hk2. rewrite length_skipn in Hk2.
  exists k1, s1, end1, k2, e2. repeat split; try reflexivity; [exact E2 | lia].
Qed.

Lemma findLines_total (text : bytes) (start end_ : Z) :
  findLines text start end_ = Some (findLines_list text start end_).
Proof.
  unfold findLines, findLines_list.
  destruct (findLines_offsets_list text start end_)
    as (k1 & s1 & end1 & k2 & e2 & H1 & H2 & Hle & Hoff).
  rewrite Hoff, H1, H2. unfold subslice.
  replace ((k1 <=? k1 + k2)%nat) with true by (symmetry; apply Nat.leb_le; lia).
  replace ((k1 + k2 <=? length text)%nat) with true
    by (symmetry; apply Nat.leb_le; lia).
  simpl. do 2 f_equal. lia.
Qed.

(** ** findLines: what the countdowns find *)

Lemma after_lines_nil (k : nat) : after_lines k [] = [].
Proof. destruct k; reflexivity. Qed.

Lemma after_lines_0 (text : bytes) : after_lines 0 text = text.
Proof. destruct text; reflexivity. Qed.

Lemma count_nl_after_lines (text : bytes) : forall k : nat,
  count_nl (after_lines k text) = (count_nl text - k)%nat.
Proof.
  induction text as [|c text IH]; intros k.
  - rewrite after_lines_nil. reflexivity.
  - destruct k as [|k]; [simpl; lia|].
    simpl. destruct (ascii_eqb c nl); rewrite IH; reflexivity.
Qed.

Lemma after_lines_all (text : bytes) : forall k : nat,
  (count_nl text < k)%nat -> after_lines k text = [].
Proof.
  induction text as [|c text IH]; intros k Hk.
  - apply after_lines_nil.
  - destruct k as [|k]; [lia|].
    simpl in *. destruct (ascii_eqb c nl); apply IH; lia.
Qed.

Lemma seekStart_list_spec (rest : bytes) : forall (start end_ : Z),
  start <= int_max -> end_ <= int_max ->
  int_min + Z.of_nat (Nat.min (Z.to_nat start) (count_nl rest)) <= end_ ->
  skipn (fst (fst (seekStart_list rest start end_))) rest
    = after_lines (Z.to_nat start) rest /\
  snd (seekStart_list rest start end_)
    = end_ - Z.of_nat (Nat.min (Z.to_nat start) (count_nl rest)).
Proof.
  induction rest as [|c rest IH]; intros start end_ Hs He Hlow.
  - rewrite after_lines_nil. cbn [seekStart_list fst snd skipn count_nl].
    rewrite Nat.min_0_r. split; [reflexivity|lia].
  - cbn [seekStart_list]. destruct (Z.ltb_spec 0 start) as [Hpos|Hneg].
    + assert (Hn : Z.to_nat start = S (Z.to_nat (start - 1))) by lia.
      revert Hlow. rewrite Hn. cbn [count_nl after_lines].
      destruct (ascii_eqb c nl); intros Hlow.
      * cbn [Nat.min] in *.
        rewrite decr_pos by lia.
        rewrite (decr_small end_) by (unfold int_min in *; lia).
        specialize (IH (start - 1) (end_ - 1) ltac:(lia) ltac:(lia) ltac:(lia)).
        destruct (seekStart_list rest (start - 1) (end_ - 1)) as [[k s'] e'].
        cbn [fst snd skipn] in *. destruct IH as [IH1 IH2].
        split; [exact IH1|lia].
      * specialize (IH start end_ Hs He).
        rewrite Hn in IH. specialize (IH Hlow).
        destruct (seekStart_list rest start end_) as [[k s'] e'].
        cbn [fst snd skipn] in *. exact IH.
    + replace (Z.to_nat start) with O by lia.
      cbn [fst snd skipn after_lines Nat.min Z.of_nat].
      split; [reflexivity|lia].
Qed.

Lemma seekEnd_list_spec (rest : bytes) : forall (end_ : Z),
  end_ <= int_max ->
  skipn (fst (seekEnd_list rest end_)) rest = after_lines (Z.to_nat end_) rest.
Proof.
  induction rest as [|c rest IH]; intros end_ He.
  - rewrite after_lines_nil. reflexivity.
  - cbn [seekEnd_list]. destruct (Z.ltb_spec 0 end_) as [Hpos|Hneg].
    + assert (Hn : Z.to_nat end_ = S (Z.to_nat (end_ - 1))) by lia.
      rewrite Hn. cbn [after_lines]. destruct (ascii_eqb c nl).
      * rewrite decr_pos by lia.
        specialize (IH (end_ - 1) ltac:(lia)).
        destruct (seekEnd_list rest (end_ - 1)) as [k e']. exact IH.
      * specialize (IH end_ He). rewrite Hn in IH.
        destruct (seekEnd_list rest end_) as [k e']. exact IH.
    + replace (Z.to_nat end_) with O by lia. reflexivity.
Qed.

(** For countdowns that do not wrap around: the first loop stops where the
    text after [start - 1] terminators begins, the second where the text
    after the remaining ones begins. *)
Lemma findLines_window (text : bytes) (start end_ : Z) :
  int_min < start -> start <= int_max -> end_ <= int_max ->
  let m := Nat.min (Z.to_nat (start - 1)) (count_nl text) in
  let r1 := after_lines (Z.to_nat (start - 1)) text in
  int_min + Z.of_nat m <= end_ ->
  exists k1 k2 : nat,
    findLines_offsets text start end_ = Some (k1, (k1 + k2)%nat) /\
    (k1 + k2 <= length text)%nat /\
    skipn k1 text = r1 /\
    skipn k2 r1 = after_lines (Z.to_nat (end_ - Z.of_nat m)) r1 /\
    findLines text start end_ = Some (firstn k2 r1).
Proof.
  intros Hs1 Hs2 He m r1 Hlow.
  destruct (findLines_offsets_list text start end_)
    as (k1 & s1 & end1 & k2 & e2 & H1 & H2 & Hle & Hoff).
  rewrite decr_small in H1 by assumption.
  destruct (seekStart_list_spec text (start - 1) end_ ltac:(lia) He Hlow)
    as [Hk1 Hend1].
  rewrite H1 in Hk1, Hend1. simpl in Hk1, Hend1.
  pose proof (seekEnd_list_spec (skipn k1 text) end1 ltac:(lia)) as Hk2.
  rewrite H2 in Hk2. simpl in Hk2.
  exists k1, k2. repeat split; try assumption.
  - fold r1 in Hk1. rewrite <- Hk1, Hk2, Hend1. reflexivity.
  - rewrite findLines_total. unfold findLines_list.
    rewrite decr_small by assumption. rewrite H1, H2, Hk1. reflexivity.
Qed.

(** ** Lines and their terminators *)

Lemma unlines_cons (l : bytes) (ls : list bytes) :
  unlines (l :: ls) = l ++ nl :: unlines ls.
Proof. unfold unlines. simpl. rewrite <- app_assoc. reflexivity. Qed.

Lemma unlines_app (xs ys : list bytes) :
  unlines (xs ++ ys) = unlines xs ++ unlines ys.
Proof. unfold unlines. rewrite map_app, concat_app. reflexivity. Qed.

Lemma after_lines_line (l : bytes) : forall (k : nat) (rest : bytes),
  is_line l -> after_lines (S k) (l ++ nl :: rest) = after_lines k rest.
Proof.
  induction l as [|c l IH]; intros k rest Hl.
  - cbn [app after_lines]. rewrite ascii_eqb_refl. reflexivity.
  - cbn [app after_lines].
    assert (Hc : ascii_eqb c nl = false).
    { apply ascii_eqb_neq. intros ->. apply Hl. left. reflexivity. }
    rewrite Hc. apply IH. intros Hin. apply Hl. right. exact Hin.
Qed.

Lemma after_lines_unlines (ls : list bytes) : forall (k : nat) (tail : bytes),
  Forall is_line ls -> (k <= length ls)%nat ->
  after_lines k (unlines ls ++ tail) = unlines (skipn k ls) ++ tail.
Proof.
  induction ls as [|l ls IH]; intros k tail Hls Hk.
  - simpl in Hk. replace k with O by lia. apply after_lines_0.
  - destruct k as [|k]; [apply after_lines_0|].
    inversion Hls as [|? ? Hl Hls']; subst.
    rewrite unlines_cons, <- app_assoc. cbn [app].
    rewrite after_lines_line by assumption.
    simpl in Hk. rewrite IH by (assumption || lia). reflexivity.
Qed.

Lemma count_nl_app (a b : bytes) : count_nl (a ++ b) = (count_nl a + count_nl b)%nat.
Proof.
  induction a as [|c a IH]; [reflexivity|].
  simpl. destruct (ascii_eqb c nl); rewrite IH; reflexivity.
Qed.

Lemma count_nl_line (l : bytes) : is_line l -> count_nl l = O.
Proof.
  induction l as [|c l IH]; intros Hl; [reflexivity|].
  simpl. assert (Hc : ascii_eqb c nl = false).
  { apply ascii_eqb_neq. intros ->. apply Hl. left. reflexivity. }
  rewrite Hc. apply IH. intros Hin. apply Hl. right. exact Hin.
Qed.

Lemma count_nl_unlines (ls : list bytes) :
  Forall is_line ls -> count_nl (unlines ls) = length ls.
Proof.
  induction 1 as [|l ls Hl Hls IH]; [reflexivity|].
  rewrite unlines_cons, count_nl_app, count_nl_line by assumption.
  cbn [count_nl]. rewrite ascii_eqb_refl, IH. reflexivity.
Qed.

Lemma firstn_plus {A : Type} (a b : nat) : forall l : list A,
  firstn (a + b) l = firstn a l ++ firstn b (skipn a l).
Proof.
  induction a as [|a IH]; intros l; [reflexivity|].
  destruct l as [|x l]; simpl.
  - rewrite firstn_nil. reflexivity.
  - rewrite IH. reflexivity.
Qed.

Lemma skipn_length_eq {A : Type} (k : nat) (pre rest : list A) :
  (k <= length (pre ++ rest))%nat -> skipn k (pre ++ rest) = rest ->
  k = length pre.
Proof.
  intros Hk Heq.
  assert (H : length (skipn k (pre ++ rest)) = length rest) by (rewrite Heq; reflexivity).
  rewrite length_skipn, length_app in H. rewrite length_app in Hk. lia.
Qed.

(** The window of in-range lines: from the start of line [start] up to and
    including the terminator of line [end]. *)
Lemma findLines_lines (ls : list bytes) (tail : bytes) (start end_ : Z) :
  Forall is_line ls ->
  1 <= start <= end_ -> end_ <= llen ls -> end_ <= int_max ->
  findLines_offsets (unlines ls ++ tail) start end_
    = Some (length (unlines (firstn (Z.to_nat (start - 1)) ls)),
            length (unlines (firstn (Z.to_nat end_) ls))) /\
  findLines (unlines ls ++ tail) start end_
    = Some (unlines (firstn (Z.to_nat (end_ - start + 1))
                       (skipn (Z.to_nat (start - 1)) ls))).
Proof.
  intros Hls Hse Hlen Hmax. unfold llen in Hlen.
  set (text := unlines ls ++ tail).
  set (a := Z.to_nat (start - 1)).
  set (b := Z.to_nat (end_ - start + 1)).
  assert (Hcount : (length ls <= count_nl text)%nat).
  { unfold text. rewrite count_nl_app, count_nl_unlines by assumption. lia. }
  assert (Hm : Nat.min a (count_nl text) = a) by (unfold a; lia).
  destruct (findLines_window text start end_) as (k1 & k2 & Hoff & Hle & Hk1 & Hk2 & Hfind).
  { unfold int_min. lia. }
  { lia. }
  { exact Hmax. }
  { fold a. rewrite Hm. unfold a, int_min. lia. }
  fold a in Hk1, Hk2, Hfind. rewrite Hm in Hk2.
  replace (Z.to_nat (end_ - Z.of_nat a)) with b in Hk2 by (unfold a, b; lia).
  assert (Hr1 : after_lines a text = unlines (skipn a ls) ++ tail).
  { unfold text. apply after_lines_unlines; [assumption|unfold a; lia]. }
  rewrite Hr1 in Hk1, Hk2, Hfind.
  assert (Hxs : Forall is_line (skipn a ls)).
  { apply Forall_forall. intros x Hx.
    rewrite Forall_forall in Hls. apply Hls.
    rewrite <- (firstn_skipn a ls). apply in_or_app. right. exact Hx. }
  rewrite (after_lines_unlines (skipn a ls) b tail Hxs) in Hk2
    by (rewrite length_skipn; unfold a, b; lia).
  assert (Hpay : firstn k2 (unlines (skipn a ls) ++ tail)
                 = unlines (firstn b (skipn a ls))).
  { apply (app_inv_tail (unlines (skipn b (skipn a ls)) ++ tail)).
    rewrite <- Hk2 at 1. rewrite firstn_skipn.
    rewrite app_assoc, <- unlines_app, firstn_skipn. reflexivity. }
  assert (Hk1' : k1 = length (unlines (firstn a ls))).
  { apply (skipn_length_eq k1 _ (unlines (skipn a ls) ++ tail)).
    - rewrite app_assoc, <- unlines_app, firstn_skipn. fold text. lia.
    - rewrite app_assoc, <- unlines_app, firstn_skipn. exact Hk1. }
  assert (Hk2' : k2 = length (unlines (firstn b (skipn a ls)))).
  { rewrite <- Hpay. rewrite length_firstn.
    assert (length (skipn k1 text) = length (unlines (skipn a ls) ++ tail))
      by (rewrite Hk1; reflexivity).
    rewrite length_skipn in H. lia. }
  split.
  - rewrite Hoff. do 2 f_equal.
    + exact Hk1'.
    + replace (Z.to_nat end_) with (a + b)%nat by (unfold a, b; lia).
      rewrite firstn_plus, unlines_app, length_app. lia.
  - rewrite Hfind, Hpay. reflexivity.
Qed.

(** ** findLines: the claims *)

(** C10. findLines is total: whatever the text and the two integers (zero,
    negative or beyond the last line), both loops end, no index leaves
    the text, and the result is [text[startByte:endByte]] for offsets
    with [0 <= startByte <= endByte <= len(text)]. *)
Theorem findLines_never_faults (text : bytes) (start end_ : Z) :
  exists startByte endByte : nat,
    findLines_offsets text start end_ = Some (startByte, endByte) /\
    (startByte <= endByte <= length text)%nat /\
    findLines text start end_
      = Some (firstn (endByte - startByte) (skipn startByte text)).
Proof.
  destruct (findLines_offsets_list text start end_)
    as (k1 & s1 & end1 & k2 & e2 & H1 & H2 & Hle & Hoff).
  exists k1, (k1 + k2)%nat. split; [exact Hoff|]. split; [lia|].
  rewrite findLines_total. unfold findLines_list.
  rewrite H1, H2. do 2 f_equal. lia.
Qed.

(** C8. A range that runs past the end of the content is cut at the end
    of the content: when [end] exceeds the number of line terminators,
    the end offset is [len(text)] and the result is all that is left of
    the text from line [start] on, with no error. *)
Theorem findLines_clamps_at_end (text : bytes) (start end_ : Z) :
  1 <= start <= int_max ->
  Z.of_nat (count_nl text) < end_ <= int_max ->
  exists startByte : nat,
    findLines_offsets text start end_ = Some (startByte, length text) /\
    (startByte <= length text)%nat /\
    skipn startByte text = after_lines (Z.to_nat (start - 1)) text /\
    findLines text start end_ = Some (skipn startByte text).
Proof.
  intros Hs He.
  destruct (findLines_window text start end_) as (k1 & k2 & Hoff & Hle & Hk1 & Hk2 & Hfind).
  { unfold int_min. lia. }
  { lia. }
  { lia. }
  { unfold int_min. lia. }
  set (a := Z.to_nat (start - 1)) in *.
  set (m := Nat.min a (count_nl text)) in *.
  rewrite (after_lines_all (after_lines a text)) in Hk2
    by (rewrite count_nl_after_lines; unfold m; lia).
  assert (Hlen : length (skipn k2 (after_lines a text)) = O)
    by (rewrite Hk2; reflexivity).
  rewrite length_skipn in Hlen.
  assert (Hr : length (skipn k1 text) = length (after_lines a text))
    by (rewrite Hk1; reflexivity).
  rewrite length_skipn in Hr.
  exists k1. repeat split.
  - rewrite Hoff. do 2 f_equal. lia.
  - lia.
  - exact Hk1.
  - rewrite Hfind, Hk1. f_equal. apply firstn_all2. lia.
Qed.

(** The bound and the range of the witness below. *)
Lemma findLines_clamps_at_end_witness :
  let text := unlines [str "a"; str "b"] in
  exists startByte : nat,
    findLines_offsets text 2 5 = Some (startByte, length text) /\
    (startByte <= length text)%nat /\
    skipn startByte text = after_lines (Z.to_nat (2 - 1)) text /\
    findLines text 2 5 = Some (skipn startByte text).
Proof.
  apply (findLines_clamps_at_end (unlines [str "a"; str "b"]) 2 5).
  - unfold int_max. lia.
  - unfold int_max. simpl. lia.
Defined.

(** C9, as stated, fails: for the content [a\nx\nc\n] and the range
    [[2,2]] findLines returns [x\n], terminator included, and not the
    window without the last line's terminator. *)
Lemma findLines_window_counterexample :
  let ls := [str "a"; str "x"; str "c"] in
  findLines (unlines ls) 2 2 = Some (str "x" ++ [nl]) /\
  findLines (unlines ls) 2 2 <> Some (window_without_last_terminator ls 2 2).
Proof.
  vm_compute. split; [reflexivity|discriminate].
Qed.

(** C9, amended. For an in-bounds range [[start, end]] over terminated
    lines, the start offset is found by passing [start - 1] terminators,
    the end offset by passing the terminators of the remaining lines of
    the range, that of line [end] too: the payload is the lines [start]
    to [end], each with its terminator. *)
Theorem findLines_window_keeps_terminators
    (ls : list bytes) (tail : bytes) (start end_ : Z) :
  Forall is_line ls ->
  1 <= start <= end_ -> end_ <= llen ls -> end_ <= int_max ->
  findLines_offsets (unlines ls ++ tail) start end_
    = Some (length (unlines (firstn (Z.to_nat (start - 1)) ls)),
            length (unlines (firstn (Z.to_nat end_) ls))) /\
  findLines (unlines ls ++ tail) start end_
    = Some (unlines (firstn (Z.to_nat (end_ - start + 1))
                       (skipn (Z.to_nat (start - 1)) ls))).
Proof.
  intros Hls Hse Hlen Hmax. apply findLines_lines; assumption.
Qed.

Lemma findLines_window_keeps_terminators_witness :
  let ls := [str "a"; str "x"; str "c"] in
  findLines_offsets (unlines ls ++ str "rest") 2 3
    = Some (length (unlines (firstn (Z.to_nat (2 - 1)) ls)),
            length (unlines (firstn (Z.to_nat 3) ls))) /\
  findLines (unlines ls ++ str "rest") 2 3
    = Some (unlines (firstn (Z.to_nat (3 - 2 + 1))
                       (skipn (Z.to_nat (2 - 1)) ls))).
Proof.
  apply (findLines_window_keeps_terminators
           [str "a"; str "x"; str "c"] (str "rest") 2 3).
  - repeat constructor; unfold is_line; vm_compute; intuition discriminate.
  - lia.
  - vm_compute. discriminate.
  - vm_compute. discriminate.
Defined.

(** ** Numbers as diff prints them, read back by Atoi *)

Lemma digit_char_value (d : Z) :
  0 <= d < 10 -> digit_value (digit_char d) = Some d.
Proof.
  intros Hd.
  assert (H : d = 0 \/ d = 1 \/ d = 2 \/ d = 3 \/ d = 4 \/ d = 5 \/ d = 6 \/
              d = 7 \/ d = 8 \/ d = 9) by lia.
  repeat (destruct H as [-> | H]; [reflexivity|]). subst d. reflexivity.
Qed.

Lemma is_digit_not_special (c : ascii) :
  is_digit c = true ->
  is_op c = false /\ is_detail c = false /\
  ascii_eqb c ","%char = false /\ ascii_eqb c "+"%char = false /\
  ascii_eqb c nl = false.
Proof.
  destruct c as [[] [] [] [] [] [] [] []]; vm_compute; intros H;
    try discriminate H; repeat split.
Qed.

Lemma parse_digits_snoc (xs : bytes) (c : ascii) : forall acc : Z,
  parse_digits (xs ++ [c]) acc =
  match parse_digits xs acc with
  | Some v => option_map (fun d => v * 10 + d) (digit_value c)
  | None => None
  end.
Proof.
  induction xs as [|x xs IH]; intros acc; cbn [app parse_digits].
  - destruct (digit_value c); reflexivity.
  - destruct (digit_value x); [apply IH|reflexivity].
Qed.

Lemma digits_of_acc (fuel : nat) : forall (n : Z) (acc : bytes),
  digits_of fuel n acc = digits_of fuel n [] ++ acc.
Proof.
  induction fuel as [|fuel IH]; intros n acc; cbn [digits_of].
  - reflexivity.
  - destruct (n <? 10); [reflexivity|].
    rewrite (IH _ (_ :: acc)), (IH _ [_]), <- app_assoc. reflexivity.
Qed.

Lemma parse_digits_of (fuel : nat) : forall n : Z,
  0 <= n < 2 ^ Z.of_nat (S fuel) ->
  parse_digits (digits_of fuel n []) 0 = Some n.
Proof.
  induction fuel as [|fuel IH]; intros n Hn.
  - change (2 ^ Z.of_nat 1) with 2 in Hn. cbn [digits_of parse_digits].
    rewrite digit_char_value by (apply Z.mod_pos_bound; lia).
    f_equal. rewrite Z.mod_small; lia.
  - cbn [digits_of]. destruct (Z.ltb_spec n 10) as [Hlt|Hge].
    + cbn [parse_digits].
      rewrite digit_char_value by (apply Z.mod_pos_bound; lia).
      f_equal. rewrite Z.mod_small; lia.
    + rewrite digits_of_acc, parse_digits_snoc.
      rewrite Nat2Z.inj_succ, Z.pow_succ_r in Hn by lia.
      rewrite IH.
      * rewrite digit_char_value by (apply Z.mod_pos_bound; lia).
        cbn [option_map]. f_equal.
        pose proof (Z.div_mod n 10 ltac:(lia)). lia.
      * split; [apply Z.div_pos; lia|].
        apply Z.div_lt_upper_bound; lia.
Qed.

Lemma digits_of_digits (fuel : nat) : forall n : Z,
  Forall (fun c => is_digit c = true) (digits_of fuel n []).
Proof.
  assert (Hd : forall n, is_digit (digit_char (n mod 10)) = true).
  { intros n. unfold is_digit.
    rewrite digit_char_value by (apply Z.mod_pos_bound; lia). reflexivity. }
  induction fuel as [|fuel IH]; intros n; cbn [digits_of].
  - constructor; [apply Hd|constructor].
  - destruct (n <? 10).
    + constructor; [apply Hd|constructor].
    + rewrite digits_of_acc. apply Forall_app. split; [apply IH|].
      constructor; [apply Hd|constructor].
Qed.

Lemma digits_of_nonempty (fuel : nat) (n : Z) : digits_of fuel n [] <> [].
Proof.
  destruct fuel as [|fuel]; cbn [digits_of]; [discriminate|].
  destruct (n <? 10); [discriminate|].
  rewrite digits_of_acc. intros H. apply app_eq_nil in H.
  destruct H as [_ H]. discriminate H.
Qed.

Lemma log2_fuel (n : Z) : 0 <= n -> n < 2 ^ Z.of_nat (S (Z.to_nat (Z.log2 n))).
Proof.
  intros Hn. rewrite Nat2Z.inj_succ, Z2Nat.id by apply Z.log2_nonneg.
  destruct (Z.eq_dec n 0) as [->|Hz]; [reflexivity|].
  apply Z.log2_spec. lia.
Qed.

(** What diff prints for a number of [int] range, [Atoi] reads back. *)
Lemma Atoi_itoa (n : Z) : is_int n -> Atoi (itoa n) = Some n.
Proof.
  intros Hn. unfold itoa. destruct (Z.ltb_spec n 0) as [Hneg|Hpos].
  - set (ds := digits_of (Z.to_nat (Z.log2 (- n))) (- n) []).
    assert (Hds : ds <> []) by apply digits_of_nonempty.
    assert (Hp : parse_digits ds 0 = Some (- n)).
    { apply parse_digits_of. split; [lia|]. apply log2_fuel. lia. }
    unfold Atoi. rewrite ascii_eqb_refl. cbn [orb].
    destruct ds as [|d ds']; [contradiction|].
    rewrite Hp. rewrite Z.opp_involutive.
    destruct Hn as [H1 H2].
    replace (int_min <=? n) with true by (symmetry; apply Z.leb_le; exact H1).
    replace (n <=? int_max) with true by (symmetry; apply Z.leb_le; exact H2).
    reflexivity.
  - set (ds := digits_of (Z.to_nat (Z.log2 n)) n []).
    assert (Hds : ds <> []) by apply digits_of_nonempty.
    assert (Hp : parse_digits ds 0 = Some n).
    { apply parse_digits_of. split; [lia|]. apply log2_fuel. lia. }
    pose proof (digits_of_digits (Z.to_nat (Z.log2 n)) n) as Hall.
    fold ds in Hall.
    destruct ds as [|d ds']; [contradiction|].
    inversion Hall as [|? ? Hd _]; subst.
    destruct (is_digit_not_special d Hd) as (_ & Hdet & _ & Hplus & _).
    unfold is_detail in Hdet.
    apply orb_false_iff in Hdet. destruct Hdet as [Hdet _].
    apply orb_false_iff in Hdet. destruct Hdet as [_ Hminus].
    unfold Atoi. rewrite Hminus, Hplus. cbn [orb].
    rewrite Hp. destruct Hn as [H1 H2].
    replace (int_min <=? n) with true by (symmetry; apply Z.leb_le; exact H1).
    replace (n <=? int_max) with true by (symmetry; apply Z.leb_le; exact H2).
    reflexivity.
Qed.

(** ** Headers *)

Lemma scan_op_none (l : bytes) : forall j : nat,
  Forall (fun c => is_op c = false) l -> scan_op l j = (j + length l)%nat.
Proof.
  induction l as [|c l IH]; intros j Hl; cbn [scan_op length]; [lia|].
  inversion Hl as [|? ? Hc Hl']; subst. rewrite Hc, IH by assumption. lia.
Qed.

Lemma scan_op_found (pre : bytes) (op : ascii) (post : bytes) : forall j : nat,
  Forall (fun c => is_op c = false) pre -> is_op op = true ->
  scan_op (pre ++ op :: post) j = (j + length pre)%nat.
Proof.
  induction pre as [|c pre IH]; intros j Hpre Hop; cbn [app scan_op length].
  - rewrite Hop. lia.
  - inversion Hpre as [|? ? Hc Hpre']; subst.
    rewrite Hc, IH by assumption. lia.
Qed.

Lemma is_op_not_detail (c : ascii) : is_op c = true -> is_detail c = false.
Proof.
  destruct c as [[] [] [] [] [] [] [] []]; vm_compute; intros H;
    try discriminate H; reflexivity.
Qed.

Lemma firstn_length_app {A : Type} (pre post : list A) :
  firstn (length pre) (pre ++ post) = pre.
Proof.
  rewrite firstn_app, Nat.sub_diag, firstn_all. cbn [firstn].
  apply app_nil_r.
Qed.

Lemma skipn_length_app {A : Type} (pre post : list A) :
  skipn (length pre) (pre ++ post) = post.
Proof.
  rewrite skipn_app, Nat.sub_diag, skipn_all. reflexivity.
Qed.

Lemma skipn_S_length_app {A : Type} (pre : list A) (x : A) (post : list A) :
  skipn (S (length pre)) (pre ++ x :: post) = post.
Proof.
  induction pre as [|y pre IH]; [reflexivity|exact IH].
Qed.

Lemma nth_length_app {A : Type} (pre : list A) (x : A) (post : list A) (d : A) :
  nth (length pre) (pre ++ x :: post) d = x.
Proof.
  induction pre as [|y pre IH]; [reflexivity|exact IH].
Qed.

(** The loop body on a line with an operator, in terms of its two parts. *)
Lemma replay_line_header {W : Type} `{Window W} (new pre : bytes) (op : ascii)
    (post : bytes) (st : state W) :
  Forall (fun c => is_op c = false) pre -> is_op op = true ->
  is_detail (hd op pre) = false ->
  replay_line new (pre ++ op :: post) st =
  let st1 := log_to st (snd (parseSpan pre) ++ snd (parseSpan post)) in
  if (fst (fst (parseSpan pre)) =? 0) || (fst (fst (parseSpan post)) =? 0)
  then Some (Next, st1)
  else
    match apply_hunk op new
            (fst (fst (parseSpan pre))) (snd (fst (parseSpan pre)))
            (fst (fst (parseSpan post))) (snd (fst (parseSpan post))) st1 with
    | None => None
    | Some st2 => Some (Next, st2)
    end.
Proof.
  intros Hpre Hop Hhd. unfold replay_line.
  assert (Hscan : scan_op (pre ++ op :: post) 0 = length pre)
    by (rewrite scan_op_found by assumption; reflexivity).
  destruct (pre ++ op :: post) as [|c0 rest] eqn:Eline.
  { destruct pre; discriminate Eline. }
  assert (Hc0 : is_detail c0 = false).
  { destruct pre as [|p pre']; cbn [app hd] in *; inversion Eline; subst.
    - apply is_op_not_detail. exact Hop.
    - exact Hhd. }
  rewrite Hc0, Hscan. rewrite <- Eline.
  replace ((length (pre ++ op :: post) <=? length pre)%nat) with false
    by (symmetry; apply Nat.leb_gt; rewrite length_app; cbn [length]; lia).
  rewrite firstn_length_app, skipn_S_length_app, nth_length_app.
  destruct (parseSpan pre) as [[os oe] l1].
  destruct (parseSpan post) as [[ns ne] l2].
  reflexivity.
Qed.

Lemma digit_span_byte (c : ascii) : is_digit c = true -> span_byte c.
Proof.
  intros Hc. destruct (is_digit_not_special c Hc) as (H1 & _ & _ & _ & H3).
  split; assumption.
Qed.

Lemma itoa_bytes (n : Z) : Forall span_byte (itoa n).
Proof.
  unfold itoa. destruct (n <? 0).
  - constructor; [split; reflexivity|].
    eapply Forall_impl; [|apply digits_of_digits]. apply digit_span_byte.
  - eapply Forall_impl; [|apply digits_of_digits]. apply digit_span_byte.
Qed.

Lemma itoa_no_comma (n : Z) :
  Forall (fun c => ascii_eqb c ","%char = false) (itoa n).
Proof.
  assert (Hd : forall c, is_digit c = true -> ascii_eqb c ","%char = false).
  { intros c Hc. apply (is_digit_not_special c Hc). }
  unfold itoa. destruct (n <? 0).
  - constructor; [reflexivity|].
    eapply Forall_impl; [|apply digits_of_digits]. exact Hd.
  - eapply Forall_impl; [|apply digits_of_digits]. exact Hd.
Qed.

Lemma itoa_head (n : Z) (d : ascii) :
  0 <= n -> itoa n <> [] /\ is_detail (hd d (itoa n)) = false.
Proof.
  intros Hn. unfold itoa.
  replace (n <? 0) with false by (symmetry; apply Z.ltb_ge; exact Hn).
  pose proof (digits_of_nonempty (Z.to_nat (Z.log2 n)) n) as Hne.
  pose proof (digits_of_digits (Z.to_nat (Z.log2 n)) n) as Hall.
  destruct (digits_of (Z.to_nat (Z.log2 n)) n []) as [|c ds]; [contradiction|].
  split; [discriminate|]. inversion Hall as [|? ? Hc _]; subst.
  apply (is_digit_not_special c Hc).
Qed.

Lemma strings_Index_from_none (s : bytes) (sep : ascii) : forall i : Z,
  Forall (fun c => ascii_eqb c sep = false) s ->
  strings_Index_from s sep i = -1.
Proof.
  induction s as [|c s IH]; intros i Hs; cbn [strings_Index_from]; [reflexivity|].
  inversion Hs as [|? ? Hc Hs']; subst. rewrite Hc. apply IH. exact Hs'.
Qed.

Lemma strings_Index_from_found (pre : bytes) (sep : ascii) (post : bytes) :
  forall i : Z,
  Forall (fun c => ascii_eqb c sep = false) pre ->
  strings_Index_from (pre ++ sep :: post) sep i = i + Z.of_nat (length pre).
Proof.
  induction pre as [|c pre IH]; intros i Hpre; cbn [app strings_Index_from length].
  - rewrite ascii_eqb_refl. lia.
  - inversion Hpre as [|? ? Hc Hpre']; subst. rewrite Hc, IH by assumption. lia.
Qed.

Lemma parseSpan_single (n : Z) :
  is_int n -> parseSpan (itoa n) = ((n, n), []).
Proof.
  intros Hn. unfold parseSpan, strings_Index.
  rewrite strings_Index_from_none by apply itoa_no_comma.
  cbn [Z.ltb Z.compare]. rewrite Atoi_itoa by assumption. reflexivity.
Qed.

Lemma parseSpan_pair (n m : Z) :
  is_int n -> is_int m ->
  parseSpan (itoa n ++ ","%char :: itoa m) = ((n, m), []).
Proof.
  intros Hn Hm. unfold parseSpan, strings_Index.
  rewrite strings_Index_from_found by apply itoa_no_comma.
  replace (0 + Z.of_nat (length (itoa n)) <? 0) with false
    by (symmetry; apply Z.ltb_ge; lia).
  replace (Z.to_nat (0 + Z.of_nat (length (itoa n)))) with (length (itoa n))
    by lia.
  replace (Z.to_nat (0 + Z.of_nat (length (itoa n)) + 1))
    with (S (length (itoa n))) by lia.
  rewrite firstn_length_app, skipn_S_length_app.
  rewrite !Atoi_itoa by assumption. reflexivity.
Qed.

(** A printed span is parsed back to the range it prints. *)
Lemma parseSpan_render (r : Z * Z) :
  is_int (fst r) -> is_int (snd r) -> parseSpan (render_span r) = (r, []).
Proof.
  destruct r as [s e]. cbn [fst snd]. intros Hs He.
  unfold render_span. cbn [fst snd].
  destruct (Z.eqb_spec s e) as [->|Hne].
  - apply parseSpan_single. exact He.
  - cbn [app]. apply parseSpan_pair; assumption.
Qed.

Lemma render_span_bytes (r : Z * Z) : Forall span_byte (render_span r).
Proof.
  unfold render_span. destruct (fst r =? snd r); [apply itoa_bytes|].
  apply Forall_app. split; [apply itoa_bytes|].
  cbn [app]. constructor; [split; reflexivity|apply itoa_bytes].
Qed.

Lemma render_span_head (r : Z * Z) (d : ascii) :
  0 <= fst r -> is_detail (hd d (render_span r)) = false.
Proof.
  intros Hr. unfold render_span.
  destruct (itoa_head (fst r) d Hr) as [Hne Hd].
  destruct (fst r =? snd r); [exact Hd|].
  destruct (itoa (fst r)) as [|c cs]; [contradiction|exact Hd].
Qed.

Lemma kind_op_is_op (k : kind) : is_op (kind_op k) = true.
Proof. destruct k; reflexivity. Qed.

(** With findLines total, the switch is the table of the specification. *)
Lemma apply_hunk_spec {W : Type} `{Window W} (new : bytes) (h : hunk)
    (st : state W) :
  apply_hunk (kind_op (h_kind h)) new
    (fst (oldRange h)) (snd (oldRange h)) (fst (newRange h)) (snd (newRange h)) st
  = Some (apply_spec new h st).
Proof.
  unfold apply_hunk, apply_spec, select, payload.
  destruct (h_kind h); cbn [kind_op];
    repeat match goal with
    | |- context [ascii_eqb ?a ?b] =>
        let v := eval vm_compute in (ascii_eqb a b) in
        change (ascii_eqb a b) with v
    end; cbv iota;
    match goal with
    | |- context [win_Addr ?w ?a] => destruct (win_Addr w a) as [w1 [err|]]
    end; try reflexivity; rewrite findLines_total; reflexivity.
Qed.

(** The loop body on the header of a hunk: the hunk is applied and the
    loop goes on. *)
Lemma replay_line_hunk {W : Type} `{Window W} (new : bytes) (h : hunk)
    (st : state W) :
  hunk_ok h -> replay_line new (header h) st = Some (Next, apply_spec new h st).
Proof.
  intros (Hos & Hns & I1 & I2 & I3 & I4). unfold header. cbn [app].
  rewrite replay_line_header.
  - rewrite !parseSpan_render by assumption. cbn [fst snd app].
    replace (fst (oldRange h) =? 0) with false by (symmetry; apply Z.eqb_neq; lia).
    replace (fst (newRange h) =? 0) with false
      by (symmetry; apply Z.eqb_neq; exact Hns).
    cbn [orb]. unfold log_to. rewrite app_nil_r.
    destruct st as [w lg]. cbn [win logged].
    rewrite apply_hunk_spec. reflexivity.
  - eapply Forall_impl; [|apply render_span_bytes]. intros c (Hc & _). exact Hc.
  - apply kind_op_is_op.
  - apply render_span_head. lia.
Qed.

(** ** The loop, line by line *)

Lemma firstn_S_nth {A : Type} (d : A) : forall (i : nat) (l : list A),
  (i < length l)%nat -> firstn (S i) l = firstn i l ++ [nth i l d].
Proof.
  induction i as [|i IH]; intros [|x l] Hi; cbn [length] in Hi; try lia.
  - reflexivity.
  - cbn [firstn nth app]. rewrite <- IH by lia. reflexivity.
Qed.

(** Counting [i] down from [n - 1] reads the first [n] lines backwards. *)
Lemma replay_rev_eq {W : Type} `{Window W} (new : bytes) (lines : list bytes) :
  forall (n : nat) (st : state W),
  (n <= length lines)%nat ->
  replay new lines n st
    = option_map snd (replay_rev new (rev (firstn n lines)) st).
Proof.
  induction n as [|i IH]; intros st Hn; [reflexivity|].
  rewrite (firstn_S_nth ([] : bytes)) by lia. rewrite rev_unit.
  cbn [replay replay_rev].
  destruct (replay_line new (nth i lines []) st) as [[[|] st']|];
    try reflexivity.
  apply IH. lia.
Qed.

Lemma replay_all {W : Type} `{Window W} (new : bytes) (lines : list bytes)
    (st : state W) :
  replay new lines (length lines) st
    = option_map snd (replay_rev new (rev lines) st).
Proof.
  rewrite replay_rev_eq by lia. rewrite firstn_all. reflexivity.
Qed.

Lemma replay_rev_app {W : Type} `{Window W} (new : bytes) (r1 r2 : list bytes) :
  forall st : state W,
  replay_rev new (r1 ++ r2) st =
  match replay_rev new r1 st with
  | Some (Next, st') => replay_rev new r2 st'
  | other => other
  end.
Proof.
  induction r1 as [|line r1 IH]; intros st; [reflexivity|].
  cbn [app replay_rev].
  destruct (replay_line new line st) as [[[|] st']|]; try reflexivity.
  apply IH.
Qed.

(** ** What the recording window receives *)

Lemma hunk_commands_select (h : hunk) (new : bytes) :
  hunk_commands h (payload new h)
    = [CmdAddr (select h); CmdWrite "data" (payload new h)].
Proof. unfold hunk_commands, select, payload. destruct (h_kind h); reflexivity. Qed.

Lemma apply_spec_recorder (new : bytes) (h : hunk) (st : state recorder) :
  apply_spec new h st
    = mkState (win st ++ hunk_commands h (payload new h)) (logged st).
Proof.
  rewrite hunk_commands_select. unfold apply_spec. cbn.
  rewrite <- app_assoc. reflexivity.
Qed.

Lemma scan_op_stops (l : bytes) (d : ascii) : forall j : nat,
  (scan_op l j < j + length l)%nat ->
  is_op (nth (scan_op l j - j) l d) = true.
Proof.
  induction l as [|c l IH]; intros j Hj; cbn [scan_op length] in *; [lia|].
  destruct (is_op c) eqn:Ec.
  - rewrite Nat.sub_diag. exact Ec.
  - assert (Hge : (S j <= scan_op l (S j))%nat).
    { clear. revert j. induction l as [|x l IHl]; intros j; cbn [scan_op]; [lia|].
      destruct (is_op x); [lia|]. specialize (IHl (S j)). lia. }
    replace (scan_op l (S j) - j)%nat with (S (scan_op l (S j) - S j)) by lia.
    cbn [nth]. apply IH. lia.
Qed.

Lemma is_op_kind (c : ascii) :
  is_op c = true -> exists k, op_kind c = Some k /\ c = kind_op k.
Proof.
  unfold is_op, op_kind. intros Hc.
  destruct (ascii_eqb c "a"%char) eqn:Ea.
  { exists Add. split; [reflexivity|]. apply ascii_eqb_eq. exact Ea. }
  destruct (ascii_eqb c "c"%char) eqn:Ec.
  { exists Change. split; [reflexivity|]. apply ascii_eqb_eq. exact Ec. }
  destruct (ascii_eqb c "d"%char) eqn:Ed.
  { exists Delete. split; [reflexivity|]. apply ascii_eqb_eq. exact Ed. }
  discriminate Hc.
Qed.

(** One iteration against the recording window. *)
Lemma replay_line_recorder (new line : bytes) (st : state recorder) :
  replay_line new line st
  = Some (if unparsable line then Break else Next,
          mkState (win st ++ line_commands new line)
                  (logged st ++ line_reports line)).
Proof.
  destruct st as [w lg].
  unfold replay_line, unparsable, line_commands, line_reports, line_hunk,
    unparsable, is_header, old_span, new_span.
  destruct line as [|c0 rest]; cbn [win logged].
  { rewrite !app_nil_r. reflexivity. }
  set (line := c0 :: rest). fold line.
  destruct (is_detail c0); cbn [negb andb].
  { rewrite !app_nil_r. reflexivity. }
  destruct (Nat.leb_spec (length line) (scan_op line 0)) as [Hle|Hlt].
  { replace (scan_op line 0 <? length line)%nat with false
      by (symmetry; apply Nat.ltb_ge; exact Hle).
    rewrite app_nil_r. reflexivity. }
  replace (scan_op line 0 <? length line)%nat with true
    by (symmetry; apply Nat.ltb_lt; exact Hlt).
  pose proof (scan_op_stops line "000"%char 0 ltac:(lia)) as Hop.
  rewrite Nat.sub_0_r in Hop.
  destruct (is_op_kind _ Hop) as (k & Hk & Hc).
  rewrite Hk, Hc. cbn [option_map].
  destruct (parseSpan (firstn (scan_op line 0) line)) as [[os oe] l1].
  destruct (parseSpan (skipn (S (scan_op line 0)) line)) as [[ns ne] l2].
  cbn [fst snd]. unfold log_to. cbn [win logged].
  destruct ((os =? 0) || (ns =? 0)).
  { rewrite app_nil_r. reflexivity. }
  pose proof (apply_hunk_spec new (mkHunk k (os, oe) (ns, ne))
                (mkState w (lg ++ l1 ++ l2))) as Happly.
  cbn [h_kind oldRange newRange fst snd] in Happly. rewrite Happly.
  rewrite apply_spec_recorder. reflexivity.
Qed.

(** The whole loop against the recording window: it never fails, and the
    window and the log get what the lines read give, in reading order. *)
Lemma replay_rev_recorder (new : bytes) (rlines : list bytes) :
  forall st : state recorder,
  exists c : control,
    replay_rev new rlines st
    = Some (c, mkState
                 (win st ++ flat_map (line_commands new) (read_until_break rlines))
                 (logged st ++ flat_map line_reports (read_until_break rlines))).
Proof.
  induction rlines as [|line rest IH]; intros st.
  - exists Next. cbn. rewrite !app_nil_r. destruct st; reflexivity.
  - cbn [replay_rev read_until_break]. rewrite replay_line_recorder.
    destruct (unparsable line).
    + exists Break. cbn [flat_map]. rewrite !app_nil_r. reflexivity.
    + destruct (IH (mkState (win st ++ line_commands new line)
                      (logged st ++ line_reports line))) as [c Hc].
      exists c. rewrite Hc. cbn [win logged flat_map].
      rewrite <- !app_assoc. reflexivity.
Qed.

(** reformat against the recording window, when it gets to the loop. *)
Lemma reformat_recorder (sys : Sys recorder) (new : slice) (w : recorder)
    (old : bytes) :
  sys_Open sys = inl w -> sys_ReadFile sys = inl old ->
  is_nil new || bytes_Equal old new = false ->
  sys_TempFile sys = None -> sys_tmp_Write sys = None ->
  let rlines := read_until_break (rev (strings_Split (sys_diff sys) nl)) in
  reformat sys new
  = Some (Some (w ++ [CmdWrite "ctl" (str "mark"); CmdWrite "ctl" (str "nomark")]
                  ++ flat_map (line_commands (slice_bytes new)) rlines
                  ++ [CmdCloseFiles]),
          flat_map line_reports rlines).
Proof.
  intros Hopen Hread Hnew Htmp Hwrite rlines.
  unfold reformat, reformat_edits. rewrite Hopen, Hread, Hnew, Htmp, Hwrite.
  rewrite replay_all.
  match goal with
  | |- context [replay_rev ?n ?r ?st] =>
      destruct (replay_rev_recorder n r st) as [c Hc]; rewrite Hc
  end.
  cbn [option_map snd close_window win logged win_CloseFiles win_Write
       recorder_Window fst app].
  fold rlines. rewrite <- !app_assoc. reflexivity.
Qed.

(** Without the loop, the window is only closed. *)
Lemma reformat_paths (sys : Sys recorder) (new : slice) (w : recorder)
    (cmds : list command) (lg : list log_entry) :
  sys_Open sys = inl w -> reformat sys new = Some (Some cmds, lg) ->
  cmds = w ++ [CmdCloseFiles] \/
  cmds = w ++ [CmdWrite "ctl" (str "mark"); CmdWrite "ctl" (str "nomark")]
           ++ flat_map (line_commands (slice_bytes new))
                (read_until_break (rev (strings_Split (sys_diff sys) nl)))
           ++ [CmdCloseFiles].
Proof.
  intros Hopen Hrun.
  destruct (sys_ReadFile sys) as [old|e] eqn:Hread.
  2:{ unfold reformat in Hrun. rewrite Hopen, Hread in Hrun.
      inversion Hrun. left. reflexivity. }
  destruct (is_nil new || bytes_Equal old new) eqn:Hnew.
  { unfold reformat, reformat_edits in Hrun.
    rewrite Hopen, Hread, Hnew in Hrun. inversion Hrun. left. reflexivity. }
  destruct (sys_TempFile sys) as [e|] eqn:Htmp.
  { unfold reformat, reformat_edits in Hrun.
    rewrite Hopen, Hread, Hnew, Htmp in Hrun. inversion Hrun. left. reflexivity. }
  destruct (sys_tmp_Write sys) as [e|] eqn:Hwrite.
  { unfold reformat, reformat_edits in Hrun.
    rewrite Hopen, Hread, Hnew, Htmp, Hwrite in Hrun.
    inversion Hrun. left. reflexivity. }
  rewrite (reformat_recorder sys new w old) in Hrun by assumption.
  inversion Hrun. right. reflexivity.
Qed.

(** ** Order of replay *)

Lemma addr_starts_app (a b : list command) :
  addr_starts (a ++ b) = addr_starts a ++ addr_starts b.
Proof. unfold addr_starts. apply flat_map_app. Qed.

Lemma addr_starts_lines (new : bytes) (ls : list bytes) :
  addr_starts (flat_map (line_commands new) ls) = map old_start (text_hunks ls).
Proof.
  induction ls as [|l ls IH]; [reflexivity|].
  cbn [flat_map]. unfold text_hunks in *. cbn [flat_map].
  rewrite addr_starts_app, map_app, IH. f_equal.
  unfold line_commands. destruct (line_hunk l) as [h|]; [|reflexivity].
  rewrite hunk_commands_select. unfold select, old_start.
  destruct (h_kind h); reflexivity.
Qed.


Lemma text_hunks_app (a b : list bytes) :
  text_hunks (a ++ b) = text_hunks a ++ text_hunks b.
Proof. unfold text_hunks. apply flat_map_app. Qed.

(** The hunks applied are the first of the hunks in reading order. *)
Lemma text_hunks_read (rlines : list bytes) :
  exists unread : list hunk,
    text_hunks rlines = text_hunks (read_until_break rlines) ++ unread.
Proof.
  induction rlines as [|l r IH].
  - exists []. reflexivity.
  - cbn [read_until_break]. destruct (unparsable l) eqn:El.
    + exists (text_hunks r). change (l :: r) with ([l] ++ r).
      rewrite text_hunks_app. reflexivity.
    + destruct IH as [unread IH]. exists unread.
      change (l :: r) with ([l] ++ r).
      change (l :: read_until_break r) with ([l] ++ read_until_break r).
      rewrite !text_hunks_app, IH, app_assoc. reflexivity.
Qed.

Lemma text_hunks_rev (lines : list bytes) :
  text_hunks (rev lines) = rev (text_hunks lines).
Proof.
  induction lines as [|l ls IH]; [reflexivity|].
  cbn [rev]. change (l :: ls) with ([l] ++ ls).
  rewrite !text_hunks_app, rev_app_distr, IH. f_equal.
  unfold text_hunks. cbn [flat_map]. destruct (line_hunk l); reflexivity.
Qed.

Lemma StronglySorted_snoc {A : Type} (R : A -> A -> Prop) (m : list A) (a : A) :
  StronglySorted R m -> Forall (fun x => R x a) m -> StronglySorted R (m ++ [a]).
Proof.
  induction 1 as [|x m Hm IH Hx]; intros Hall; cbn [app].
  - constructor; constructor.
  - inversion Hall as [|? ? Hxa Hall']; subst. constructor.
    + apply IH. exact Hall'.
    + apply Forall_app. split; [exact Hx|]. constructor; [exact Hxa|constructor].
Qed.

Lemma StronglySorted_rev {A : Type} (R : A -> A -> Prop) (l : list A) :
  StronglySorted R l -> StronglySorted (fun a b => R b a) (rev l).
Proof.
  induction 1 as [|a l Hl IH Ha]; cbn [rev]; [constructor|].
  apply StronglySorted_snoc; [exact IH|]. apply Forall_rev. exact Ha.
Qed.

Lemma Sorted_prefix {A : Type} (R : A -> A -> Prop) (a b : list A) :
  Sorted R (a ++ b) -> Sorted R a.
Proof.
  induction a as [|x a IH]; intros Hs; [constructor|].
  cbn [app] in Hs. inversion Hs as [|? ? Hs' Hhd]; subst. constructor.
  - apply IH. exact Hs'.
  - destruct a as [|y a]; [constructor|].
    inversion Hhd; subst. constructor. assumption.
Qed.

Lemma ascending_rev_descending (l : list Z) :
  Sorted Z.le l -> Sorted (fun a b => b <= a) (rev l).
Proof.
  intros Hl. apply StronglySorted_Sorted. apply StronglySorted_rev.
  apply Sorted_StronglySorted; [|exact Hl].
  intros x y z. apply Z.le_trans.
Qed.

(** C2. Replay order: when the hunks of the diff script come in ascending
    order of [oldRange.start], as a diff tool emits them, the addresses
    reformat sends to the window come in descending order of it: each
    hunk applied starts at or above the line of the one applied before. *)
Theorem replay_order_descending (sys : Sys recorder) (new : slice)
    (cmds : list command) (lg : list log_entry) :
  sys_Open sys = inl [] ->
  reformat sys new = Some (Some cmds, lg) ->
  Sorted Z.le (map old_start (text_hunks (strings_Split (sys_diff sys) nl))) ->
  Sorted (fun later earlier => earlier <= later) (addr_starts cmds).
Proof.
  intros Hopen Hrun Hasc.
  destruct (reformat_paths sys new [] cmds lg Hopen Hrun) as [->| ->].
  - constructor.
  - rewrite !addr_starts_app, addr_starts_lines.
    cbn [addr_starts flat_map app]. rewrite app_nil_r.
    destruct (text_hunks_read (rev (strings_Split (sys_diff sys) nl)))
      as [unread Hread].
    apply (Sorted_prefix _ _ (map old_start unread)).
    rewrite <- map_app, <- Hread, text_hunks_rev, map_rev.
    apply (ascending_rev_descending _ Hasc).
Qed.

Lemma replay_order_descending_witness :
  exists cmds lg,
    reformat (sys_ok ([] : recorder) two_hunks_old two_hunks_diff) two_hunks_new
      = Some (Some cmds, lg) /\
    addr_starts cmds = [5; 2] /\
    Sorted (fun later earlier => earlier <= later) (addr_starts cmds).
Proof.
  eexists. eexists. split; [vm_compute; reflexivity|].
  split; [reflexivity|].
  eapply (replay_order_descending
            (sys_ok ([] : recorder) two_hunks_old two_hunks_diff) two_hunks_new).
  - reflexivity.
  - vm_compute. reflexivity.
  - vm_compute. repeat constructor; discriminate.
Defined.

(** ** One line, any window *)

Lemma replay_next {W : Type} `{Window W} (new : bytes) (lines : list bytes)
    (i : nat) (st st' : state W) :
  replay_line new (nth i lines []) st = Some (Next, st') ->
  replay new lines (S i) st = replay new lines i st'.
Proof. intros Hline. cbn [replay]. rewrite Hline. reflexivity. Qed.

Lemma replay_break {W : Type} `{Window W} (new : bytes) (lines : list bytes)
    (i : nat) (st st' : state W) :
  replay_line new (nth i lines []) st = Some (Break, st') ->
  replay new lines (S i) st = Some st'.
Proof. intros Hline. cbn [replay]. rewrite Hline. reflexivity. Qed.

(** C4. A header whose parsed old or new span starts at 0 is skipped:
    the window is sent nothing, and the loop goes on with the line before
    it. [0a1,2] is such a header. *)
Theorem zero_span_skipped {W : Type} `{Window W} (new pre : bytes) (op : ascii)
    (post : bytes) (st : state W) (lines : list bytes) (i : nat) :
  Forall (fun c => is_op c = false) pre -> is_op op = true ->
  is_detail (hd op pre) = false ->
  fst (fst (parseSpan pre)) = 0 \/ fst (fst (parseSpan post)) = 0 ->
  nth i lines [] = pre ++ op :: post ->
  let st' := log_to st (snd (parseSpan pre) ++ snd (parseSpan post)) in
  replay_line new (pre ++ op :: post) st = Some (Next, st') /\
  win st' = win st /\
  replay new lines (S i) st = replay new lines i st'.
Proof.
  intros Hpre Hop Hhd Hzero Hnth st'.
  assert (Hline : replay_line new (pre ++ op :: post) st = Some (Next, st')).
  { rewrite replay_line_header by assumption. cbv zeta.
    replace ((fst (fst (parseSpan pre)) =? 0) || (fst (fst (parseSpan post)) =? 0))
      with true; [reflexivity|].
    symmetry. apply orb_true_iff.
    destruct Hzero as [Hz|Hz]; [left|right]; apply Z.eqb_eq; exact Hz. }
  split; [exact Hline|]. split; [reflexivity|].
  apply replay_next. rewrite Hnth. exact Hline.
Qed.

Lemma zero_span_skipped_witness :
  let new := unlines [str "x"; str "y"; str "b"] in
  let lines := [str "0a1,2"; str "> x"; str "> y"] in
  let st := mkState ([] : recorder) [] in
  str "0a1,2" = str "0" ++ "a"%char :: str "1,2" /\
  replay_line new (str "0" ++ "a"%char :: str "1,2") st = Some (Next, st) /\
  win st = [] /\
  replay new lines 1 st = replay new lines 0 st.
Proof.
  cbv zeta. split; [reflexivity|].
  apply (zero_span_skipped (unlines [str "x"; str "y"; str "b"]) (str "0")
           "a"%char (str "1,2") (mkState ([] : recorder) [])
           [str "0a1,2"; str "> x"; str "> y"] 0).
  - repeat constructor.
  - reflexivity.
  - reflexivity.
  - left. vm_compute. reflexivity.
  - reflexivity.
Defined.

(** ** Malformed headers *)









(** ** One hunk *)

(** C6. The commands of one hunk, the new content being the lines [ls]
    (and whatever follows them): an Add hunk addresses the empty range
    after line [oldRange.start] and writes the lines [newRange.start] to
    [newRange.end] of the new content, each with its terminator; a Change
    hunk addresses the lines of [oldRange] and writes those lines; a
    Delete hunk addresses the lines of [oldRange] and writes nothing. *)
Theorem hunk_command_mapping (ls : list bytes) (tail : bytes) (h : hunk)
    (st : state recorder) :
  hunk_ok h -> Forall is_line ls ->
  (h_kind h <> Delete ->
   1 <= fst (newRange h) <= snd (newRange h) /\ snd (newRange h) <= llen ls) ->
  let new := unlines ls ++ tail in
  let text :=
    unlines (firstn (Z.to_nat (snd (newRange h) - fst (newRange h) + 1))
               (skipn (Z.to_nat (fst (newRange h) - 1)) ls)) in
  replay_line new (header h) st
  = Some (Next,
          mkState
            (win st ++
             match h_kind h with
             | Add =>
                 [CmdAddr (AddrAfterLine (fst (oldRange h)));
                  CmdWrite "data" text]
             | Change =>
                 [CmdAddr (AddrLines (fst (oldRange h)) (snd (oldRange h)));
                  CmdWrite "data" text]
             | Delete =>
                 [CmdAddr (AddrLines (fst (oldRange h)) (snd (oldRange h)));
                  CmdWrite "data" []]
             end)
            (logged st)).
Proof.
  intros Hok Hls Hrange new text.
  assert (Htext : h_kind h <> Delete ->
            findLines_list new (fst (newRange h)) (snd (newRange h)) = text).
  { intros Hkind. destruct (Hrange Hkind) as [Hse Hlen].
    destruct Hok as (_ & _ & _ & _ & _ & [_ Hmax]).
    destruct (findLines_lines ls tail _ _ Hls Hse Hlen Hmax) as [_ Hfind].
    fold new in Hfind. rewrite findLines_total in Hfind.
    injection Hfind as Hfind. exact Hfind. }
  rewrite replay_line_hunk by exact Hok. rewrite apply_spec_recorder.
  unfold hunk_commands, payload.
  destruct (h_kind h); try rewrite Htext by discriminate; reflexivity.
Qed.

Lemma hunk_command_mapping_witness :
  let ls := [str "a"; str "b"; str "c"; str "d"] in
  let h := mkHunk Change (2, 2) (3, 4) in
  header h = str "2c3,4" /\
  replay_line (unlines ls ++ str "rest") (header h) (mkState ([] : recorder) [])
  = Some (Next,
          mkState [CmdAddr (AddrLines 2 2);
                   CmdWrite "data" (str "c" ++ [nl] ++ str "d" ++ [nl])] []).
Proof.
  cbv zeta. split; [reflexivity|].
  apply (hunk_command_mapping [str "a"; str "b"; str "c"; str "d"] (str "rest")
           (mkHunk Change (2, 2) (3, 4)) (mkState ([] : recorder) [])).
  - unfold hunk_ok, is_int, int_min, int_max. cbn [oldRange newRange fst snd].
    lia.
  - repeat constructor; unfold is_line; cbn [str list_ascii_of_string In];
      intros H; repeat (destruct H as [H|H]; [discriminate H|]); exact H.
  - intros _. cbn [newRange fst snd]. unfold llen. cbn [length]. lia.
Defined.

(** ** Window errors *)

(** C7, as stated, fails: the write of this hunk fails, and nothing is
    logged. *)
Lemma write_error_counterexample :
  let old := unlines [str "a"; str "b"] in
  let new := mk_slice (unlines [str "a"; str "x"]) in
  let diff := unlines [str "2c2"; str "< b"; str "---"; str "> x"] in
  snd (win_Write (mkFailing []) "data" (str "x" ++ [nl]))
    = Some "write failed"%string /\
  exists w,
    reformat (sys_ok (mkFailing []) old diff) new = Some (Some w, []) /\
    In (CmdWrite "data" (str "x" ++ [nl])) (received w).
Proof.
  cbv zeta. split; [reflexivity|]. eexists. split; [vm_compute; reflexivity|].
  vm_compute. tauto.
Qed.

(** C7, amended. For every hunk and every window: an address the window
    rejects is logged, the hunk is dropped without a write, and the loop
    goes on with the next line; when the address is accepted the text is
    written, whatever the write answers is dropped without a log line,
    and the loop goes on with the next line. *)
Theorem hunk_failure_isolated {W : Type} `{Window W} (new : bytes) (h : hunk)
    (st : state W) (lines : list bytes) (i : nat) :
  hunk_ok h -> nth i lines [] = header h ->
  let after :=
    match win_Addr (win st) (select h) with
    | (w1, Some err) => mkState w1 (logged st ++ [LogPrint err])
    | (w1, None) =>
        mkState (fst (win_Write w1 "data" (payload new h))) (logged st)
    end in
  replay_line new (header h) st = Some (Next, after) /\
  replay new lines (S i) st = replay new lines i after.
Proof.
  intros Hok Hnth after.
  assert (Hline : replay_line new (header h) st = Some (Next, after)).
  { rewrite replay_line_hunk by exact Hok. reflexivity. }
  split; [exact Hline|]. apply replay_next. rewrite Hnth. exact Hline.
Qed.

Lemma hunk_failure_isolated_witness :
  let new := unlines [str "a"; str "x"] in
  let h := mkHunk Change (2, 2) (2, 2) in
  let st := mkState (mkFailing []) [] in
  let lines := [str "2c2"; str "< b"; str "---"; str "> x"] in
  let after :=
    mkState (mkFailing [CmdAddr (AddrLines 2 2); CmdWrite "data" (str "x" ++ [nl])])
      [] in
  replay_line new (header h) st = Some (Next, after) /\
  replay new lines 1 st = replay new lines 0 after.
Proof.
  cbv zeta.
  assert (Hok : hunk_ok (mkHunk Change (2, 2) (2, 2))).
  { unfold hunk_ok, is_int, int_min, int_max. cbn [oldRange newRange fst snd].
    lia. }
  exact (hunk_failure_isolated (unlines [str "a"; str "x"])
           (mkHunk Change (2, 2) (2, 2)) (mkState (mkFailing []) [])
           [str "2c2"; str "< b"; str "---"; str "> x"] 0 Hok eq_refl).
Defined.

(** ** The script as text *)

Lemma is_line_bytes (l : bytes) :
  is_line l <-> Forall (fun c => ascii_eqb c nl = false) l.
Proof.
  unfold is_line. rewrite Forall_forall. split.
  - intros Hl c Hc. apply ascii_eqb_neq. intros ->. apply Hl. exact Hc.
  - intros Hall Hin. specialize (Hall nl Hin).
    rewrite ascii_eqb_refl in Hall. discriminate Hall.
Qed.

Lemma strings_Split_line (l : bytes) (rest : bytes) :
  is_line l ->
  strings_Split (l ++ nl :: rest) nl = l :: strings_Split rest nl.
Proof.
  intros Hl. apply is_line_bytes in Hl.
  induction Hl as [|c l Hc Hl IH]; cbn [app strings_Split].
  - rewrite ascii_eqb_refl. reflexivity.
  - rewrite Hc, IH. reflexivity.
Qed.

(** Splitting a text of terminated lines gives the lines and one empty
    piece after the last terminator. *)
Lemma strings_Split_unlines (ls : list bytes) :
  Forall is_line ls -> strings_Split (unlines ls) nl = ls ++ [[]].
Proof.
  induction 1 as [|l ls Hl Hls IH]; [reflexivity|].
  rewrite unlines_cons, strings_Split_line by exact Hl.
  rewrite IH. reflexivity.
Qed.

Lemma header_is_line (h : hunk) : is_line (header h).
Proof.
  apply is_line_bytes. unfold header. apply Forall_app. split.
  - eapply Forall_impl; [|apply render_span_bytes]. intros c [_ Hc]. exact Hc.
  - cbn [app]. constructor.
    + destruct (h_kind h); reflexivity.
    + eapply Forall_impl; [|apply render_span_bytes]. intros c [_ Hc]. exact Hc.
Qed.

Lemma detail_is_line (mark : string) (l : bytes) :
  is_line (str mark) -> is_line l -> is_line (detail mark l).
Proof.
  unfold is_line, detail. intros Hm Hl Hin. apply in_app_or in Hin. tauto.
Qed.

Lemma mark_is_line_lt : is_line (str "< ").
Proof. unfold is_line. vm_compute. intuition discriminate. Qed.

Lemma mark_is_line_gt : is_line (str "> ").
Proof. unfold is_line. vm_compute. intuition discriminate. Qed.

Lemma details_are_lines (mark : string) (ls : list bytes) :
  is_line (str mark) -> Forall is_line ls -> Forall is_line (map (detail mark) ls).
Proof.
  intros Hm Hls. apply Forall_map.
  eapply Forall_impl; [|exact Hls]. intros l Hl. apply detail_is_line; assumption.
Qed.

Lemma edit_lines_are_lines (o n : Z) (e : edit) :
  edit_ok e -> Forall is_line (edit_lines o n e).
Proof.
  intros (Hold & Hnew & _). unfold edit_lines.
  destruct (edit_hunk o n e) as [h|]; [|constructor].
  constructor; [apply header_is_line|].
  destruct e as [ls|news|olds|olds news]; cbn [edit_old edit_new] in *;
    repeat (apply Forall_app; split);
    try (apply details_are_lines; [apply mark_is_line_lt|assumption]);
    try (apply details_are_lines; [apply mark_is_line_gt|assumption]).
  constructor; [|constructor]. unfold is_line. vm_compute. intuition discriminate.
Qed.

Lemma script_lines_are_lines (es : list edit) : forall o n : Z,
  Forall edit_ok es -> Forall is_line (script_lines o n es).
Proof.
  induction es as [|e es IH]; intros o n Hes; [constructor|].
  inversion Hes as [|? ? He Hes']; subst. cbn [script_lines].
  apply Forall_app. split; [apply edit_lines_are_lines; exact He|].
  apply IH. exact Hes'.
Qed.

Lemma replay_rev_details {W : Type} `{Window W} (new : bytes)
    (ds : list bytes) (st : state W) :
  Forall is_detail_line ds -> replay_rev new ds st = Some (Next, st).
Proof.
  induction 1 as [|d ds Hd Hds IH]; [reflexivity|].
  cbn [replay_rev]. unfold replay_line. destruct d as [|c d]; [exact IH|].
  cbn [is_detail_line] in Hd. rewrite Hd. exact IH.
Qed.

Lemma details_are_details (mark : string) (ls : list bytes) :
  is_detail_line (str mark) -> str mark <> [] ->
  Forall is_detail_line (map (detail mark) ls).
Proof.
  intros Hm Hne. apply Forall_map. apply Forall_forall. intros l _.
  unfold detail. destruct (str mark) as [|c m]; [contradiction|exact Hm].
Qed.

(** The lines of an edit, read backwards: its detail lines, then its
    header. *)
Lemma edit_lines_rev (o n : Z) (e : edit) (h : hunk) :
  edit_hunk o n e = Some h ->
  exists ds, rev (edit_lines o n e) = ds ++ [header h] /\ Forall is_detail_line ds.
Proof.
  intros Hh. unfold edit_lines. rewrite Hh. cbn [rev].
  eexists. split; [reflexivity|]. apply Forall_rev.
  assert (Hlt : Forall is_detail_line (map (detail "< ") (edit_old e)))
    by (apply details_are_details; [reflexivity|discriminate]).
  assert (Hgt : Forall is_detail_line (map (detail "> ") (edit_new e)))
    by (apply details_are_details; [reflexivity|discriminate]).
  destruct e as [ls|news|olds|olds news]; cbn [edit_old edit_new] in *;
    repeat (apply Forall_app; split); try assumption.
  constructor; [reflexivity|constructor].
Qed.

(** ** The reference window on terminated lines *)

Lemma line_end_line (l : bytes) : forall (rest : bytes) (n : nat),
  is_line l ->
  line_end (l ++ nl :: rest) (S n)
    = option_map (fun q => (length l + 1 + q)%nat) (line_end rest n).
Proof.
  induction l as [|c l IH]; intros rest n Hl.
  - cbn [app line_end length]. rewrite ascii_eqb_refl.
    destruct (line_end rest n); reflexivity.
  - cbn [app line_end length].
    assert (Hc : ascii_eqb c nl = false).
    { apply ascii_eqb_neq. intros ->. apply Hl. left. reflexivity. }
    rewrite Hc, IH by (intros Hin; apply Hl; right; exact Hin).
    destruct (line_end rest n); reflexivity.
Qed.

Lemma line_end_unlines (ls : list bytes) : forall (n : nat) (tail : bytes),
  Forall is_line ls -> (n <= length ls)%nat ->
  line_end (unlines ls ++ tail) n = Some (length (unlines (firstn n ls))).
Proof.
  induction ls as [|l ls IH]; intros n tail Hls Hn.
  - cbn [length] in Hn. replace n with O by lia.
    destruct (unlines [] ++ tail); reflexivity.
  - destruct n as [|n].
    { destruct (unlines (l :: ls) ++ tail); reflexivity. }
    inversion Hls as [|? ? Hl Hls']; subst. cbn [length] in Hn.
    rewrite unlines_cons, <- app_assoc. cbn [app].
    rewrite line_end_line by exact Hl.
    rewrite IH by (assumption || lia). cbn [option_map firstn].
    rewrite unlines_cons, length_app. cbn [length]. f_equal. lia.
Qed.

Lemma Forall_app_l {A : Type} (P : A -> Prop) (a b : list A) :
  Forall P (a ++ b) -> Forall P a.
Proof. intros H. apply Forall_app in H. tauto. Qed.

Lemma Forall_app_r {A : Type} (P : A -> Prop) (a b : list A) :
  Forall P (a ++ b) -> Forall P b.
Proof. intros H. apply Forall_app in H. tauto. Qed.

(** Addressing the lines [olds] that come after the lines [before], and
    writing [data] over them. *)
Lemma buffer_replace_lines (before olds rest : list bytes) (data : bytes)
    (dot : nat * nat) :
  Forall is_line (before ++ olds ++ rest) ->
  let b := mkBuffer (unlines (before ++ olds ++ rest)) dot in
  let n := llen before + 1 in
  let m := llen before + llen olds in
  exists dot1 dot2,
    win_Addr b (AddrLines n m)
      = (mkBuffer (unlines (before ++ olds ++ rest)) dot1, None) /\
    fst (win_Write (mkBuffer (unlines (before ++ olds ++ rest)) dot1) "data" data)
      = mkBuffer (unlines before ++ data ++ unlines rest) dot2.
Proof.
  intros Hls b n m. unfold llen in *.
  set (txt := unlines (before ++ olds ++ rest)).
  assert (Hq0 : line_end txt (Z.to_nat n - 1) = Some (length (unlines before))).
  { unfold txt. rewrite <- (app_nil_r (unlines _)).
    rewrite line_end_unlines by (assumption || (rewrite length_app; unfold n; lia)).
    replace (Z.to_nat n - 1)%nat with (length before) by (unfold n; lia).
    rewrite firstn_length_app. reflexivity. }
  assert (Hq1 : line_end txt (Z.to_nat m)
                = Some (length (unlines (before ++ olds)))).
  { unfold txt. rewrite <- (app_nil_r (unlines _)).
    rewrite line_end_unlines
      by (assumption || (rewrite !length_app; unfold m; lia)).
    replace (Z.to_nat m) with (length (before ++ olds))
      by (rewrite length_app; unfold m; lia).
    rewrite app_assoc, firstn_length_app. reflexivity. }
  exists (length (unlines before), length (unlines (before ++ olds))).
  eexists. split.
  - subst b. cbn [win_Addr buffer_Window body resolve]. fold txt.
    replace ((n <? 0) || (m <? 0)) with false
      by (symmetry; apply orb_false_iff; split; apply Z.ltb_ge; unfold n, m; lia).
    rewrite Hq0, Hq1.
    replace (length (unlines before) <=? length (unlines (before ++ olds)))%nat
      with true; [reflexivity|].
    symmetry. apply Nat.leb_le. rewrite unlines_app, length_app. lia.
  - cbn [win_Write buffer_Window fst snd body addr String.eqb Ascii.eqb Bool.eqb].
    f_equal. unfold txt.
    rewrite (unlines_app before), firstn_length_app.
    replace (unlines before ++ unlines (olds ++ rest))
      with (unlines (before ++ olds) ++ unlines rest)
      by (rewrite !unlines_app, app_assoc; reflexivity).
    rewrite skipn_length_app. reflexivity.
Qed.

(** Addressing the empty range after the lines [before], and writing
    [data] there. *)
Lemma buffer_insert_lines (before rest : list bytes) (data : bytes)
    (dot : nat * nat) :
  Forall is_line (before ++ rest) ->
  let b := mkBuffer (unlines (before ++ rest)) dot in
  exists dot1 dot2,
    win_Addr b (AddrAfterLine (llen before))
      = (mkBuffer (unlines (before ++ rest)) dot1, None) /\
    fst (win_Write (mkBuffer (unlines (before ++ rest)) dot1) "data" data)
      = mkBuffer (unlines before ++ data ++ unlines rest) dot2.
Proof.
  intros Hls b. unfold llen.
  set (txt := unlines (before ++ rest)).
  assert (Hq : line_end txt (Z.to_nat (Z.of_nat (length before)))
               = Some (length (unlines before))).
  { unfold txt. rewrite <- (app_nil_r (unlines _)).
    rewrite line_end_unlines by (assumption || (rewrite length_app; lia)).
    rewrite Nat2Z.id, firstn_length_app. reflexivity. }
  exists (length (unlines before), length (unlines before)).
  eexists. split.
  - subst b. cbn [win_Addr buffer_Window body resolve]. fold txt.
    replace (Z.of_nat (length before) <? 0) with false
      by (symmetry; apply Z.ltb_ge; lia).
    rewrite Hq. reflexivity.
  - cbn [win_Write buffer_Window fst snd body addr String.eqb Ascii.eqb Bool.eqb].
    f_equal. unfold txt.
    rewrite (unlines_app before), firstn_length_app, skipn_length_app.
    reflexivity.
Qed.

(** ** Replaying an edit script on the reference window *)

Lemma llen_app (a b : list bytes) : llen (a ++ b) = llen a + llen b.
Proof. unfold llen. rewrite length_app. lia. Qed.

Lemma llen_nonneg (a : list bytes) : 0 <= llen a.
Proof. unfold llen. lia. Qed.

Lemma llen_pos (a : list bytes) : a <> [] -> 1 <= llen a.
Proof. unfold llen. destruct a; [contradiction|]. cbn [length]. lia. Qed.

(** The text findLines takes from the new content for the new lines of an
    edit. *)
Lemma payload_lines (nbefore news nrest : list bytes) :
  Forall is_line (nbefore ++ news ++ nrest) -> news <> [] ->
  llen nbefore + llen news <= int_max ->
  findLines_list (unlines (nbefore ++ news ++ nrest))
    (llen nbefore + 1) (llen nbefore + llen news) = unlines news.
Proof.
  intros Hls Hne Hmax. pose proof (llen_pos news Hne) as Hpos.
  pose proof (llen_nonneg nbefore) as Hnb.
  destruct (findLines_lines (nbefore ++ news ++ nrest) []
              (llen nbefore + 1) (llen nbefore + llen news)) as [_ Hfind];
    try assumption; try lia.
  { rewrite !llen_app. pose proof (llen_nonneg nrest). lia. }
  rewrite app_nil_r, findLines_total in Hfind. inversion Hfind as [Heq].
  rewrite Heq. f_equal.
  replace (Z.to_nat (llen nbefore + 1 - 1)) with (length nbefore)
    by (unfold llen; lia).
  replace (Z.to_nat (llen nbefore + llen news - (llen nbefore + 1) + 1))
    with (length news) by (unfold llen; lia).
  rewrite skipn_length_app, firstn_length_app. reflexivity.
Qed.

Lemma edit_hunk_ok (o n : Z) (e : edit) (h : hunk) :
  edit_hunk o n e = Some h -> edit_ok e -> 0 <= o -> 0 <= n ->
  nonzero_starts h ->
  o + llen (edit_old e) <= int_max -> n + llen (edit_new e) <= int_max ->
  hunk_ok h.
Proof.
  intros Hh (_ & _ & Hne) Ho Hn [Hz1 Hz2] Hmo Hmn.
  assert (Hmin : int_min <= 0) by (unfold int_min; lia).
  unfold hunk_ok, is_int.
  destruct e as [ls|news|olds|olds news]; cbn [edit_hunk edit_old edit_new] in *;
    inversion Hh; subst; cbn [oldRange newRange fst snd] in *;
    try (pose proof (llen_pos news ltac:(tauto)));
    try (pose proof (llen_pos olds ltac:(tauto)));
    change (llen []) with 0 in *; lia.
Qed.

Lemma edits_old_lines (es : list edit) :
  Forall edit_ok es -> Forall is_line (old_lines es).
Proof.
  induction 1 as [|e es (Ho & _) _ IH]; [constructor|].
  cbn [old_lines flat_map]. apply Forall_app. split; assumption.
Qed.

Lemma edits_new_lines (es : list edit) :
  Forall edit_ok es -> Forall is_line (new_lines es).
Proof.
  induction 1 as [|e es (_ & Hn & _) _ IH]; [constructor|].
  cbn [new_lines flat_map]. apply Forall_app. split; assumption.
Qed.

(** One hunk of an edit script against the reference window: the old
    lines of the edit give way to its new lines. *)
Lemma apply_edit_buffer (e : edit) (h : hunk)
    (before rest nbefore nrest : list bytes) (dot : nat * nat)
    (lg : list log_entry) :
  edit_hunk (llen before) (llen nbefore) e = Some h -> edit_ok e ->
  Forall is_line (before ++ edit_old e ++ rest) ->
  Forall is_line (nbefore ++ edit_new e ++ nrest) ->
  llen nbefore + llen (edit_new e) <= int_max ->
  exists dot',
    apply_spec (unlines (nbefore ++ edit_new e ++ nrest)) h
      (mkState (mkBuffer (unlines (before ++ edit_old e ++ rest)) dot) lg)
    = mkState (mkBuffer (unlines (before ++ edit_new e ++ rest)) dot') lg.
Proof.
  intros Hh (_ & _ & Hne) Hold Hnew Hmax. unfold apply_spec, select, payload.
  destruct e as [ls|news|olds|olds news]; cbn [edit_hunk edit_old edit_new] in *;
    inversion Hh; subst; cbn [h_kind oldRange newRange fst snd win logged].
  - destruct (buffer_insert_lines before rest (unlines news) dot Hold)
      as (d1 & d2 & Haddr & Hwrite).
    cbn [app]. rewrite Haddr, payload_lines by assumption.
    rewrite Hwrite. exists d2. rewrite !unlines_app. reflexivity.
  - destruct (buffer_replace_lines before olds rest [] dot Hold)
      as (d1 & d2 & Haddr & Hwrite).
    cbv zeta in Haddr. rewrite Haddr, Hwrite. exists d2.
    cbn [app]. rewrite !unlines_app. reflexivity.
  - destruct Hne as [_ Hne].
    destruct (buffer_replace_lines before olds rest (unlines news) dot Hold)
      as (d1 & d2 & Haddr & Hwrite).
    cbv zeta in Haddr. rewrite Haddr, payload_lines by assumption.
    rewrite Hwrite. exists d2. rewrite !unlines_app. reflexivity.
Qed.

(** The loop over the lines of a script, read backwards, turns the old
    lines of its edits into their new lines, from the last edit to the
    first. *)
Lemma replay_script (new : bytes) (es : list edit) :
  forall (before nbefore : list bytes) (dot : nat * nat) (lg : list log_entry),
  new = unlines (nbefore ++ new_lines es) ->
  Forall edit_ok es -> Forall is_line before -> Forall is_line nbefore ->
  Forall nonzero_starts (script_hunks (llen before) (llen nbefore) es) ->
  llen before + llen (old_lines es) <= int_max ->
  llen nbefore + llen (new_lines es) <= int_max ->
  exists dot',
    replay_rev new (rev (script_lines (llen before) (llen nbefore) es))
      (mkState (mkBuffer (unlines (before ++ old_lines es)) dot) lg)
    = Some (Next, mkState (mkBuffer (unlines (before ++ new_lines es)) dot') lg).
Proof.
  induction es as [|e es IH];
    intros before nbefore dot lg Hnew Hes Hb Hnb Hnz Hmo Hmn.
  - exists dot. reflexivity.
  - pose proof (Forall_inv Hes) as He. pose proof (Forall_inv_tail Hes) as Hes'.
    cbn [script_lines script_hunks old_lines new_lines flat_map] in *.
    fold (old_lines es) in *. fold (new_lines es) in *.
    rewrite !llen_app in Hmo, Hmn.
    pose proof (llen_nonneg (old_lines es)) as Hpo.
    pose proof (llen_nonneg (new_lines es)) as Hpn.
    pose proof (llen_nonneg before) as Hpb.
    pose proof (llen_nonneg nbefore) as Hpnb.
    pose proof He as (Heo & Hen & Hne).
    apply Forall_app in Hnz. destruct Hnz as [Hnz1 Hnz2].
    rewrite rev_app_distr, replay_rev_app.
    rewrite <- !llen_app in Hnz2 |- *.
    destruct (IH (before ++ edit_old e) (nbefore ++ edit_new e) dot lg)
      as [dot1 Hrest]; try assumption.
    { rewrite <- app_assoc. exact Hnew. }
    { apply Forall_app. split; assumption. }
    { apply Forall_app. split; assumption. }
    { rewrite llen_app. lia. }
    { rewrite llen_app. lia. }
    rewrite <- !app_assoc in Hrest. rewrite Hrest. clear Hrest.
    destruct (edit_hunk (llen before) (llen nbefore) e) as [h|] eqn:Hh.
    + destruct (edit_lines_rev _ _ _ _ Hh) as (ds & Hrev & Hds).
      rewrite Hrev, replay_rev_app, replay_rev_details by exact Hds.
      cbn [replay_rev]. rewrite replay_line_hunk.
      2:{ pose proof (Forall_inv Hnz1) as Hnzh.
          eapply edit_hunk_ok; try eassumption; lia. }
      destruct (apply_edit_buffer e h before (new_lines es) nbefore
                  (new_lines es) dot1 lg Hh He) as [dot2 Happly].
      { repeat (apply Forall_app; split); try assumption.
        apply edits_new_lines. exact Hes'. }
      { repeat (apply Forall_app; split); try assumption.
        apply edits_new_lines. exact Hes'. }
      { lia. }
      rewrite <- Hnew in Happly. rewrite Happly. exists dot2. reflexivity.
    + unfold edit_lines. rewrite Hh. cbn [rev replay_rev].
      destruct e as [ls|news|olds|olds news]; try discriminate Hh.
      cbn [edit_old edit_new]. exists dot1. reflexivity.
Qed.

Lemma bytes_eqb_eq (a : bytes) : forall b : bytes, bytes_eqb a b = true -> a = b.
Proof.
  induction a as [|x a IH]; intros [|y b] H; cbn [bytes_eqb] in H;
    try discriminate H; [reflexivity|].
  apply andb_true_iff in H. destruct H as [Hxy Hab].
  apply ascii_eqb_eq in Hxy. rewrite Hxy, (IH b Hab). reflexivity.
Qed.

(** ** Round trip *)

Ltac solve_lines :=
  repeat match goal with
         | |- Forall _ _ => constructor
         | |- _ /\ _ => split
         | |- is_line _ => unfold is_line; vm_compute; intuition discriminate
         | |- _ <> _ => discriminate
         | |- True => exact I
         end.

(** C1, as stated, fails: a line inserted before the first line ([0a1])
    and a first line deleted ([1d0]) are left out of the replay, and the
    window keeps the old content. *)
Lemma round_trip_counterexample :
  (let es := [Insert [str "z"]; Keep [str "a"]] in
   let old := unlines (old_lines es) in
   let new := unlines (new_lines es) in
   Forall edit_ok es /\
   diff_text es = unlines [str "0a1"; str "> z"] /\
   exists b,
     reformat (sys_ok (mkBuffer old (0, 0)%nat) old (diff_text es)) (mk_slice new)
       = Some (Some b, []) /\
     body b = old /\ body b <> new) /\
  (let es := [Remove [str "a"]; Keep [str "b"]] in
   let old := unlines (old_lines es) in
   let new := unlines (new_lines es) in
   Forall edit_ok es /\
   diff_text es = unlines [str "1d0"; str "< a"] /\
   exists b,
     reformat (sys_ok (mkBuffer old (0, 0)%nat) old (diff_text es)) (mk_slice new)
       = Some (Some b, []) /\
     body b = old /\ body b <> new).
Proof.
  cbv zeta. split.
  - split; [unfold edit_ok; cbn [edit_old edit_new]; solve_lines|].
    split; [vm_compute; reflexivity|].
    eexists. split; [vm_compute; reflexivity|].
    split; [vm_compute; reflexivity|vm_compute; discriminate].
  - split; [unfold edit_ok; cbn [edit_old edit_new]; solve_lines|].
    split; [vm_compute; reflexivity|].
    eexists. split; [vm_compute; reflexivity|].
    split; [vm_compute; reflexivity|vm_compute; discriminate].
Qed.

(** C1, amended. For every pair of contents that differ by line
    insertions, deletions and replacements, none of them an insertion
    before the first old line or a deletion before the first new line
    (no hunk with a span that starts at 0): replaying the script of reformat
    on a window that holds the old content leaves it with exactly the new
    content, and nothing is logged. *)
Theorem replay_round_trip (es : list edit) (dot : nat * nat) :
  Forall edit_ok es -> no_zero_start es ->
  llen (old_lines es) <= int_max -> llen (new_lines es) <= int_max ->
  let old := unlines (old_lines es) in
  let new := unlines (new_lines es) in
  exists b : buffer,
    reformat (sys_ok (mkBuffer old dot) old (diff_text es)) (mk_slice new)
      = Some (Some b, []) /\
    body b = new.
Proof.
  intros Hes Hnz Hmo Hmn old new.
  unfold reformat, sys_ok, reformat_edits.
  cbn [sys_Open sys_ReadFile sys_TempFile sys_tmp_Write sys_diff is_nil orb
       slice_bytes].
  destruct (bytes_Equal old (mk_slice new)) eqn:Heq.
  { exists (mkBuffer old dot). split; [reflexivity|].
    apply bytes_eqb_eq. exact Heq. }
  cbn [win logged win_Write buffer_Window fst String.eqb Ascii.eqb Bool.eqb].
  unfold diff_text.
  rewrite strings_Split_unlines by (apply script_lines_are_lines; exact Hes).
  rewrite replay_all, rev_unit. cbn [replay_rev replay_line].
  destruct (replay_script new es [] [] dot [] eq_refl Hes
              (Forall_nil _) (Forall_nil _)) as [dot' Hrun].
  { exact Hnz. }
  { change (llen []) with 0. lia. }
  { change (llen []) with 0. lia. }
  change (llen []) with 0 in Hrun. cbn [app] in Hrun.
  exists (mkBuffer new dot'). split; [|reflexivity].
  fold old in Hrun. unfold bytes in *. rewrite Hrun. reflexivity.
Qed.

Lemma replay_round_trip_witness :
  let es := [Keep [str "a"]; Replace [str "b"] [str "x"; str "y"];
             Keep [str "c"]; Remove [str "d"]; Keep [str "e"];
             Insert [str "f"]] in
  diff_text es = unlines [str "2c2,3"; str "< b"; str "---"; str "> x"; str "> y";
                          str "4d4"; str "< d"; str "5a6"; str "> f"] /\
  exists b : buffer,
    reformat (sys_ok (mkBuffer (unlines (old_lines es)) (0, 0)%nat)
                (unlines (old_lines es)) (diff_text es))
      (mk_slice (unlines (new_lines es)))
      = Some (Some b, []) /\
    body b = unlines (new_lines es).
Proof.
  cbv zeta. split; [vm_compute; reflexivity|].
  apply (replay_round_trip
           [Keep [str "a"]; Replace [str "b"] [str "x"; str "y"];
            Keep [str "c"]; Remove [str "d"]; Keep [str "e"];
            Insert [str "f"]] (0, 0)%nat).
  - unfold edit_ok; cbn [edit_old edit_new]; solve_lines.
  - unfold no_zero_start. vm_compute. repeat constructor; discriminate.
  - vm_compute. discriminate.
  - vm_compute. discriminate.
Defined.

(** ** Further properties *)

Lemma apply_hunk_total {W : Type} `{Window W} (op : ascii) (new : bytes)
    (oldStart oldEnd newStart newEnd : Z) (st : state W) :
  exists st', apply_hunk op new oldStart oldEnd newStart newEnd st = Some st'.
Proof.
  unfold apply_hunk. rewrite findLines_total.
  destruct (ascii_eqb op "a"%char).
  { destruct (win_Addr (win st) (AddrAfterLine oldStart)) as [w1 [err|]];
      eexists; reflexivity. }
  destruct (ascii_eqb op "c"%char).
  { destruct (win_Addr (win st) (AddrLines oldStart oldEnd)) as [w1 [err|]];
      eexists; reflexivity. }
  destruct (ascii_eqb op "d"%char).
  { destruct (win_Addr (win st) (AddrLines oldStart oldEnd)) as [w1 [err|]];
      eexists; reflexivity. }
  eexists; reflexivity.
Qed.

Lemma replay_line_total {W : Type} `{Window W} (new line : bytes) (st : state W) :
  exists c st', replay_line new line st = Some (c, st').
Proof.
  unfold replay_line. destruct line as [|c0 rest]; [eexists; eexists; reflexivity|].
  destruct (is_detail c0); [eexists; eexists; reflexivity|].
  destruct (length (c0 :: rest) <=? scan_op (c0 :: rest) 0)%nat;
    [eexists; eexists; reflexivity|].
  destruct (parseSpan (firstn _ _)) as [[os oe] l1].
  destruct (parseSpan (skipn _ _)) as [[ns ne] l2].
  destruct ((os =? 0) || (ns =? 0)); [eexists; eexists; reflexivity|].
  match goal with
  | |- context [apply_hunk ?op ?n ?a ?b ?c ?d ?s] =>
      destruct (apply_hunk_total op n a b c d s) as [st2 Hst2]; rewrite Hst2
  end.
  eexists; eexists; reflexivity.
Qed.

Lemma replay_total {W : Type} `{Window W} (new : bytes) (lines : list bytes) :
  forall (n : nat) (st : state W), exists st', replay new lines n st = Some st'.
Proof.
  induction n as [|i IH]; intros st; [eexists; reflexivity|].
  cbn [replay].
  destruct (replay_line_total new (nth i lines []) st) as (c & st1 & Hline).
  rewrite Hline. destruct c; [apply IH|eexists; reflexivity].
Qed.

(** parseSpan reads a single number [N] as the range [[N,N]] and two
    numbers [N,M] as the range [[N,M]], and logs nothing. *)
Theorem parseSpan_reads_spans (n m : Z) :
  is_int n -> is_int m ->
  parseSpan (itoa n) = ((n, n), []) /\
  parseSpan (itoa n ++ ","%char :: itoa m) = ((n, m), []).
Proof.
  intros Hn Hm. split; [apply parseSpan_single|apply parseSpan_pair]; assumption.
Qed.

Lemma parseSpan_reads_spans_witness :
  itoa 12 = str "12" /\ itoa 34 = str "34" /\
  parseSpan (itoa 12) = ((12, 12), []) /\
  parseSpan (itoa 12 ++ ","%char :: itoa 34) = ((12, 34), []).
Proof.
  split; [reflexivity|]. split; [reflexivity|].
  apply (parseSpan_reads_spans 12 34); unfold is_int, int_min, int_max; lia.
Defined.

(** A span that is no number is logged and read as [(0, 0)]. *)
Theorem parseSpan_reports_failure :
  parseSpan (str "2,y") = ((0, 0), [CannotParseSpan (str "2,y")]) /\
  parseSpan (str "x") = ((0, 0), [CannotParseSpan (str "x")]) /\
  parseSpan [] = ((0, 0), [CannotParseSpan []]).
Proof. repeat split; reflexivity. Qed.

(** The example scenarios of the specification. Old [a\nb\nc\n], new
    [a\nx\nc\n], script [2c2 / < b / --- / > x]: one Change hunk with both
    ranges [(2,2)], whose replay selects line 2 and writes [x\n]. Old
    [a\nb\n], new [a\nb\nc\n], script [2a3 / > c]: one Add hunk, an
    insertion after line 2 that writes [c\n]. Both leave the reference
    window with the new content. *)
Theorem example_scenarios :
  (let old := unlines [str "a"; str "b"; str "c"] in
   let new := unlines [str "a"; str "x"; str "c"] in
   let diff := str "2c2" ++ [nl] ++ str "< b" ++ [nl] ++ str "---" ++ [nl]
                 ++ str "> x" in
   text_hunks (strings_Split diff nl) = [mkHunk Change (2, 2) (2, 2)] /\
   reformat (sys_ok ([] : recorder) old diff) (mk_slice new)
   = Some (Some [CmdWrite "ctl" (str "mark"); CmdWrite "ctl" (str "nomark");
                 CmdAddr (AddrLines 2 2); CmdWrite "data" (str "x" ++ [nl]);
                 CmdCloseFiles], []) /\
   exists b,
     reformat (sys_ok (mkBuffer old (0, 0)%nat) old diff) (mk_slice new)
       = Some (Some b, []) /\ body b = new) /\
  (let old := unlines [str "a"; str "b"] in
   let new := unlines [str "a"; str "b"; str "c"] in
   let diff := str "2a3" ++ [nl] ++ str "> c" in
   text_hunks (strings_Split diff nl) = [mkHunk Add (2, 2) (3, 3)] /\
   reformat (sys_ok ([] : recorder) old diff) (mk_slice new)
   = Some (Some [CmdWrite "ctl" (str "mark"); CmdWrite "ctl" (str "nomark");
                 CmdAddr (AddrAfterLine 2); CmdWrite "data" (str "c" ++ [nl]);
                 CmdCloseFiles], []) /\
   exists b,
     reformat (sys_ok (mkBuffer old (0, 0)%nat) old diff) (mk_slice new)
       = Some (Some b, []) /\ body b = new).
Proof.
  cbv zeta. split; (split; [vm_compute; reflexivity|]);
    (split; [vm_compute; reflexivity|]);
    eexists; (split; [vm_compute; reflexivity|]); vm_compute; reflexivity.
Qed.

(** The window is released once on every path that opened it, after
    everything else it is sent; before any hunk it is sent the two [ctl]
    messages [mark] and [nomark], once per call. *)
Theorem window_closed_once (sys : Sys recorder) (new : slice) (w : recorder)
    (cmds : list command) (lg : list log_entry) :
  sys_Open sys = inl w -> reformat sys new = Some (Some cmds, lg) ->
  exists hunks : list command,
    (cmds = w ++ [CmdCloseFiles] \/
     cmds = w ++ [CmdWrite "ctl" (str "mark"); CmdWrite "ctl" (str "nomark")]
              ++ hunks ++ [CmdCloseFiles]) /\
    Forall (fun c => match c with
                     | CmdAddr _ => True
                     | CmdWrite file _ => file = "data"%string
                     | CmdCloseFiles => False
                     end) hunks.
Proof.
  intros Hopen Hrun.
  destruct (reformat_paths sys new w cmds lg Hopen Hrun) as [->| ->].
  - exists []. split; [left; reflexivity|constructor].
  - eexists. split; [right; reflexivity|].
    apply Forall_forall. intros c Hc. apply in_flat_map in Hc.
    destruct Hc as (line & _ & Hc). unfold line_commands in Hc.
    destruct (line_hunk line) as [h|]; [|contradiction].
    rewrite hunk_commands_select in Hc. cbn [In] in Hc.
    destruct Hc as [<-|[<-|[]]]; [exact I|reflexivity].
Qed.

Lemma window_closed_once_witness :
  exists hunks : list command,
    ([CmdWrite "ctl" (str "mark"); CmdWrite "ctl" (str "nomark");
      CmdAddr (AddrLines 5 5); CmdWrite "data" [];
      CmdAddr (AddrLines 2 2); CmdWrite "data" (str "x" ++ [nl]);
      CmdCloseFiles] = [] ++ [CmdCloseFiles] \/
     [CmdWrite "ctl" (str "mark"); CmdWrite "ctl" (str "nomark");
      CmdAddr (AddrLines 5 5); CmdWrite "data" [];
      CmdAddr (AddrLines 2 2); CmdWrite "data" (str "x" ++ [nl]);
      CmdCloseFiles]
     = [] ++ [CmdWrite "ctl" (str "mark"); CmdWrite "ctl" (str "nomark")]
          ++ hunks ++ [CmdCloseFiles]) /\
    Forall (fun c => match c with
                     | CmdAddr _ => True
                     | CmdWrite file _ => file = "data"%string
                     | CmdCloseFiles => False
                     end) hunks.
Proof.
  apply (window_closed_once
           (sys_ok ([] : recorder) two_hunks_old two_hunks_diff) two_hunks_new
           [] _ []).
  - reflexivity.
  - vm_compute. reflexivity.
Defined.

Lemma replay_line_zero {W : Type} `{Window W} (new : bytes) (h : hunk)
    (st : state W) :
  0 <= fst (oldRange h) ->
  is_int (fst (oldRange h)) -> is_int (snd (oldRange h)) ->
  is_int (fst (newRange h)) -> is_int (snd (newRange h)) ->
  fst (oldRange h) = 0 \/ fst (newRange h) = 0 ->
  replay_line new (header h) st = Some (Next, st).
Proof.
  intros Hpos I1 I2 I3 I4 Hzero. unfold header. cbn [app].
  rewrite replay_line_header.
  - rewrite !parseSpan_render by assumption. cbn [fst snd app].
    replace ((fst (oldRange h) =? 0) || (fst (newRange h) =? 0)) with true.
    + unfold log_to. rewrite app_nil_r. destruct st; reflexivity.
    + symmetry. apply orb_true_iff.
      destruct Hzero as [Hz|Hz]; [left|right]; apply Z.eqb_eq; exact Hz.
  - eapply Forall_impl; [|apply render_span_bytes]. intros c (Hc & _). exact Hc.
  - apply kind_op_is_op.
  - apply render_span_head. exact Hpos.
Qed.

(** A script that only removes lines, everything up to and including its
    last new line: every header has a new span that starts at 0, and the
    loop passes them all by. *)
Lemma replay_removals {W : Type} `{Window W} (new : bytes) (es : list edit) :
  forall (o : Z) (st : state W),
  0 <= o -> Forall edit_ok es -> new_lines es = [] ->
  o + llen (old_lines es) <= int_max ->
  replay_rev new (rev (script_lines o 0 es)) st = Some (Next, st).
Proof.
  induction es as [|e es IH]; intros o st Ho Hes Hnew Hmax; [reflexivity|].
  pose proof (Forall_inv Hes) as He. pose proof (Forall_inv_tail Hes) as Hes'.
  cbn [new_lines old_lines flat_map] in Hnew, Hmax.
  fold (new_lines es) in Hnew. fold (old_lines es) in Hmax.
  apply app_eq_nil in Hnew. destruct Hnew as [Hen Hnew].
  rewrite llen_app in Hmax.
  pose proof (llen_nonneg (edit_old e)) as Hpe.
  pose proof (llen_nonneg (old_lines es)) as Hpo.
  cbn [script_lines]. rewrite Hen. change (0 + llen []) with 0.
  rewrite rev_app_distr, replay_rev_app.
  rewrite IH by (assumption || lia).
  destruct He as (_ & _ & Hne).
  destruct e as [ls|news|olds|olds news]; cbn [edit_new edit_old] in *.
  - subst ls. reflexivity.
  - contradiction.
  - destruct (edit_lines_rev o 0 (Remove olds) _ eq_refl) as (ds & Hrev & Hds).
    rewrite Hrev, replay_rev_app, replay_rev_details by exact Hds.
    cbn [replay_rev]. pose proof (llen_pos olds Hne) as Hlen.
    assert (Hmin : int_min <= 0) by (unfold int_min; lia).
    assert (Hmx : 0 <= int_max) by (unfold int_max; lia).
    rewrite replay_line_zero; cbn [oldRange newRange fst snd];
      unfold is_int; try lia. reflexivity.
  - destruct Hne as [_ Hne]. contradiction.
Qed.

(** ** No-op *)

(** C5. When the new content is nil ([new == nil], no content) or equal
    byte for byte to the old content, reformat sends the window no address
    and no write: it returns with the window only closed and nothing
    logged. When the new content is empty but not nil, a slice of length
    0 that [new == nil] does not catch, and the diff tool prints the
    script of the old lines against no lines, the window is sent at most
    the two [ctl] messages before it is closed: every hunk is a deletion
    whose new span starts at 0, and no address and no text reaches the
    body. Both variants of reformat, any window. *)
Theorem reformat_noop {W : Type} `{Window W} (sys : Sys W) (new : slice) (w : W)
    (old : bytes) :
  sys_Open sys = inl w -> sys_ReadFile sys = inl old ->
  (is_nil new = true \/ bytes_Equal old new = true ->
   reformat sys new = Some (Some (win_CloseFiles w), []) /\
   reformat_fmtFn sys (inl new) = Some (Some (win_CloseFiles w), [])) /\
  (forall es : list edit,
   new = mk_slice [] ->
   old = unlines (old_lines es) -> sys_diff sys = diff_text es ->
   Forall edit_ok es -> new_lines es = [] -> llen (old_lines es) <= int_max ->
   sys_TempFile sys = None -> sys_tmp_Write sys = None ->
   exists w' : W,
     reformat sys new = Some (Some (win_CloseFiles w'), []) /\
     reformat_fmtFn sys (inl new) = Some (Some (win_CloseFiles w'), []) /\
     (w' = w \/
      w' = fst (win_Write (fst (win_Write w "ctl" (str "mark"))) "ctl"
                  (str "nomark")))).
Proof.
  intros Hopen Hread. split.
  - intros Hnoop.
    assert (Hc : is_nil new || bytes_Equal old new = true).
    { apply orb_true_iff. exact Hnoop. }
    unfold reformat, reformat_fmtFn, reformat_edits.
    rewrite Hopen, Hread, Hc. split; reflexivity.
  - intros es Hnew Hold Hdiff Hes Hnone Hmax Htmp Hwrite.
    unfold reformat, reformat_fmtFn, reformat_edits.
    rewrite Hopen, Hread, Htmp, Hwrite, Hdiff, Hnew.
    cbn [is_nil orb slice_bytes].
    destruct (bytes_Equal old (mk_slice [])).
    { exists w. split; [reflexivity|]. split; [reflexivity|]. left. reflexivity. }
    unfold diff_text.
    rewrite strings_Split_unlines by (apply script_lines_are_lines; exact Hes).
    rewrite replay_all, rev_unit. cbn [replay_rev replay_line].
    rewrite replay_removals by (assumption || lia).
    cbn [option_map snd close_window win logged].
    eexists. split; [reflexivity|]. split; [reflexivity|]. right. reflexivity.
Qed.

Lemma reformat_noop_witness :
  let text := unlines [str "a"; str "b"] in
  let diff := unlines [str "1c1"; str "< a"; str "---"; str "> x"] in
  (reformat (sys_ok ([] : recorder) text diff) (mk_slice text)
     = Some (Some [CmdCloseFiles], []) /\
   reformat_fmtFn (sys_ok ([] : recorder) text diff) (inl (mk_slice text))
     = Some (Some [CmdCloseFiles], [])) /\
  (reformat (sys_ok ([] : recorder) text diff) nil_slice
     = Some (Some [CmdCloseFiles], []) /\
   reformat_fmtFn (sys_ok ([] : recorder) text diff) (inl nil_slice)
     = Some (Some [CmdCloseFiles], [])) /\
  (let es := [Remove [str "a"; str "b"]] in
   diff_text es = unlines [str "1,2d0"; str "< a"; str "< b"] /\
   exists w' : recorder,
     reformat (sys_ok [] text (diff_text es)) (mk_slice [])
       = Some (Some (win_CloseFiles w'), []) /\
     reformat_fmtFn (sys_ok [] text (diff_text es)) (inl (mk_slice []))
       = Some (Some (win_CloseFiles w'), []) /\
     (w' = [] \/
      w' = [CmdWrite "ctl" (str "mark"); CmdWrite "ctl" (str "nomark")])).
Proof.
  cbv zeta. split; [|split].
  - exact (proj1 (reformat_noop
             (sys_ok ([] : recorder) (unlines [str "a"; str "b"])
                (unlines [str "1c1"; str "< a"; str "---"; str "> x"]))
             (mk_slice (unlines [str "a"; str "b"])) []
             (unlines [str "a"; str "b"]) eq_refl eq_refl) (or_intror eq_refl)).
  - exact (proj1 (reformat_noop
             (sys_ok ([] : recorder) (unlines [str "a"; str "b"])
                (unlines [str "1c1"; str "< a"; str "---"; str "> x"]))
             nil_slice []
             (unlines [str "a"; str "b"]) eq_refl eq_refl) (or_introl eq_refl)).
  - split; [vm_compute; reflexivity|].
    assert (Hok : Forall edit_ok [Remove [str "a"; str "b"]]).
    { unfold edit_ok; cbn [edit_old edit_new]; solve_lines. }
    assert (Hmax : llen (old_lines [Remove [str "a"; str "b"]]) <= int_max).
    { vm_compute. discriminate. }
    exact (proj2 (reformat_noop
             (sys_ok ([] : recorder) (unlines [str "a"; str "b"])
                (diff_text [Remove [str "a"; str "b"]]))
             (mk_slice []) [] (unlines [str "a"; str "b"]) eq_refl eq_refl)
             [Remove [str "a"; str "b"]]
             eq_refl eq_refl eq_refl Hok eq_refl Hmax eq_refl eq_refl).
Defined.

(** ** New content of length 0 *)

(** New content that is empty but not nil is not caught by
    [new == nil]; with the script a diff of the old content against
    nothing, reformat still sends the window no address and no data:
    every hunk is a deletion whose new span starts at 0. *)
Theorem empty_new_no_write (es : list edit) (w : recorder) :
  Forall edit_ok es -> new_lines es = [] ->
  llen (old_lines es) <= int_max ->
  exists cmds,
    reformat (sys_ok w (unlines (old_lines es)) (diff_text es)) (mk_slice [])
      = Some (Some cmds, []) /\
    (cmds = w ++ [CmdCloseFiles] \/
     cmds = w ++ [CmdWrite "ctl" (str "mark"); CmdWrite "ctl" (str "nomark");
                  CmdCloseFiles]).
Proof.
  intros Hes Hnew Hmax.
  unfold reformat, sys_ok, reformat_edits.
  cbn [sys_Open sys_ReadFile sys_TempFile sys_tmp_Write sys_diff is_nil orb
       slice_bytes].
  destruct (bytes_Equal (unlines (old_lines es)) (mk_slice [])).
  { eexists. split; [reflexivity|]. left. reflexivity. }
  unfold diff_text.
  rewrite strings_Split_unlines by (apply script_lines_are_lines; exact Hes).
  rewrite replay_all, rev_unit. cbn [replay_rev replay_line].
  rewrite replay_removals by (assumption || lia).
  cbn [option_map snd close_window win logged win_Write recorder_Window fst
       win_CloseFiles].
  eexists. split; [reflexivity|]. right.
  rewrite <- !app_assoc. reflexivity.
Qed.

Lemma empty_new_no_write_witness :
  let es := [Remove [str "a"; str "b"]] in
  diff_text es = unlines [str "1,2d0"; str "< a"; str "< b"] /\
  exists cmds,
    reformat (sys_ok ([] : recorder) (unlines (old_lines es)) (diff_text es))
      (mk_slice [])
      = Some (Some cmds, []) /\
    (cmds = [] ++ [CmdCloseFiles] \/
     cmds = [] ++ [CmdWrite "ctl" (str "mark"); CmdWrite "ctl" (str "nomark");
                   CmdCloseFiles]).
Proof.
  cbv zeta. split; [vm_compute; reflexivity|].
  apply (empty_new_no_write [Remove [str "a"; str "b"]] []).
  - unfold edit_ok; cbn [edit_old edit_new]; solve_lines.
  - reflexivity.
  - vm_compute. discriminate.
Defined.

(** ** findLines on any text *)

Lemma upto_after_lines (text : bytes) : forall k : nat,
  upto_lines k text ++ after_lines k text = text.
Proof.
  induction text as [|c text IH]; intros [|k]; try reflexivity.
  cbn [upto_lines after_lines].
  destruct (ascii_eqb c nl); cbn [app]; f_equal; apply IH.
Qed.

Lemma after_lines_add (text : bytes) : forall a b : nat,
  after_lines (a + b) text = after_lines b (after_lines a text).
Proof.
  induction text as [|c text IH]; intros a b.
  - rewrite !after_lines_nil. reflexivity.
  - destruct a as [|a]; [rewrite after_lines_0; reflexivity|].
    cbn [Nat.add after_lines].
    destruct (ascii_eqb c nl); [apply IH|].
    apply (IH (S a) b).
Qed.

Lemma upto_lines_add (text : bytes) : forall a b : nat,
  upto_lines (a + b) text = upto_lines a text ++ upto_lines b (after_lines a text).
Proof.
  induction text as [|c text IH]; intros a b.
  - rewrite after_lines_nil. destruct a, b; reflexivity.
  - destruct a as [|a]; [rewrite after_lines_0; reflexivity|].
    cbn [Nat.add upto_lines after_lines app].
    destruct (ascii_eqb c nl); f_equal; [apply IH|apply (IH (S a) b)].
Qed.

Lemma upto_lines_nil (k : nat) : upto_lines k [] = [].
Proof. destruct k; reflexivity. Qed.

(** The window of [findLines], for any text and any range whose countdown
    stays an [int]: the [end - (start - 1)] lines that follow the first
    [start - 1]. *)
Lemma findLines_upto (text : bytes) (start end_ : Z) :
  1 <= start <= int_max -> end_ <= int_max -> int_min + (start - 1) <= end_ ->
  findLines text start end_
  = Some (upto_lines (Z.to_nat (end_ - (start - 1)))
            (after_lines (Z.to_nat (start - 1)) text)).
Proof.
  intros Hs He Hlow.
  assert (Hmin : int_min < start) by (unfold int_min; lia).
  destruct (findLines_window text start end_ Hmin (proj2 Hs) He)
    as (k1 & k2 & _ & _ & _ & Hskip & Hfind).
  { cbv zeta. lia. }
  rewrite Hfind. f_equal.
  set (r1 := after_lines (Z.to_nat (start - 1)) text) in *.
  destruct (Nat.le_gt_cases (Z.to_nat (start - 1)) (count_nl text)) as [Hle|Hgt].
  - rewrite Nat.min_l in Hskip by exact Hle.
    rewrite Z2Nat.id in Hskip by lia.
    apply (app_inv_tail (skipn k2 r1)).
    rewrite firstn_skipn, Hskip, upto_after_lines. reflexivity.
  - assert (Hr : r1 = []) by (apply after_lines_all; exact Hgt).
    rewrite Hr, firstn_nil, upto_lines_nil. reflexivity.
Qed.

(** Adjacent windows join: the lines [a..b] followed by the lines
    [b+1..c] are the lines [a..c]. *)
Theorem findLines_adjacent (text : bytes) (a b c : Z) :
  1 <= a -> a - 1 <= b -> b <= c -> c <= int_max -> b + 1 <= int_max ->
  exists w1 w2 : bytes,
    findLines text a b = Some w1 /\ findLines text (b + 1) c = Some w2 /\
    findLines text a c = Some (w1 ++ w2).
Proof.
  intros Ha Hab Hbc Hc Hb.
  assert (Hmin : int_min < 0) by (unfold int_min; lia).
  rewrite !findLines_upto by lia.
  eexists. eexists. split; [reflexivity|]. split; [reflexivity|].
  f_equal.
  replace (Z.to_nat (c - (a - 1)))
    with (Z.to_nat (b - (a - 1)) + Z.to_nat (c - (b + 1 - 1)))%nat by lia.
  rewrite upto_lines_add. f_equal. f_equal.
  rewrite <- after_lines_add. f_equal. lia.
Qed.

Lemma findLines_adjacent_witness :
  let text := str "one" ++ [nl] ++ str "two" ++ [nl] ++ str "three" in
  exists w1 w2 : bytes,
    findLines text 1 1 = Some w1 /\ findLines text (1 + 1) 3 = Some w2 /\
    findLines text 1 3 = Some (w1 ++ w2).
Proof.
  apply (findLines_adjacent _ 1 1 3); unfold int_max; lia.
Defined.

(** A range that ends before it starts selects nothing. *)
Theorem findLines_empty_range (text : bytes) (start end_ : Z) :
  1 <= start <= int_max -> int_min + (start - 1) <= end_ -> end_ < start ->
  findLines text start end_ = Some [].
Proof.
  intros Hs Hlow Hlt.
  rewrite findLines_upto by lia.
  replace (Z.to_nat (end_ - (start - 1))) with O by lia.
  destruct (after_lines (Z.to_nat (start - 1)) text); reflexivity.
Qed.

Lemma findLines_empty_range_witness :
  findLines (unlines [str "a"; str "b"; str "c"]) 3 2 = Some [].
Proof.
  apply findLines_empty_range; unfold int_min, int_max; lia.
Defined.

Lemma seekStart_list_stopped (rest : bytes) (start end_ : Z) :
  start <= 0 -> seekStart_list rest start end_ = (O, start, end_).
Proof.
  intros Hs. destruct rest as [|c rest]; [reflexivity|].
  cbn [seekStart_list]. destruct (Z.ltb_spec 0 start); [lia|reflexivity].
Qed.

(** A start line of 1, of 0 or below 0 all select from the first byte
    of the text. *)
Theorem findLines_start_below_one (text : bytes) (start end_ : Z) :
  int_min < start <= 1 ->
  findLines text start end_ = findLines text 1 end_ /\
  exists endByte : nat, findLines_offsets text start end_ = Some (O, endByte).
Proof.
  intros Hs.
  assert (Hd : decr start <= 0).
  { rewrite decr_small; unfold int_max; lia. }
  destruct (findLines_offsets_list text start end_)
    as (k1 & s1 & end1 & k2 & e2 & Hstart & _ & _ & Hoff).
  rewrite seekStart_list_stopped in Hstart by exact Hd.
  injection Hstart as <- <- <-.
  split.
  - rewrite !findLines_total. f_equal. unfold findLines_list.
    rewrite !seekStart_list_stopped by (exact Hd || (vm_compute; discriminate)).
    reflexivity.
  - exists (0 + k2)%nat. exact Hoff.
Qed.

Lemma findLines_start_below_one_witness :
  let text := unlines [str "a"; str "b"; str "c"] in
  findLines text (-4) 2 = findLines text 1 2 /\
  exists endByte : nat, findLines_offsets text (-4) 2 = Some (O, endByte).
Proof.
  apply findLines_start_below_one. unfold int_min. lia.
Defined.

Lemma seekEnd_list_line (rest : bytes) : forall end_ : Z,
  0 < end_ ->
  fst (seekEnd_list rest end_) = length rest \/
  ends_line (firstn (fst (seekEnd_list rest end_)) rest).
Proof.
  induction rest as [|c rest IH]; intros end_ He; [left; reflexivity|].
  cbn [seekEnd_list]. destruct (Z.ltb_spec 0 end_) as [_|]; [|lia].
  destruct (ascii_eqb c nl) eqn:Hc.
  - apply ascii_eqb_eq in Hc. subst c.
    destruct (Z.ltb_spec 0 (decr end_)) as [Hpos|Hstop].
    + specialize (IH (decr end_) Hpos).
      destruct (seekEnd_list rest (decr end_)) as [k e]. cbn [fst] in *.
      destruct IH as [->|[t Ht]]; [left; reflexivity|right].
      exists (nl :: t). cbn [firstn app]. rewrite Ht. reflexivity.
    + right. exists [].
      destruct rest as [|c' rest']; [reflexivity|].
      cbn [seekEnd_list]. destruct (Z.ltb_spec 0 (decr end_)); [lia|reflexivity].
  - specialize (IH end_ He).
    destruct (seekEnd_list rest end_) as [k e]. cbn [fst] in *.
    destruct IH as [->|[t Ht]]; [left; reflexivity|right].
    exists (c :: t). cbn [firstn app]. rewrite Ht. reflexivity.
Qed.

Lemma seekEnd_list_stopped (rest : bytes) (end_ : Z) :
  end_ <= 0 -> seekEnd_list rest end_ = (O, end_).
Proof.
  intros He. destruct rest as [|c rest]; [reflexivity|].
  cbn [seekEnd_list]. destruct (Z.ltb_spec 0 end_); [lia|reflexivity].
Qed.

Lemma seekStart_list_line (rest : bytes) : forall start end_ : Z,
  0 < start ->
  fst (fst (seekStart_list rest start end_)) = length rest \/
  ends_line (firstn (fst (fst (seekStart_list rest start end_))) rest).
Proof.
  induction rest as [|c rest IH]; intros start end_ Hs; [left; reflexivity|].
  cbn [seekStart_list]. destruct (Z.ltb_spec 0 start) as [_|]; [|lia].
  destruct (ascii_eqb c nl) eqn:Hc.
  - apply ascii_eqb_eq in Hc. subst c.
    destruct (Z.ltb_spec 0 (decr start)) as [Hpos|Hstop].
    + specialize (IH (decr start) (decr end_) Hpos).
      destruct (seekStart_list rest (decr start) (decr end_)) as [[k s] e].
      cbn [fst] in *.
      destruct IH as [->|[t Ht]]; [left; reflexivity|right].
      exists (nl :: t). cbn [firstn app]. rewrite Ht. reflexivity.
    + right. exists [].
      rewrite seekStart_list_stopped by exact Hstop. reflexivity.
  - specialize (IH start end_ Hs).
    destruct (seekStart_list rest start end_) as [[k s] e]. cbn [fst] in *.
    destruct IH as [->|[t Ht]]; [left; reflexivity|right].
    exists (c :: t). cbn [firstn app]. rewrite Ht. reflexivity.
Qed.

Lemma findLines_list_whole_lines (text : bytes) (start end_ : Z) :
  whole_lines_of text (findLines_list text start end_).
Proof.
  unfold whole_lines_of, findLines_list.
  pose proof (seekStart_list_bound text (decr start) end_) as Hb1.
  destruct (Z.ltb_spec 0 (decr start)) as [Hs|Hs].
  - pose proof (seekStart_list_line text (decr start) end_ Hs) as H1.
    destruct (seekStart_list text (decr start) end_) as [[k1 s1] end1].
    cbn [fst] in *.
    pose proof (seekEnd_list_bound (skipn k1 text) end1) as Hb2.
    destruct (Z.ltb_spec 0 end1) as [He|He].
    + pose proof (seekEnd_list_line (skipn k1 text) end1 He) as H2.
      destruct (seekEnd_list (skipn k1 text) end1) as [k2 e2]. cbn [fst] in *.
      exists (firstn k1 text), (skipn k2 (skipn k1 text)).
      split; [rewrite !firstn_skipn; reflexivity|].
      split.
      * destruct H1 as [H1|H1]; [|right; left; exact H1].
        right. right. subst k1. rewrite skipn_all. rewrite firstn_nil, skipn_nil.
        split; reflexivity.
      * destruct H2 as [H2|H2]; [|right; left; exact H2].
        right. right. rewrite H2. apply skipn_all.
    + rewrite seekEnd_list_stopped by exact He.
      exists (firstn k1 text), (skipn k1 text).
      split; [cbn [app]; rewrite firstn_skipn; reflexivity|].
      split; [|left; reflexivity].
      destruct H1 as [H1|H1]; [|right; left; exact H1].
      right. right. subst k1. rewrite skipn_all. split; reflexivity.
  - rewrite seekStart_list_stopped by exact Hs. cbn [skipn].
    destruct (Z.ltb_spec 0 end_) as [He|He].
    + pose proof (seekEnd_list_line text end_ He) as H2.
      destruct (seekEnd_list text end_) as [k2 e2]. cbn [fst] in *.
      exists [], (skipn k2 text).
      split; [cbn [app]; rewrite firstn_skipn; reflexivity|].
      split; [left; reflexivity|].
      destruct H2 as [H2|H2]; [|right; left; exact H2].
      right. right. rewrite H2. apply skipn_all.
    + rewrite seekEnd_list_stopped by exact He.
      exists [], text. repeat split; left; reflexivity.
Qed.

(** [findLines] never cuts a line: for every text and every two numbers,
    the window starts at the first byte of the text or just after a line
    terminator, and ends with a line terminator or at the end of the text
    (a window that is empty because the text ran out apart). *)
Theorem findLines_whole_lines (text : bytes) (start end_ : Z) :
  exists before window after : bytes,
    findLines text start end_ = Some window /\
    text = before ++ window ++ after /\
    (before = [] \/ ends_line before \/ (window = [] /\ after = [])) /\
    (window = [] \/ ends_line window \/ after = []).
Proof.
  destruct (findLines_list_whole_lines text start end_)
    as (before & after & Htext & Hbefore & Hwindow).
  exists before, (findLines_list text start end_), after.
  split; [apply findLines_total|]. split; [exact Htext|].
  split; assumption.
Qed.

(** ** What is written to the window *)

(** Whatever the diff tool printed, the text reformat writes to the body
    of the window is never a piece of a line: every data write is a run of
    whole lines of the new content, or empty. *)
Theorem writes_whole_lines (sys : Sys recorder) (new : slice)
    (cmds : list command) (lg : list log_entry) :
  sys_Open sys = inl [] -> reformat sys new = Some (Some cmds, lg) ->
  Forall (fun c => match c with
                   | CmdWrite file data =>
                       file = "data"%string ->
                       whole_lines_of (slice_bytes new) data
                   | _ => True
                   end) cmds.
Proof.
  intros Hopen Hrun.
  destruct (reformat_paths sys new [] cmds lg Hopen Hrun) as [->| ->];
    cbn [app]; [repeat constructor|].
  constructor; [discriminate|]. constructor; [discriminate|].
  apply Forall_app. split; [|repeat constructor].
  apply Forall_forall. intros c Hc. apply in_flat_map in Hc.
  destruct Hc as (line & _ & Hc). unfold line_commands in Hc.
  destruct (line_hunk line) as [h|]; [|contradiction].
  rewrite hunk_commands_select in Hc. cbn [In] in Hc.
  destruct Hc as [<-|[<-|[]]]; [exact I|]. intros _.
  unfold payload. destruct (h_kind h); try apply findLines_list_whole_lines.
  exists [], (slice_bytes new). repeat split; left; reflexivity.
Qed.

Lemma writes_whole_lines_witness :
  Forall (fun c => match c with
                   | CmdWrite file data =>
                       file = "data"%string ->
                       whole_lines_of (slice_bytes two_hunks_new) data
                   | _ => True
                   end)
    [CmdWrite "ctl" (str "mark"); CmdWrite "ctl" (str "nomark");
     CmdAddr (AddrLines 5 5); CmdWrite "data" [];
     CmdAddr (AddrLines 2 2); CmdWrite "data" (str "x" ++ [nl]);
     CmdCloseFiles].
Proof.
  apply (writes_whole_lines
           (sys_ok ([] : recorder) two_hunks_old two_hunks_diff) two_hunks_new
           _ []).
  - reflexivity.
  - vm_compute. reflexivity.
Defined.

(** ** Spans that are no numbers *)

Lemma parse_digits_bad (c : ascii) (s : bytes) : forall acc : Z,
  In c s -> is_digit c = false -> parse_digits s acc = None.
Proof.
  induction s as [|d s IH]; intros acc Hin Hc; [contradiction|].
  cbn [parse_digits]. destruct Hin as [->|Hin].
  - unfold is_digit in Hc. destruct (digit_value c); [discriminate|reflexivity].
  - destruct (digit_value d); [apply IH; assumption|reflexivity].
Qed.

Lemma Atoi_bad (c : ascii) (s : bytes) :
  In c s -> is_digit c = false -> c <> "+"%char -> c <> "-"%char ->
  Atoi s = None.
Proof.
  intros Hin Hc Hplus Hminus. destruct s as [|c0 rest]; [reflexivity|].
  unfold Atoi.
  destruct (ascii_eqb c0 "-"%char || ascii_eqb c0 "+"%char) eqn:Hsign.
  - assert (Hrest : In c rest).
    { destruct Hin as [->|Hin]; [|exact Hin].
      apply orb_true_iff in Hsign.
      destruct Hsign as [H|H]; apply ascii_eqb_eq in H; congruence. }
    destruct rest as [|d rest]; [reflexivity|].
    rewrite (parse_digits_bad c) by assumption. reflexivity.
  - rewrite (parse_digits_bad c) by assumption. reflexivity.
Qed.

Lemma strings_Index_from_cases (s : bytes) (sep : ascii) : forall i : Z,
  (Forall (fun c => ascii_eqb c sep = false) s /\
   strings_Index_from s sep i = -1) \/
  (exists pre post, s = pre ++ sep :: post /\
     Forall (fun c => ascii_eqb c sep = false) pre /\
     strings_Index_from s sep i = i + Z.of_nat (length pre)).
Proof.
  induction s as [|c s IH]; intros i; [left; split; [constructor|reflexivity]|].
  cbn [strings_Index_from]. destruct (ascii_eqb c sep) eqn:Hc.
  - right. apply ascii_eqb_eq in Hc. subst c. exists [], s.
    split; [reflexivity|]. split; [constructor|]. cbn [length]. lia.
  - destruct (IH (i + 1)) as [[Hall Hi]|(pre & post & -> & Hpre & Hi)].
    + left. split; [constructor; assumption|exact Hi].
    + right. exists (c :: pre), post. split; [reflexivity|].
      split; [constructor; assumption|]. rewrite Hi. cbn [length]. lia.
Qed.

(** A span that holds a byte other than a digit, a sign or a comma is
    reported with its text and read as [(0, 0)], whatever else it holds:
    no half of it is kept. *)
Theorem parseSpan_rejects (text : bytes) (c : ascii) :
  In c text -> is_digit c = false ->
  c <> "+"%char -> c <> "-"%char -> c <> ","%char ->
  parseSpan text = ((0, 0), [CannotParseSpan text]).
Proof.
  intros Hin Hc Hplus Hminus Hcomma. unfold parseSpan, strings_Index.
  destruct (strings_Index_from_cases text ","%char 0)
    as [[_ Hi]|(pre & post & -> & Hpre & Hi)]; rewrite Hi.
  - cbn [Z.ltb Z.compare]. rewrite (Atoi_bad c) by assumption. reflexivity.
  - destruct (Z.ltb_spec (0 + Z.of_nat (length pre)) 0) as [|_]; [lia|].
    replace (Z.to_nat (0 + Z.of_nat (length pre))) with (length pre) by lia.
    replace (Z.to_nat (0 + Z.of_nat (length pre) + 1)) with (S (length pre)) by lia.
    rewrite firstn_length_app, skipn_S_length_app.
    apply in_app_or in Hin. destruct Hin as [Hin|[Heq|Hin]].
    + rewrite (Atoi_bad c pre) by assumption. reflexivity.
    + congruence.
    + rewrite (Atoi_bad c post) by assumption.
      destruct (Atoi pre); reflexivity.
Qed.

Lemma parseSpan_rejects_witness :
  parseSpan (str "12,3x") = ((0, 0), [CannotParseSpan (str "12,3x")]).
Proof.
  apply (parseSpan_rejects (str "12,3x") "x"%char).
  - cbn [str list_ascii_of_string In]. tauto.
  - reflexivity.
  - discriminate.
  - discriminate.
  - discriminate.
Defined.

(** ** What the replay does not read *)

Lemma replay_rev_headers {W : Type} `{Window W} (new : bytes)
    (rlines : list bytes) : forall st : state W,
  replay_rev new rlines st
  = replay_rev new (filter (fun line => negb (passed_by line)) rlines) st.
Proof.
  induction rlines as [|line rlines IH]; intros st; [reflexivity|].
  cbn [filter]. destruct (passed_by line) eqn:Hp; cbn [negb].
  - cbn [replay_rev].
    assert (Hline : replay_line new line st = Some (Next, st)).
    { unfold replay_line. destruct line as [|c0 line]; [reflexivity|].
      cbn [passed_by] in Hp. rewrite Hp. reflexivity. }
    rewrite Hline. apply IH.
  - cbn [replay_rev]. destruct (replay_line new line st) as [[[|] st']|];
      [apply IH|reflexivity|reflexivity].
Qed.

Lemma reformat_edits_headers {W : Type} `{Window W} (sys : Sys W)
    (d1 d2 : bytes) (old : bytes) (new : slice) (st : state W) :
  headers_of d1 = headers_of d2 ->
  reformat_edits (with_diff sys d1) old new st
  = reformat_edits (with_diff sys d2) old new st.
Proof.
  intros Hd. unfold reformat_edits, with_diff.
  cbn [sys_TempFile sys_tmp_Write sys_diff].
  destruct (is_nil new || bytes_Equal old new); [reflexivity|].
  destruct (sys_TempFile sys); [reflexivity|].
  destruct (sys_tmp_Write sys); [reflexivity|].
  rewrite !replay_all.
  rewrite (replay_rev_headers _ (rev (strings_Split d1 nl))).
  rewrite (replay_rev_headers _ (rev (strings_Split d2 nl))).
  rewrite !filter_rev. unfold headers_of in Hd. rewrite Hd. reflexivity.
Qed.

(** The text of the hunks in the script is never read: two scripts with
    the same header lines, whatever their lines that start with [<], [>]
    or [-] and their empty lines, make reformat do the same. What is
    written comes from the new content alone. *)
Theorem detail_lines_not_read {W : Type} `{Window W} (sys : Sys W)
    (d1 d2 : bytes) (new : slice) (fn_result : slice + error) :
  headers_of d1 = headers_of d2 ->
  reformat (with_diff sys d1) new = reformat (with_diff sys d2) new /\
  reformat_fmtFn (with_diff sys d1) fn_result
  = reformat_fmtFn (with_diff sys d2) fn_result.
Proof.
  intros Hd. unfold reformat, reformat_fmtFn.
  change (sys_Open (with_diff sys d1)) with (sys_Open sys).
  change (sys_Open (with_diff sys d2)) with (sys_Open sys).
  change (sys_ReadFile (with_diff sys d1)) with (sys_ReadFile sys).
  change (sys_ReadFile (with_diff sys d2)) with (sys_ReadFile sys).
  destruct (sys_Open sys) as [w|e]; [|split; reflexivity].
  destruct (sys_ReadFile sys) as [old|e]; [|split; reflexivity].
  split.
  - rewrite (reformat_edits_headers sys d1 d2) by exact Hd. reflexivity.
  - destruct fn_result as [nw|e]; [|reflexivity].
    rewrite (reformat_edits_headers sys d1 d2) by exact Hd. reflexivity.
Qed.

Lemma detail_lines_not_read_witness :
  let sys := sys_ok (mkBuffer two_hunks_old (0, 0)%nat) two_hunks_old [] in
  let d2 := unlines [str "2c2"; str "> anything"; str "5d4"] in
  reformat (with_diff sys two_hunks_diff) two_hunks_new
  = reformat (with_diff sys d2) two_hunks_new /\
  reformat_fmtFn (with_diff sys two_hunks_diff) (inl two_hunks_new)
  = reformat_fmtFn (with_diff sys d2) (inl two_hunks_new).
Proof.
  apply (detail_lines_not_read
           (sys_ok (mkBuffer two_hunks_old (0, 0)%nat) two_hunks_old [])
           two_hunks_diff
           (unlines [str "2c2"; str "> anything"; str "5d4"])).
  vm_compute. reflexivity.
Defined.

(** ** main: the formatter of a file *)

Lemma bytes_eqb_refl (a : bytes) : bytes_eqb a a = true.
Proof.
  induction a as [|x a IH]; [reflexivity|].
  cbn [bytes_eqb]. rewrite ascii_eqb_refl, IH. reflexivity.
Qed.

Lemma bytes_eqb_iff (a b : bytes) : bytes_eqb a b = true <-> a = b.
Proof.
  split; [apply bytes_eqb_eq|intros ->; apply bytes_eqb_refl].
Qed.

Lemma Ext_loop_suffix (path : bytes) : forall n : nat,
  Ext_loop path n = [] \/ exists i : nat, Ext_loop path n = skipn i path.
Proof.
  induction n as [|i IH]; [left; reflexivity|].
  cbn [Ext_loop]. destruct (index path i) as [c|]; [|left; reflexivity].
  destruct (ascii_eqb c "/"%char); [left; reflexivity|].
  destruct (ascii_eqb c "."%char); [right; exists i; reflexivity|exact IH].
Qed.

Lemma Ext_loop_found (stem rest : bytes) : forall k : nat,
  (k <= length rest)%nat -> Forall ext_byte (firstn k rest) ->
  Ext_loop (stem ++ "."%char :: rest) (length stem + 1 + k)
  = "."%char :: rest.
Proof.
  induction k as [|k IH]; intros Hk Hall.
  - rewrite Nat.add_0_r, Nat.add_1_r. cbn [Ext_loop]. unfold index.
    rewrite nth_error_app2, Nat.sub_diag by lia. cbn [nth_error].
    replace (ascii_eqb "."%char "/"%char) with false by reflexivity.
    rewrite ascii_eqb_refl. apply skipn_length_app.
  - replace (length stem + 1 + S k)%nat with (S (length stem + 1 + k)) by lia.
    cbn [Ext_loop]. unfold index.
    rewrite nth_error_app2 by lia.
    replace (length stem + 1 + k - length stem)%nat with (S k) by lia.
    cbn [nth_error].
    destruct (nth_error rest k) as [c|] eqn:Hc.
    + assert (Hin : In c (firstn (S k) rest)).
      { apply nth_error_In with (n := k). rewrite nth_error_firstn.
        destruct (Nat.ltb_spec k (S k)); [exact Hc|lia]. }
      rewrite Forall_forall in Hall. destruct (Hall c Hin) as [H1 H2].
      rewrite H1, H2. apply IH; [lia|].
      apply Forall_forall. intros d Hd. apply Hall.
      rewrite (firstn_S_nth c) by lia. apply in_or_app. left. exact Hd.
    + apply nth_error_None in Hc. lia.
Qed.

Lemma filepath_Ext_suffix (name rest : bytes) :
  Forall ext_byte rest ->
  filepath_Ext name = "."%char :: rest <-> has_suffix name ("."%char :: rest).
Proof.
  intros Hrest. unfold filepath_Ext, has_suffix. split.
  - intros Hext.
    destruct (Ext_loop_suffix name (length name)) as [Hnil|[i Hi]].
    + rewrite Hnil in Hext. discriminate.
    + exists (firstn i name). rewrite <- Hext, Hi. symmetry. apply firstn_skipn.
  - intros [stem ->].
    replace (length (stem ++ "."%char :: rest))
      with (length stem + 1 + length rest)%nat
      by (rewrite length_app; cbn [length]; lia).
    apply Ext_loop_found; [lia|]. rewrite firstn_all. exact Hrest.
Qed.

Ltac ext_bytes := repeat constructor.

Ltac ext_clash :=
  match goal with
  | Heq : filepath_Ext _ = _ |- _ =>
      rewrite Heq in *;
      match goal with
      | E : _ = _ |- _ => vm_compute in E; discriminate E
      end
  end.

Lemma filepath_Ext_of (name suffix : bytes) :
  match suffix with
  | [] => False
  | c :: rest => c = "."%char /\ Forall ext_byte rest
  end ->
  filepath_Ext name = suffix <-> has_suffix name suffix.
Proof.
  destruct suffix as [|c rest]; [contradiction|].
  intros [-> Hrest]. apply filepath_Ext_suffix. exact Hrest.
Qed.

Lemma js_suffixes_ext (e : bytes) :
  In e js_suffixes ->
  match e with
  | [] => False
  | c :: rest => c = "."%char /\ Forall ext_byte rest
  end.
Proof.
  unfold js_suffixes. cbn [In].
  intros [<-|[<-|[<-|[<-|[<-|[<-|[<-|[]]]]]]]];
    (split; [reflexivity|ext_bytes]).
Qed.

(** Which formatter [main] picks is a matter of how the file name ends:
    [.go] gives [fmtCrlfmt]; [.js], [.css], [.html], [.json], [.less],
    [.ts] and [.tsx] give [fmtJS]; [.sql] gives [fmtSQL]; [.opt] gives
    [fmtOpt]. No name gives [fmtRust] or [fmtGoImports]. *)
Theorem formatter_by_suffix (name : bytes) :
  (main_fmtFn name = Some Crlfmt <-> has_suffix name (str ".go")) /\
  (main_fmtFn name = Some JS
   <-> exists e, In e js_suffixes /\ has_suffix name e) /\
  (main_fmtFn name = Some SQL <-> has_suffix name (str ".sql")) /\
  (main_fmtFn name = Some Opt <-> has_suffix name (str ".opt")) /\
  main_fmtFn name <> Some Rust /\ main_fmtFn name <> Some GoImports.
Proof.
  assert (Hgo : filepath_Ext name = str ".go" <-> has_suffix name (str ".go")).
  { apply filepath_Ext_of. split; [reflexivity|ext_bytes]. }
  assert (Hsql : filepath_Ext name = str ".sql" <-> has_suffix name (str ".sql")).
  { apply filepath_Ext_of. split; [reflexivity|ext_bytes]. }
  assert (Hopt : filepath_Ext name = str ".opt" <-> has_suffix name (str ".opt")).
  { apply filepath_Ext_of. split; [reflexivity|ext_bytes]. }
  assert (Hjs : existsb (bytes_eqb (filepath_Ext name)) js_suffixes = true
                <-> exists e, In e js_suffixes /\ has_suffix name e).
  { rewrite existsb_exists. split; intros (e & Hin & He); exists e;
      (split; [exact Hin|]).
    - apply (filepath_Ext_of name e (js_suffixes_ext e Hin)).
      apply bytes_eqb_iff. exact He.
    - apply bytes_eqb_iff.
      apply (filepath_Ext_of name e (js_suffixes_ext e Hin)). exact He. }
  rewrite <- Hgo, <- Hsql, <- Hopt, <- Hjs. clear Hgo Hsql Hopt Hjs.
  unfold main_fmtFn. cbv zeta.
  destruct (bytes_eqb (filepath_Ext name) (str ".go")) eqn:Ego;
    [|destruct (existsb (bytes_eqb (filepath_Ext name)) js_suffixes) eqn:Ejs;
      [|destruct (bytes_eqb (filepath_Ext name) (str ".sql")) eqn:Esql;
        [|destruct (bytes_eqb (filepath_Ext name) (str ".opt")) eqn:Eopt]]];
    try (apply bytes_eqb_iff in Ego); try (apply bytes_eqb_iff in Esql);
    try (apply bytes_eqb_iff in Eopt);
    repeat split; intros; try discriminate; try reflexivity; try assumption;
    ext_clash.
Qed.

Lemma known_suffix_ext (e : bytes) :
  In e known_suffixes ->
  match e with
  | [] => False
  | c :: rest => c = "."%char /\ Forall ext_byte rest
  end.
Proof.
  unfold known_suffixes. intros [<-|Hin]; [split; [reflexivity|ext_bytes]|].
  apply in_app_or in Hin. destruct Hin as [Hin|[<-|[<-|[]]]];
    [apply js_suffixes_ext; exact Hin| |]; (split; [reflexivity|ext_bytes]).
Qed.

Lemma main_fmtFn_some (name : bytes) :
  (exists fn, main_fmtFn name = Some fn) <->
  exists e, In e known_suffixes /\ has_suffix name e.
Proof.
  transitivity (existsb (bytes_eqb (filepath_Ext name)) known_suffixes = true).
  - unfold main_fmtFn, known_suffixes. cbv zeta. cbn [existsb].
    rewrite existsb_app. cbn [existsb]. rewrite orb_false_r.
    destruct (bytes_eqb (filepath_Ext name) (str ".go"));
      [split; [reflexivity|eexists; reflexivity]|].
    destruct (existsb (bytes_eqb (filepath_Ext name)) js_suffixes);
      [split; [reflexivity|eexists; reflexivity]|].
    destruct (bytes_eqb (filepath_Ext name) (str ".sql"));
      [split; [reflexivity|eexists; reflexivity]|].
    destruct (bytes_eqb (filepath_Ext name) (str ".opt"));
      [split; [reflexivity|eexists; reflexivity]|].
    split; [intros [fn Hfn]; discriminate Hfn|discriminate].
  - rewrite existsb_exists. split; intros (e & Hin & He); exists e;
      (split; [exact Hin|]).
    + apply (filepath_Ext_of name e (known_suffix_ext e Hin)).
      apply bytes_eqb_iff. exact He.
    + apply bytes_eqb_iff.
      apply (filepath_Ext_of name e (known_suffix_ext e Hin)). exact He.
Qed.

(** [main] calls reformat for the [put] events of the files whose name
    ends in one of the ten known ways, and for no other event. *)
Theorem main_event_put_only {W : Type} `{Window W} (x : Exec) (sys : Sys W)
    (ev : event) :
  (exists r, main_event x sys ev = Some r) <->
  Op ev = str "put" /\
  exists e, In e known_suffixes /\ has_suffix (Name ev) e.
Proof.
  rewrite <- main_fmtFn_some. unfold main_event.
  destruct (main_fmtFn (Name ev)) as [fn|] eqn:Hfn.
  - assert (Hname : bytes_eqb (Name ev) [] = false).
    { destruct (Name ev); [vm_compute in Hfn; discriminate Hfn|reflexivity]. }
    rewrite Hname. cbn [negb andb].
    destruct (bytes_eqb (Op ev) (str "put")) eqn:Hop.
    + apply bytes_eqb_iff in Hop. split; [|eexists; reflexivity].
      intros _. split; [exact Hop|exists fn; reflexivity].
    + split; [intros [r Hr]; discriminate Hr|].
      intros [Hput _]. rewrite Hput, bytes_eqb_refl in Hop. discriminate Hop.
  - split.
    + intros [r Hr]. destruct (_ && _); discriminate Hr.
    + intros [_ [fn Hsome]]. discriminate Hsome.
Qed.

(** ** main: a formatter that fails *)

Lemma fmt_stdin_failed (x : Exec) (tool : string) (command : bytes)
    (args : list bytes) (name : bytes) :
  (forall inv, snd (CombinedOutput x inv) <> None) ->
  exists msg, fmt_stdin x tool command args name = inr msg.
Proof.
  intros Hfail. unfold fmt_stdin.
  destruct (os_Open x name); [eexists; reflexivity|].
  match goal with
  | |- context [CombinedOutput x ?inv] =>
      specialize (Hfail inv); destruct (CombinedOutput x inv) as [new [err|]]
  end; [eexists; reflexivity|]. exfalso. apply Hfail. reflexivity.
Qed.

Lemma call_failed (fn : fmtFn) (x : Exec) (name : bytes) :
  (forall inv, snd (CombinedOutput x inv) <> None) ->
  exists msg, call fn x name = inr msg.
Proof.
  intros Hfail. destruct fn; cbn [call];
    try (apply fmt_stdin_failed; exact Hfail).
  - unfold fmtGoImports.
    match goal with
    | |- context [CombinedOutput x ?inv] =>
        specialize (Hfail inv); destruct (CombinedOutput x inv) as [new [err|]]
    end; [eexists; reflexivity|]. exfalso. apply Hfail. reflexivity.
  - unfold fmtJS.
    match goal with
    | |- context [CombinedOutput x ?inv] =>
        specialize (Hfail inv); destruct (CombinedOutput x inv) as [new [err|]]
    end; [eexists; reflexivity|]. exfalso. apply Hfail. reflexivity.
Qed.

(** When the command of the formatter fails, whichever formatter it is,
    [main] leaves the window as it is: the window is opened and released,
    it is sent no address and no text, and one message goes to standard
    error. *)
Theorem failed_formatter_leaves_window {W : Type} `{Window W} (x : Exec)
    (sys : Sys W) (ev : event) (w : W) (old : bytes) :
  sys_Open sys = inl w -> sys_ReadFile sys = inl old ->
  (forall inv, snd (CombinedOutput x inv) <> None) ->
  main_event x sys ev = None \/
  exists msg,
    main_event x sys ev = Some (Some (Some (win_CloseFiles w), [Stderr msg])).
Proof.
  intros Hopen Hread Hfail. unfold main_event.
  destruct (_ && _); [|left; reflexivity].
  destruct (main_fmtFn (Name ev)) as [fn|]; [|left; reflexivity].
  right. destruct (call_failed fn x (Name ev) Hfail) as [msg Hmsg].
  exists msg. rewrite Hmsg. unfold reformat_fmtFn. rewrite Hopen, Hread.
  reflexivity.
Qed.

Lemma failed_formatter_leaves_window_witness :
  let x := mkExec (fun _ => None)
             (fun _ => (mk_slice (str "syntax error"), Some "exit status 1"%string)) in
  let sys := sys_ok ([] : recorder) two_hunks_old two_hunks_diff in
  let ev := mkEvent 7 (str "put") (str "/src/a.go") in
  main_event x sys ev = Some (Some (Some [CmdCloseFiles], [Stderr "syntax error"%string])) /\
  (main_event x sys ev = None \/
   exists msg,
     main_event x sys ev
     = Some (Some (Some (win_CloseFiles ([] : recorder)), [Stderr msg]))).
Proof.
  cbv zeta. split; [vm_compute; reflexivity|].
  apply (failed_formatter_leaves_window
           (mkExec (fun _ => None)
              (fun _ => (mk_slice (str "syntax error"), Some "exit status 1"%string)))
           (sys_ok ([] : recorder) two_hunks_old two_hunks_diff)
           (mkEvent 7 (str "put") (str "/src/a.go")) [] two_hunks_old).
  - reflexivity.
  - reflexivity.
  - intros inv. discriminate.
Defined.

(** ** The variant: the arguments of the command *)

Lemma set_index_app {A : Type} (done rest : list A) (x v : A) :
  set_index (done ++ x :: rest) (length done) v = Some (done ++ v :: rest).
Proof.
  unfold set_index.
  destruct (Nat.ltb_spec (length done) (length (done ++ x :: rest))) as [_|Hge].
  - rewrite firstn_length_app, skipn_S_length_app. reflexivity.
  - rewrite length_app in Hge. cbn [length] in Hge. lia.
Qed.

Lemma substitute_from_spec (name : bytes) (rest : list bytes) :
  forall (done : list bytes) (stdin : bool),
  substitute_from (length done) rest name (done ++ rest) stdin
  = Some (done ++ map (with_name name) rest,
          stdin && negb (existsb is_name_arg rest)).
Proof.
  induction rest as [|arg rest IH]; intros done stdin.
  - cbn [substitute_from map existsb negb]. rewrite andb_true_r. reflexivity.
  - cbn [substitute_from map existsb]. unfold with_name at 1, is_name_arg at 1.
    destruct (bytes_eqb arg (str "$name")).
    + rewrite set_index_app.
      replace (S (length done)) with (length (done ++ [name]))
        by (rewrite length_app; cbn [length]; lia).
      replace (done ++ name :: rest) with ((done ++ [name]) ++ rest)
        by (rewrite <- app_assoc; reflexivity).
      rewrite IH, <- app_assoc. cbn [orb negb andb app].
      rewrite andb_false_r. reflexivity.
    + replace (S (length done)) with (length (done ++ [arg]))
        by (rewrite length_app; cbn [length]; lia).
      replace (done ++ arg :: rest) with ((done ++ [arg]) ++ rest)
        by (rewrite <- app_assoc; reflexivity).
      rewrite IH, <- app_assoc. reflexivity.
Qed.

Lemma substitute_spec (args : list bytes) (name : bytes) :
  substitute args name
  = Some (map (with_name name) args, negb (existsb is_name_arg args)).
Proof.
  unfold substitute. apply (substitute_from_spec name args [] true).
Qed.

(** Every argument [$name] of the configured command becomes the file
    name and the others stay as they are; the file is given on standard
    input exactly when no argument is [$name]. The copies the loop makes
    are always indexed within their bounds. *)
Theorem substitute_all (args : list bytes) (name : bytes) :
  substitute args name
  = Some (map (with_name name) args, negb (existsb is_name_arg args)).
Proof.
  unfold substitute. apply (substitute_from_spec name args [] true).
Qed.

(** ** The variant: the patterns *)

(** A configured pattern that starts with a dot and has no star, such as
    [.go], is matched with a star in front of it against the base name of
    the file, not against its path. *)
Theorem dot_pattern_matches_base_name (fp : Filepath) (m name : bytes) :
  strings_HasPrefix m (str ".") = true ->
  strings_Contains m (str "*") = false ->
  normalize_match m = str "*" ++ m /\
  filepath_Match fp (normalize_match m) (matchName fp (normalize_match m) name)
  = filepath_Match fp (str "*" ++ m) (filepath_Base fp name).
Proof.
  intros Hdot Hstar.
  assert (Hn : normalize_match m = str "*" ++ m).
  { unfold normalize_match. rewrite Hdot, Hstar. reflexivity. }
  split; [exact Hn|]. rewrite Hn. unfold matchName.
  assert (Hp : strings_HasPrefix (str "*" ++ m) (str "*.") = true).
  { destruct m as [|c m]; [discriminate Hdot|].
    cbn [str list_ascii_of_string app strings_HasPrefix] in *.
    rewrite ascii_eqb_refl. cbn [andb].
    destruct (ascii_eqb c "."%char); [|discriminate Hdot].
    destruct m; reflexivity. }
  rewrite Hp. reflexivity.
Qed.

Lemma match_patterns_tests {W : Type} `{Window W} (fp : Filepath) (h : Host W)
    (fm : formatter) (name : bytes) (ms : list bytes)
    (rest : list (formatter * bytes)) :
  first_test fp h name (map (pair fm) ms ++ rest)
  = match match_patterns fp h fm name ms with
    | Some o => o
    | None => first_test fp h name rest
    end.
Proof.
  induction ms as [|m ms IH]; [reflexivity|].
  cbn [map app first_test match_patterns].
  destruct (filepath_Match fp m (matchName fp m name)) as [[|]|err];
    [reflexivity|exact IH|reflexivity].
Qed.

Lemma match_formatters_tests {W : Type} `{Window W} (fp : Filepath)
    (h : Host W) (name : bytes) (fms : list formatter) :
  match_formatters fp h name fms = first_test fp h name (tests fms).
Proof.
  induction fms as [|fm fms IH]; [reflexivity|].
  cbn [match_formatters tests flat_map]. fold (tests fms).
  rewrite match_patterns_tests, IH. reflexivity.
Qed.

Lemma first_test_skip {W : Type} `{Window W} (fp : Filepath) (h : Host W)
    (name : bytes) (before rest : list (formatter * bytes)) :
  Forall (no_match fp name) before ->
  first_test fp h name (before ++ rest) = first_test fp h name rest.
Proof.
  induction 1 as [|[fm m] before Hm _ IH]; [reflexivity|].
  cbn [app first_test]. unfold no_match in Hm. cbn [snd] in Hm.
  rewrite Hm. exact IH.
Qed.

(** The patterns are tried entry by entry, each entry's patterns in
    order, and the first one that does not answer no decides: if it
    matches, the command of its entry is run and no other; if it is
    malformed, its error ends the event, also when a later pattern would
    have matched. *)
Theorem first_match_wins {W : Type} `{Window W} (fp : Filepath) (h : Host W)
    (name : bytes) (fms : list formatter)
    (before after : list (formatter * bytes)) (fm : formatter) (m : bytes) :
  tests fms = before ++ (fm, m) :: after ->
  Forall (no_match fp name) before ->
  (filepath_Match fp m (matchName fp m name) = inl true ->
   match_formatters fp h name fms = run_formatter fp h fm name) /\
  (forall err, filepath_Match fp m (matchName fp m name) = inr err ->
   match_formatters fp h name fms = NotRun (Some err)).
Proof.
  intros Htests Hbefore.
  rewrite match_formatters_tests, Htests, first_test_skip by exact Hbefore.
  cbn [first_test]. split; [intros ->|intros err ->]; reflexivity.
Qed.

(** When no pattern of the configuration matches the file, no command is
    run and the event ends without an error. *)
Theorem no_match_no_run {W : Type} `{Window W} (fp : Filepath) (h : Host W)
    (name : bytes) (fms : list formatter) :
  Forall (no_match fp name) (tests fms) ->
  match_formatters fp h name fms = NotRun None.
Proof.
  intros Hall. rewrite match_formatters_tests.
  rewrite <- (app_nil_r (tests fms)). rewrite first_test_skip by exact Hall.
  reflexivity.
Qed.

Lemma dot_pattern_matches_base_name_witness :
  normalize_match (str ".go") = str "*" ++ str ".go" /\
  filepath_Match example_Filepath (normalize_match (str ".go"))
    (matchName example_Filepath (normalize_match (str ".go")) (str "/src/a.go"))
  = filepath_Match example_Filepath (str "*" ++ str ".go")
      (filepath_Base example_Filepath (str "/src/a.go")).
Proof.
  apply (dot_pattern_matches_base_name example_Filepath (str ".go")
           (str "/src/a.go")); reflexivity.
Defined.

Lemma first_match_wins_witness :
  let fm := mkFormatter [str "*.rs"; str "*.go"] (str "gofmt")
              [str "-s"; str "$name"] in
  (filepath_Match example_Filepath (str "*.go")
     (matchName example_Filepath (str "*.go") (str "/src/a.go")) = inl true ->
   match_formatters example_Filepath example_Host (str "/src/a.go")
     (Formatter example_Config)
   = run_formatter example_Filepath example_Host fm (str "/src/a.go")) /\
  (forall err,
   filepath_Match example_Filepath (str "*.go")
     (matchName example_Filepath (str "*.go") (str "/src/a.go")) = inr err ->
   match_formatters example_Filepath example_Host (str "/src/a.go")
     (Formatter example_Config)
   = NotRun (Some err)).
Proof.
  apply (first_match_wins example_Filepath example_Host (str "/src/a.go")
           (Formatter example_Config)
           [(mkFormatter [str "*.rs"; str "*.go"] (str "gofmt")
               [str "-s"; str "$name"], str "*.rs")]
           [(mkFormatter [str "["] (str "never") [], str "[")]).
  - reflexivity.
  - repeat constructor.
Defined.

Lemma no_match_no_run_witness :
  match_formatters example_Filepath example_Host (str "/src/a.go")
    [mkFormatter [str "*.rs"; str "*.c"] (str "fmt") []]
  = NotRun None.
Proof.
  apply no_match_no_run. repeat constructor.
Defined.

(** ** The variant: when reformat is called *)

Lemma first_test_reformatted {W : Type} `{Window W} (fp : Filepath)
    (h : Host W) (name : bytes) (inv : invocation) (out : slice)
    (r : option (option W * list log_entry)) (ts : list (formatter * bytes)) :
  first_test fp h name ts = Reformatted inv out r ->
  exists fm m,
    In (fm, m) ts /\ filepath_Match fp m (matchName fp m name) = inl true /\
    run_formatter fp h fm name = Reformatted inv out r.
Proof.
  induction ts as [|[fm m] ts IH]; intros Hrun; [discriminate Hrun|].
  cbn [first_test] in Hrun.
  destruct (filepath_Match fp m (matchName fp m name)) as [[|]|err] eqn:Hm.
  - exists fm, m. split; [left; reflexivity|]. split; assumption.
  - destruct (IH Hrun) as (fm' & m' & Hin & Hm' & Hrun').
    exists fm', m'. split; [right; exact Hin|]. split; assumption.
  - discriminate Hrun.
Qed.

(** reformat is called only with what a command printed that ended
    without an error: the command of a configured entry one of whose
    patterns matches the file, run in the directory of the file with the
    entry's arguments, [$name] replaced by the file name. *)
Theorem reformat_only_after_success {W : Type} `{Window W} (fp : Filepath)
    (h : Host W) (st st' : watch) (name : bytes) (printed : list print)
    (inv : invocation) (out : slice) (r : option (option W * list log_entry)) :
  readEvent fp h st name = (st', printed, Reformatted inv out r) ->
  exists fm m,
    In (fm, m) (tests (Formatter (config st'))) /\
    filepath_Match fp m (matchName fp m name) = inl true /\
    inv = mkInvocation (Cmd fm) (map (with_name name) (Args fm))
            (Some (filepath_Dir fp name))
            (if existsb is_name_arg (Args fm) then None else Some name) /\
    CombinedOutput (host_exec h) inv = (out, None) /\
    r = reformat (host_sys h) out.
Proof.
  unfold readEvent. destruct (load_config h st) as [[st1 pr] [err|]];
    intros Hrun; [discriminate Hrun|].
  injection Hrun as <- <- Hrun.
  rewrite match_formatters_tests in Hrun.
  apply first_test_reformatted in Hrun.
  destruct Hrun as (fm & m & Hin & Hm & Hrun).
  exists fm, m. split; [exact Hin|]. split; [exact Hm|].
  unfold run_formatter in Hrun. rewrite substitute_spec in Hrun.
  cbv zeta in Hrun.
  destruct (existsb is_name_arg (Args fm)); cbn [negb] in Hrun.
  - destruct (CombinedOutput (host_exec h) _) as [o [e|]] eqn:Hout;
      [discriminate Hrun|].
    injection Hrun as <- <- <-. repeat split. exact Hout.
  - destruct (os_Open (host_exec h) name); [discriminate Hrun|].
    destruct (CombinedOutput (host_exec h) _) as [o [e|]] eqn:Hout;
      [discriminate Hrun|].
    injection Hrun as <- <- <-. repeat split. exact Hout.
Qed.

Lemma reformat_only_after_success_witness :
  let name := str "/src/a.go" in
  exists fm m,
    In (fm, m) (tests (Formatter (normalize example_Config))) /\
    filepath_Match example_Filepath m (matchName example_Filepath m name)
    = inl true /\
    mkInvocation (str "gofmt") [str "-s"; name] (Some (str "/src")) None
    = mkInvocation (Cmd fm) (map (with_name name) (Args fm))
        (Some (filepath_Dir example_Filepath name))
        (if existsb is_name_arg (Args fm) then None else Some name) /\
    CombinedOutput (host_exec example_Host)
      (mkInvocation (str "gofmt") [str "-s"; name] (Some (str "/src")) None)
    = (two_hunks_new, None) /\
    reformat (host_sys example_Host) two_hunks_new
    = reformat (host_sys example_Host) two_hunks_new.
Proof.
  apply (reformat_only_after_success example_Filepath example_Host
           (mkWatch 0 (mkConfig [])) (mkWatch 5 (normalize example_Config))
           (str "/src/a.go") [PrintRead 5]).
  reflexivity.
Defined.

(** ** The variant: the loop over the events *)

Lemma load_config_lastMod {W : Type} (h : Host W) (st : watch) :
  lastMod st <= lastMod (fst (fst (load_config h st))).
Proof.
  unfold load_config. destruct (os_Stat h) as [t|err]; [|cbn [fst]; lia].
  destruct (Z.ltb_spec (lastMod st) t) as [Hlt|Hge]; [|cbn [fst]; lia].
  destruct (os_Open_config h); [cbn [fst]; lia|].
  destruct (toml_Decode h (config st)) as [c [err|]]; cbn [fst lastMod]; lia.
Qed.

Lemma readEvent_lastMod {W : Type} `{Window W} (fp : Filepath) (h : Host W)
    (st : watch) (name : bytes) :
  lastMod st <= lastMod (fst (fst (readEvent fp h st name))).
Proof.
  pose proof (load_config_lastMod h st) as Hload. unfold readEvent.
  destruct (load_config h st) as [[st1 pr] [err|]]; exact Hload.
Qed.

(** The time of the configuration last read never goes back, whatever
    the events and whatever the file system answers. *)
Theorem lastMod_never_decreases {W : Type} `{Window W} (fp : Filepath)
    (reads : list (log_read W)) :
  forall st : watch,
  lastMod st <= lastMod (fst (fst (fst (watch_loop fp reads st)))).
Proof.
  induction reads as [|[ev h|err] reads IH]; intros st;
    [cbn [watch_loop fst]; lia| |cbn [watch_loop fst]; lia].
  cbn [watch_loop].
  destruct (bytes_eqb (Name ev) [] || negb (bytes_eqb (Op ev) (str "put")));
    [apply IH|].
  pose proof (readEvent_lastMod fp h st (Name ev)) as Hev.
  destruct (readEvent fp h st (Name ev)) as [[st1 pr] o]. cbn [fst] in Hev.
  specialize (IH st1).
  destruct (watch_loop fp reads st1) as [[[st2 pr2] os] fatal].
  cbn [fst] in *. lia.
Qed.

(** An event that is not the [put] of a named file is passed by: the
    loop goes on as if it had not been delivered, without a look at the
    configuration file. *)
Theorem other_events_ignored {W : Type} `{Window W} (fp : Filepath)
    (ev : event) (h : Host W) (after : list (log_read W)) :
  Name ev = [] \/ Op ev <> str "put" ->
  forall (before : list (log_read W)) (st : watch),
  watch_loop fp (before ++ LogEvent ev h :: after) st
  = watch_loop fp (before ++ after) st.
Proof.
  intros Hother.
  assert (Hskip : bytes_eqb (Name ev) [] || negb (bytes_eqb (Op ev) (str "put"))
                  = true).
  { destruct Hother as [->|Hop]; [reflexivity|].
    apply orb_true_iff. right.
    destruct (bytes_eqb (Op ev) (str "put")) eqn:E; [|reflexivity].
    apply bytes_eqb_eq in E. contradiction. }
  induction before as [|[ev0 h0|err] before IH]; intros st.
  - cbn [app watch_loop]. rewrite Hskip. reflexivity.
  - cbn [app watch_loop].
    destruct (bytes_eqb (Name ev0) [] || negb (bytes_eqb (Op ev0) (str "put")));
      [apply IH|].
    destruct (readEvent fp h0 st (Name ev0)) as [[st1 pr] o].
    rewrite IH. reflexivity.
  - reflexivity.
Qed.

Lemma other_events_ignored_witness :
  watch_loop example_Filepath
    ([] ++ LogEvent (mkEvent 7 (str "new") (str "/src/a.go")) example_Host :: [])
    (mkWatch 0 (mkConfig []))
  = watch_loop example_Filepath ([] ++ []) (mkWatch 0 (mkConfig [])).
Proof.
  apply (other_events_ignored example_Filepath
           (mkEvent 7 (str "new") (str "/src/a.go")) example_Host []).
  right. discriminate.
Defined.

(** ** No index leaves its bounds *)

Lemma subslice_prefix (text : bytes) (j : nat) :
  (j <= length text)%nat -> subslice text 0 j = Some (firstn j text).
Proof.
  intros Hj. unfold subslice. cbn [Nat.leb andb skipn].
  destruct (Nat.leb_spec j (length text)) as [_|]; [|lia].
  rewrite Nat.sub_0_r. reflexivity.
Qed.

Lemma subslice_suffix (text : bytes) (j : nat) :
  (j <= length text)%nat ->
  subslice text j (length text) = Some (skipn j text).
Proof.
  intros Hj. unfold subslice.
  destruct (Nat.leb_spec j (length text)) as [_|]; [|lia].
  rewrite Nat.leb_refl. cbn [andb]. f_equal.
  apply firstn_all2. rewrite length_skipn. lia.
Qed.

Lemma index_nth (text : bytes) (j : nat) (d : ascii) :
  (j < length text)%nat -> index text j = Some (nth j text d).
Proof. intros Hj. unfold index. apply nth_error_nth'. exact Hj. Qed.

Lemma scan_op_checked_eq (fuel : nat) (line : bytes) : forall j : nat,
  (j <= length line)%nat -> (length line - j <= fuel)%nat ->
  scan_op_checked fuel line j = Some (scan_op (skipn j line) j).
Proof.
  induction fuel as [|fuel IH]; intros j Hj Hfuel.
  - assert (j = length line) by lia. subst j.
    cbn [scan_op_checked]. rewrite Nat.ltb_irrefl, skipn_all. reflexivity.
  - cbn [scan_op_checked]. destruct (Nat.ltb_spec j (length line)) as [Hlt|Hge].
    + destruct (index_in_range line j Hlt) as [c Hc]. rewrite Hc.
      rewrite (skipn_index line j c Hc). cbn [scan_op].
      destruct (is_op c); [reflexivity|]. apply IH; lia.
    + assert (j = length line) by lia. subst j. rewrite skipn_all. reflexivity.
Qed.

Lemma parseSpan_checked_eq (text : bytes) :
  parseSpan_checked text = Some (parseSpan text).
Proof.
  unfold parseSpan_checked, parseSpan, strings_Index.
  destruct (strings_Index_from_cases text ","%char 0)
    as [[_ Hi]|(pre & post & -> & _ & Hi)]; rewrite Hi.
  - reflexivity.
  - destruct (Z.ltb_spec (0 + Z.of_nat (length pre)) 0) as [|_]; [lia|].
    replace (Z.to_nat (0 + Z.of_nat (length pre))) with (length pre) by lia.
    replace (Z.to_nat (0 + Z.of_nat (length pre) + 1)) with (S (length pre)) by lia.
    rewrite subslice_prefix, subslice_suffix
      by (rewrite length_app; cbn [length]; lia).
    reflexivity.
Qed.

Lemma replay_line_checked_eq {W : Type} `{Window W} (new line : bytes)
    (st : state W) :
  replay_line_checked new line st = replay_line new line st.
Proof.
  unfold replay_line_checked, replay_line.
  destruct line as [|c0 rest]; [reflexivity|].
  set (line := c0 :: rest).
  change (length line =? 0)%nat with false. cbv iota.
  change (index line 0) with (Some c0). cbv iota.
  destruct (is_detail c0); [reflexivity|].
  rewrite (scan_op_checked_eq (length line) line 0) by lia.
  change (skipn 0 line) with line.
  destruct (Nat.leb_spec (length line) (scan_op line 0)) as [Hge|Hlt];
    [reflexivity|].
  rewrite subslice_prefix, subslice_suffix by lia.
  rewrite !parseSpan_checked_eq.
  destruct (parseSpan (firstn (scan_op line 0) line)) as [[oldStart oldEnd] log1].
  destruct (parseSpan (skipn (S (scan_op line 0)) line))
    as [[newStart newEnd] log2].
  cbv zeta. destruct ((oldStart =? 0) || (newStart =? 0)); [reflexivity|].
  rewrite (index_nth line (scan_op line 0) "000"%char) by exact Hlt.
  reflexivity.
Qed.

Lemma replay_checked_eq {W : Type} `{Window W} (new : bytes)
    (diffLines : list bytes) : forall (n : nat) (st : state W),
  (n <= length diffLines)%nat ->
  replay_checked new diffLines n st = replay new diffLines n st.
Proof.
  induction n as [|i IH]; intros st Hn; [reflexivity|].
  cbn [replay_checked replay].
  rewrite (nth_error_nth' diffLines []) by lia.
  rewrite replay_line_checked_eq.
  destruct (replay_line new (nth i diffLines []) st) as [[[|] st']|];
    [apply IH; lia|reflexivity|reflexivity].
Qed.

Lemma reformat_edits_checked_eq {W : Type} `{Window W} (sys : Sys W)
    (old : bytes) (new : slice) (st : state W) :
  reformat_edits_checked sys old new st = reformat_edits sys old new st.
Proof.
  unfold reformat_edits_checked, reformat_edits.
  destruct (is_nil new || bytes_Equal old new); [reflexivity|].
  destruct (sys_TempFile sys); [reflexivity|].
  destruct (sys_tmp_Write sys); [reflexivity|].
  apply replay_checked_eq. lia.
Qed.

(** No index and no slice expression of reformat, of its replay loop, of
    parseSpan or of findLines ever leaves its bounds: written with Go's
    bounds checks in every one of them, both variants of reformat return,
    whatever the window, the formatter and the diff tool answer, and with
    the result of the reading that takes the bounds for granted. *)
Theorem reformat_never_panics {W : Type} `{Window W} (sys : Sys W)
    (new : slice) (fn_result : slice + error) :
  (exists r, reformat_checked sys new = Some r /\ reformat sys new = Some r) /\
  (exists r, reformat_fmtFn_checked sys fn_result = Some r /\
             reformat_fmtFn sys fn_result = Some r).
Proof.
  assert (Hedits : forall old nw st, exists st',
             reformat_edits sys old nw st = Some st').
  { intros old nw st. unfold reformat_edits.
    destruct (is_nil nw || bytes_Equal old nw); [eexists; reflexivity|].
    destruct (sys_TempFile sys); [eexists; reflexivity|].
    destruct (sys_tmp_Write sys); [eexists; reflexivity|].
    apply replay_total. }
  unfold reformat_checked, reformat_fmtFn_checked, reformat, reformat_fmtFn.
  destruct (sys_Open sys) as [w|e];
    [|split; eexists; split; reflexivity].
  destruct (sys_ReadFile sys) as [old|e];
    [|split; eexists; split; reflexivity].
  split.
  - rewrite reformat_edits_checked_eq.
    destruct (Hedits old new (mkState w [])) as [st' Hst'].
    rewrite Hst'. eexists; split; reflexivity.
  - destruct fn_result as [nw|e]; [|eexists; split; reflexivity].
    rewrite reformat_edits_checked_eq.
    destruct (Hedits old nw (mkState w [])) as [st' Hst'].
    rewrite Hst'. eexists; split; reflexivity.
Qed.
